(** * go-log: a shallow embedding of the leveled, dual-sink logger

    The development follows the Go sources file by file:
    - [level.go]   : [Level], [parseLevel];
    - [context.go] : [WithTag], [tag], [WithMoreInfo], [findMoreInfo];
    - async writer : [AsyncWriter], its [Write] / [Flush] / [Close] calls and
                     the consumer goroutine [flush], as an interleaving
                     small-step semantics;
    - logger       : [newLogger], [log], [parsePC], [Flush], [Close];
    - [log.go]     : [Init].

    Go strings are [string] (a sequence of 8-bit characters), byte slices are
    [list byte], Go [int] values are [Z]. *)

From Stdlib Require Import ZArith Lia Bool List String Ascii.
From Stdlib.Strings Require Import Byte.
From stdpp Require Import base list gmap.
Import ListNotations.

Local Open Scope Z_scope.

(** ** level.go *)

(** [type Level int]: smaller values are more severe. *)
Definition Level := Z.

(** [1 << iota] for iota = 0 .. 5. *)
Definition LogFatal : Level := Z.shiftl 1 0.
Definition LogError : Level := Z.shiftl 1 1.
Definition LogWarn  : Level := Z.shiftl 1 2.
Definition LogTrace : Level := Z.shiftl 1 3.
Definition LogInfo  : Level := Z.shiftl 1 4.
Definition LogDebug : Level := Z.shiftl 1 5.
Definition logMax   : Level := LogDebug + 1.
Definition logPrint : Level := 0.

(** The six named severities of the specification, most severe first, with
    their ordinal rank; [level_of] gives the constant the code uses. *)
Inductive Severity := SFatal | SError | SWarn | STrace | SInfo | SDebug.

Definition rank (s : Severity) : nat :=
  match s with
  | SFatal => 0 | SError => 1 | SWarn => 2 | STrace => 3 | SInfo => 4 | SDebug => 5
  end%nat.

Definition level_of (s : Severity) : Level :=
  match s with
  | SFatal => LogFatal | SError => LogError | SWarn => LogWarn
  | STrace => LogTrace | SInfo => LogInfo | SDebug => LogDebug
  end.

(** [strings.ToLower] belongs to the Go standard library.  On a string made
    of ASCII bytes only it maps the bytes 'A'..'Z' to 'a'..'z' and keeps the
    others; on any other string it applies the Unicode lower-case mapping,
    which is taken as a parameter ([unicodeLower]). *)
Definition isASCII (c : ascii) : bool := (nat_of_ascii c <? 128)%nat.

Definition isUpper (c : ascii) : bool :=
  ((nat_of_ascii "A" <=? nat_of_ascii c)%nat && (nat_of_ascii c <=? nat_of_ascii "Z")%nat)%bool.

Definition lowerByte (c : ascii) : ascii :=
  if isUpper c then ascii_of_nat (nat_of_ascii c + (nat_of_ascii "a" - nat_of_ascii "A")) else c.

Fixpoint allASCII (s : string) : bool :=
  match s with
  | EmptyString => true
  | String c r => isASCII c && allASCII r
  end.

Fixpoint lowerASCII (s : string) : string :=
  match s with
  | EmptyString => EmptyString
  | String c r => String (lowerByte c) (lowerASCII r)
  end.

(** ** Byte slices, errors and the wrapped sink *)

Definition bytes := list byte.

(** Go's [len] of a slice, as an [int]. *)
Definition len (data : bytes) : Z := Z.of_nat (length data).

(** The two error values of the async writer, and the errors an underlying
    [io.WriteCloser] may answer with. *)
Inductive error :=
| errAsyncWriterClosed
| errAsyncWriterFull
| errSink (code : nat).

(** The wrapped [io.WriteCloser] (a [lumberjack.Logger] in [newLogger]).  It
    records what it is asked to do: the slices passed to [Write], in order,
    and the number of [Close] calls; [closeResult] is what its [Close]
    answers. *)
Record Sink := mkSink {
  Filename : string;
  MaxSize : Z;
  written : list bytes;
  closes : nat;
  closeResult : option error
}.

Definition sink_Write (s : Sink) (data : bytes) : Sink :=
  mkSink (Filename s) (MaxSize s) (written s ++ [data]) (closes s) (closeResult s).

Definition sink_Close (s : Sink) : Sink * option error :=
  (mkSink (Filename s) (MaxSize s) (written s) (S (closes s)) (closeResult s),
   closeResult s).

(** ** The async writer *)

(** Program points of the goroutine [flush] started by [NewAsyncWriter]:
    - [FSelect]: at the outer [select];
    - [FSignal]: a sentinel was received, about to do [w.flushed <- true];
    - [FMark]:   [<-w.closing] was received, about to store [closed = 1];
    - [FDrain]:  in the inner loop that empties the queue;
    - [FExit]:   returned. *)
Inductive FlushPC := FSelect | FSignal | FMark | FDrain | FExit.

(** [AsyncWriter]: the fields of the Go struct.  A buffered channel is the
    list of its pending elements, oldest first; [closing] and [flushed] have
    capacity one and only ever carry [true], so each is the presence of that
    one element; [done] is never sent on, only closed, so it is whether it
    has been closed.  [goroutine] is the program point of the consumer that
    [NewAsyncWriter] starts for this writer. *)
Record AsyncWriter := mkAsyncWriter {
  ch : list bytes;
  ch_cap : Z;
  closing : bool;
  flushed : bool;
  done : bool;
  writer : Sink;
  closed : Z;
  goroutine : FlushPC
}.

Definition set_ch (q : list bytes) (w : AsyncWriter) : AsyncWriter :=
  mkAsyncWriter q (ch_cap w) (closing w) (flushed w) (done w) (writer w) (closed w) (goroutine w).
Definition set_closing (b : bool) (w : AsyncWriter) : AsyncWriter :=
  mkAsyncWriter (ch w) (ch_cap w) b (flushed w) (done w) (writer w) (closed w) (goroutine w).
Definition set_flushed (b : bool) (w : AsyncWriter) : AsyncWriter :=
  mkAsyncWriter (ch w) (ch_cap w) (closing w) b (done w) (writer w) (closed w) (goroutine w).
Definition set_done (b : bool) (w : AsyncWriter) : AsyncWriter :=
  mkAsyncWriter (ch w) (ch_cap w) (closing w) (flushed w) b (writer w) (closed w) (goroutine w).
Definition set_writer (s : Sink) (w : AsyncWriter) : AsyncWriter :=
  mkAsyncWriter (ch w) (ch_cap w) (closing w) (flushed w) (done w) s (closed w) (goroutine w).
Definition set_closed (c : Z) (w : AsyncWriter) : AsyncWriter :=
  mkAsyncWriter (ch w) (ch_cap w) (closing w) (flushed w) (done w) (writer w) c (goroutine w).
Definition set_goroutine (pc : FlushPC) (w : AsyncWriter) : AsyncWriter :=
  mkAsyncWriter (ch w) (ch_cap w) (closing w) (flushed w) (done w) (writer w) (closed w) pc.

(** [NewAsyncWriter(writer, size)]; the buffered-channel model is that of
    [size >= 1], which is what [newLogger] always passes. *)
Definition NewAsyncWriter (writer : Sink) (size : Z) : AsyncWriter :=
  mkAsyncWriter [] size false false false writer 0 FSelect.

Definition isClosed (w : AsyncWriter) : bool := negb (closed w =? 0).

(** A non-blocking send on [w.ch] succeeds when the buffer has room. *)
Definition ch_has_room (w : AsyncWriter) : bool :=
  Z.of_nat (length (ch w)) <? ch_cap w.

(** [Write]: the whole call, run without interruption. *)
Definition AsyncWriter_Write (w : AsyncWriter) (data : bytes) : AsyncWriter * (Z * option error) :=
  if len data =? 0 then (w, (0, None))
  else if isClosed w then (w, (0, Some errAsyncWriterClosed))
  else if ch_has_room w then (set_ch (ch w ++ [data]) w, (len data, None))
  else (w, (0, Some errAsyncWriterFull)).

(** One step of the goroutine [flush].  The result lists every step the
    goroutine can take from [w]: none when it is blocked or has returned,
    two when both cases of the outer [select] are ready. *)
Definition flush_step (w : AsyncWriter) : list AsyncWriter :=
  match goroutine w with
  | FSelect =>
      match ch w with
      | data :: rest =>
          if len data =? 0 then [set_goroutine FSignal (set_ch rest w)]
          else [set_writer (sink_Write (writer w) data) (set_ch rest w)]
      | [] => []
      end ++
      (if closing w then [set_goroutine FMark (set_closing false w)] else [])
  | FSignal =>
      if flushed w then [] else [set_goroutine FSelect (set_flushed true w)]
  | FMark => [set_goroutine FDrain (set_closed 1 w)]
  | FDrain =>
      match ch w with
      | data :: rest =>
          if len data =? 0 then [set_ch rest w]
          else [set_writer (sink_Write (writer w) data) (set_ch rest w)]
      | [] =>
          [set_goroutine FExit (set_done true (set_writer (fst (sink_Close (writer w))) w))]
      end
  | FExit => []
  end.

(** Program points of a caller inside [Write], [Flush] or [Close]; [Ret] is
    the return, with the [(written, err)] pair of [Write] (for [Flush] and
    [Close], which return an error only, [written] is 0). *)
Inductive Call :=
| WriteEntry (data : bytes)
| WriteSend (data : bytes)
| FlushEntry
| FlushSend
| FlushCheck
| FlushWait
| CloseEntry
| CloseSignal
| CloseWait
| Ret (n : Z) (err : option error).

(** One step of a caller.  An empty result means the caller is blocked (or
    has returned); a [select] with two ready cases gives two results. *)
Definition call_step (w : AsyncWriter) (c : Call) : list (AsyncWriter * Call) :=
  match c with
  | WriteEntry data =>
      if len data =? 0 then [(w, Ret 0 None)]
      else if isClosed w then [(w, Ret 0 (Some errAsyncWriterClosed))]
      else [(w, WriteSend data)]
  | WriteSend data =>
      if ch_has_room w then [(set_ch (ch w ++ [data]) w, Ret (len data) None)]
      else [(w, Ret 0 (Some errAsyncWriterFull))]
  | FlushEntry =>
      if isClosed w then [(w, Ret 0 (Some errAsyncWriterClosed))]
      else [(w, FlushSend)]
  | FlushSend =>
      (if ch_has_room w then [(set_ch (ch w ++ [[]]) w, FlushCheck)] else []) ++
      (if done w then [(w, Ret 0 (Some errAsyncWriterClosed))] else [])
  | FlushCheck =>
      if isClosed w then [(w, Ret 0 None)] else [(w, FlushWait)]
  | FlushWait =>
      (if flushed w then [(set_flushed false w, Ret 0 None)] else []) ++
      (if done w then [(w, Ret 0 None)] else [])
  | CloseEntry =>
      if isClosed w then [(w, Ret 0 None)] else [(w, CloseSignal)]
  | CloseSignal =>
      (if closing w then [] else [(set_closing true w, CloseWait)]) ++
      (if done w then [(w, Ret 0 None)] else [])
  | CloseWait =>
      if done w then [(w, Ret 0 None)] else []
  | Ret _ _ => []
  end.

(** The system made of one writer, its goroutine and any number of callers
    that are inside [Write], [Flush] or [Close].  [accepted] is a history
    variable: the data of the [Write] calls whose send succeeded, in the order
    of the sends. *)
Record Sys := mkSys {
  sw : AsyncWriter;
  threads : list Call;
  accepted : list bytes
}.

(** What a step of a caller adds to the history. *)
Definition accepted_by (c c' : Call) : list bytes :=
  match c, c' with
  | WriteSend data, Ret _ None => [data]
  | _, _ => []
  end.

Definition thread_succs (s : Sys) (i : nat) (c : Call) : list Sys :=
  map (fun r => mkSys (fst r) (<[i := snd r]> (threads s)) (accepted s ++ accepted_by c (snd r)))
      (call_step (sw s) c).

(** Every step the system can take: one of the goroutine, or one of a caller. *)
Definition sys_succs (s : Sys) : list Sys :=
  map (fun w' => mkSys w' (threads s) (accepted s)) (flush_step (sw s)) ++
  concat (imap (thread_succs s) (threads s)).

(** A new call may begin at any time. *)
Definition is_entry (c : Call) : bool :=
  match c with
  | WriteEntry _ | FlushEntry | CloseEntry => true
  | _ => false
  end.

Inductive sys_step : Sys -> Sys -> Prop :=
| step_spawn s c :
    is_entry c = true ->
    sys_step s (mkSys (sw s) (threads s ++ [c]) (accepted s))
| step_run s s' :
    In s' (sys_succs s) ->
    sys_step s s'.

Inductive reachable (s0 : Sys) : Sys -> Prop :=
| reach_refl : reachable s0 s0
| reach_step s s' : reachable s0 s -> sys_step s s' -> reachable s0 s'.

(** [run sched fuel k s]: at most [fuel] steps from [s], no new call; at the
    [k]-th step the scheduler [sched] picks which of the possible steps is
    taken.  The run stops where no step is possible. *)
Fixpoint run (sched : nat -> nat) (fuel k : nat) (s : Sys) : Sys :=
  match fuel with
  | O => s
  | S fuel' =>
      match sys_succs s with
      | [] => s
      | s1 :: rest =>
          run sched fuel' (S k) (nth (sched k mod length (s1 :: rest)) (s1 :: rest) s1)
      end
  end.

(** The real lines of a queue: its elements other than the flush sentinel. *)
Definition is_line (data : bytes) : bool := negb (len data =? 0).
Definition lines (q : list bytes) : list bytes := List.filter is_line q.

(** The number of flush sentinels in a queue. *)
Definition sentinels (q : list bytes) : nat :=
  length (List.filter (fun d => negb (is_line d)) q).

(** A blocking call made by a caller that nobody else interferes with: the
    caller steps while it can; while it is blocked the goroutine steps.  Each
    takes the first of its possible steps. *)
Fixpoint drive (fuel : nat) (s : AsyncWriter * Call) : AsyncWriter * Call :=
  match fuel with
  | O => s
  | S fuel' =>
      match snd s with
      | Ret _ _ => s
      | _ =>
          match call_step (fst s) (snd s) with
          | s' :: _ => drive fuel' s'
          | [] =>
              match flush_step (fst s) with
              | w' :: _ => drive fuel' (w', snd s)
              | [] => s
              end
          end
      end
  end.

(** Enough steps for any such call: the caller takes at most four, the
    goroutine at most two per queued element and four to shut down. *)
Definition call_fuel (w : AsyncWriter) : nat := (3 * length (ch w) + 16)%nat.

(** The result of a blocking call: [None] when the call never returns. *)
Definition call_result (c : Call) : option (option error) :=
  match c with
  | Ret _ e => Some e
  | _ => None
  end.

Definition AsyncWriter_Flush (w : AsyncWriter) : AsyncWriter * option (option error) :=
  let s := drive (call_fuel w) (w, FlushEntry) in (fst s, call_result (snd s)).

Definition AsyncWriter_Close (w : AsyncWriter) : AsyncWriter * option (option error) :=
  let s := drive (call_fuel w) (w, CloseEntry) in (fst s, call_result (snd s)).

(** The loop shared by the logger's [Flush] and [Close]:
    [for _, w := range l.writers { if e := f(w); e != nil { err = e } }]. *)
Fixpoint each_writer (f : AsyncWriter -> AsyncWriter * option (option error))
    (ws : list AsyncWriter) (err : option error)
  : list AsyncWriter * option (option error) :=
  match ws with
  | [] => ([], Some err)
  | w :: rest =>
      match f w with
      | (w', Some e) =>
          let err' := match e with Some _ => e | None => err end in
          let r := each_writer f rest err' in
          (w' :: fst r, snd r)
      | (w', None) => (w' :: rest, None)
      end
  end.


(** ** config.go *)

Definition DefaultLogPath : string := "./log/all.log".
Definition DefaultLogLevel : string := "info".
Definition DefaultErrorLogPath : string := "./log/error.log".
Definition DefaultErrorLogLevel : string := "warn".
Definition DefaultBufferedLines : Z := Z.shiftl 1 18.

Record Config := mkConfig {
  LogPath : string;
  LogLevel : string;
  ErrorLogPath : string;
  ErrorLogLevel : string;
  PackagePrefix : string;
  BufferedLines : Z
}.

(** ** Constants and helpers of the logger *)

Definition maxLogLine : Z := 4096.
Definition maxLogFileSize : Z := Z.shiftl 1 32.
Definition replaceStdPackagePrefix : string := "<std>".

Definition B (s : string) : bytes := list_byte_of_string s.
Definition logSeparator : bytes := B "||".

(** [strings.LastIndex(s, "/")], -1 when there is no slash. *)
Fixpoint lastIndexSlash_from (s : string) (i : Z) (found : Z) : Z :=
  match s with
  | EmptyString => found
  | String c r =>
      lastIndexSlash_from r (i + 1) (if Ascii.eqb c "/" then i else found)
  end.
Definition lastIndexSlash (s : string) : Z := lastIndexSlash_from s 0 (-1).

(** [s[:n]] and [s[n:]] on strings. *)
Definition str_take (n : Z) (s : string) : string := substring 0 (Z.to_nat n) s.
Definition str_drop (n : Z) (s : string) : string :=
  substring (Z.to_nat n) (String.length s - Z.to_nat n) s.

(** The values of the [io.Writer] interface that a logger holds: the two
    [dummyCloser]s around [os.Stdout] and [os.Stderr], or a pointer to one of
    the logger's async writers, given by its position in [l.writers].  Two
    such values are equal in Go exactly when they are equal here. *)
Inductive IoWriter :=
| dummyStdout
| dummyStderr
| asyncWriter (i : nat).

Definition IoWriter_eqb (a b : IoWriter) : bool :=
  match a, b with
  | dummyStdout, dummyStdout => true
  | dummyStderr, dummyStderr => true
  | asyncWriter i, asyncWriter j => (i =? j)%nat
  | _, _ => false
  end.

(** [stack]: the cached rendering of one call site. *)
Record stack := mkStack {
  line : bytes;
  panicContext : string
}.

(** The process's terminal streams and the two flags set by [Init]. *)
Record Std := mkStd {
  stdout : list bytes;
  stderr : list bytes;
  isStdoutTerminal : bool;
  isStderrTerminal : bool
}.

Definition os_Stdout_Write (st : Std) (data : bytes) : Std :=
  mkStd (stdout st ++ [data]) (stderr st) (isStdoutTerminal st) (isStderrTerminal st).
Definition os_Stderr_Write (st : Std) (data : bytes) : Std :=
  mkStd (stdout st) (stderr st ++ [data]) (isStdoutTerminal st) (isStderrTerminal st).

(** [logger]: [writers] holds the async writers themselves; [allLogger] and
    [wfLogger] point into it; [files] lists, by position in [writers], the
    [lumberjack.Logger]s they wrap; [pcCache] is the [sync.Map]. *)
Record logger := mkLogger {
  maxLevel : Level;
  errorLevel : Level;
  pkgPrefix : string;
  allLogger : IoWriter;
  wfLogger : IoWriter;
  files : list nat;
  writers : list AsyncWriter;
  pcCache : gmap Z stack
}.

Definition set_writers (ws : list AsyncWriter) (l : logger) : logger :=
  mkLogger (maxLevel l) (errorLevel l) (pkgPrefix l) (allLogger l) (wfLogger l)
           (files l) ws (pcCache l).
Definition set_pcCache (c : gmap Z stack) (l : logger) : logger :=
  mkLogger (maxLevel l) (errorLevel l) (pkgPrefix l) (allLogger l) (wfLogger l)
           (files l) (writers l) c.

(** [target.Write(data)] on an [io.Writer] of the logger, its result dropped. *)
Definition io_Write (target : IoWriter) (data : bytes) (s : Std * logger) : Std * logger :=
  match target with
  | dummyStdout => (os_Stdout_Write (fst s) data, snd s)
  | dummyStderr => (os_Stderr_Write (fst s) data, snd s)
  | asyncWriter i =>
      match writers (snd s) !! i with
      | Some w => (fst s, set_writers (<[i := fst (AsyncWriter_Write w data)]> (writers (snd s))) (snd s))
      | None => s
      end
  end.

(** The logger's [Flush] and [Close]. *)
Definition logger_Flush (l : logger) : logger * option (option error) :=
  let r := each_writer AsyncWriter_Flush (writers l) None in
  (set_writers (fst r) l, snd r).

Definition logger_Close (l : logger) : logger * option (option error) :=
  let r := each_writer AsyncWriter_Close (writers l) None in
  (set_writers (fst r) l, snd r).

(** How a call of [log] ends: it returns, it panics with a value (after
    [Fatalf]), or it hangs in a [Flush] that never returns. *)
Inductive Outcome := Returns | Panics (v : string) | Hangs.

Definition levelName (level : Level) : string :=
  if level =? LogDebug then "DEBUG"
  else if level =? LogInfo then "INFO"
  else if level =? LogTrace then "TRACE"
  else if level =? LogWarn then "WARN"
  else if level =? LogError then "ERROR"
  else if level =? LogFatal then "FATAL"
  else "UNKNOWN".

(** ** Notions the properties are stated with *)

(** Two bytes that are the same letter up to ASCII case: equal, or an upper
    case letter and the byte 32 above it. *)
Definition caseVariant (c d : ascii) : bool :=
  Ascii.eqb c d
  || (isUpper c && (nat_of_ascii d =? nat_of_ascii c + 32)%nat)
  || (isUpper d && (nat_of_ascii c =? nat_of_ascii d + 32)%nat).

Fixpoint sameLetters (s t : string) : bool :=
  match s, t with
  | EmptyString, EmptyString => true
  | String c r, String d r' => caseVariant c d && sameLetters r r'
  | _, _ => false
  end.

(** The recognised level names, in lower case, with their severities. *)
Definition levelNames : list (string * Severity) :=
  [("debug", SDebug); ("info", SInfo); ("trace", STrace); ("warn", SWarn);
   ("warning", SWarn); ("error", SError); ("fatal", SFatal)]%string.

Fixpoint lookupName (table : list (string * Severity)) (name : string) : option Severity :=
  match table with
  | [] => None
  | (n, v) :: rest => if String.eqb name n then Some v else lookupName rest name
  end.

(** The level a lower-case name stands for: that of the table, [LogDebug]
    for a name that is not in it. *)
Definition levelByName (name : string) : Level :=
  match lookupName levelNames name with
  | Some v => level_of v
  | None => LogDebug
  end.

(** The paths [newLogger] opens for a configuration: the configured ones,
    or the defaults where the configuration leaves them empty. *)
Definition primaryPath (c : Config) : string :=
  if String.eqb (LogPath c) "" then DefaultLogPath else LogPath c.
Definition errorPath (c : Config) : string :=
  if String.eqb (ErrorLogPath c) "" then DefaultErrorLogPath else ErrorLogPath c.

(** [line[:maxLogLine]] when the line is longer than [maxLogLine]. *)
Definition truncated (buf : bytes) : bytes :=
  if maxLogLine <? len buf then firstn (Z.to_nat maxLogLine) buf else buf.


(** Weights of the program points, for the bound below. *)
Definition gweight (pc : FlushPC) : nat :=
  match pc with
  | FExit => 0 | FDrain => 1 | FMark => 2 | FSelect => 3 | FSignal => 4
  end.

Definition cweight (c : Call) : nat :=
  match c with
  | CloseEntry => 3 | CloseSignal => 2 | CloseWait => 1 | _ => 0
  end.

(** A bound on the number of steps a writer and the [Close] calls made on it
    can take. *)
Definition close_measure (s : Sys) : nat :=
  2 * length (ch (sw s)) + gweight (goroutine (sw s))
  + list_sum (map cweight (threads s)).

(** The flush signals that are under way: sentinels in the queue, the one
    the goroutine is about to signal, the one waiting in [flushed]. *)
Definition tokens (w : AsyncWriter) : nat :=
  sentinels (ch w) + (if flushed w then 1 else 0)
  + match goroutine w with FSignal => 1 | _ => 0 end.

(** The program points inside [Close] and inside [Flush]. *)
Definition is_close_pc (c : Call) : bool :=
  match c with
  | CloseEntry | CloseSignal | CloseWait => true
  | _ => false
  end.

Definition is_flush_pc (c : Call) : bool :=
  match c with
  | FlushEntry | FlushSend | FlushCheck | FlushWait => true
  | _ => false
  end.

(** A caller inside [Close], or one whose [Close] has returned success. *)
Definition closer_pc (c : Call) : bool :=
  match c with
  | CloseEntry | CloseSignal | CloseWait => true
  | Ret 0 None => true
  | _ => false
  end.

Definition not_waiting (c : Call) : bool :=
  match c with
  | CloseWait => false
  | _ => true
  end.

(** What holds of a writer and the [Close] calls made on it (and nothing
    else), from the calls to their returns: [W] is the sequence the sink must
    end with, [C0] the number of times the sink had been closed before, [n]
    the number of callers. *)
Definition close_inv (W : list bytes) (C0 n : nat) (s : Sys) : Prop :=
  length (threads s) = n /\
  written (writer (sw s)) ++ lines (ch (sw s)) = W /\
  match goroutine (sw s) with
  | FSelect | FSignal =>
      closed (sw s) = 0 /\ done (sw s) = false /\ closes (writer (sw s)) = C0
      /\ (tokens (sw s) <= 1)%nat
      /\ forallb is_close_pc (threads s) = true
      /\ (closing (sw s) = false -> forallb not_waiting (threads s) = true)
  | FMark =>
      closed (sw s) = 0 /\ done (sw s) = false /\ closes (writer (sw s)) = C0
      /\ forallb is_close_pc (threads s) = true
  | FDrain =>
      closed (sw s) = 1 /\ done (sw s) = false /\ closes (writer (sw s)) = C0
      /\ forallb closer_pc (threads s) = true
  | FExit =>
      closed (sw s) = 1 /\ done (sw s) = true /\ closes (writer (sw s)) = S C0
      /\ ch (sw s) = []
      /\ forallb closer_pc (threads s) = true
  end.

(** The one [Close] call made on a writer that was open: until it has sent
    its signal the goroutine is in its normal loop and no signal is pending,
    and it returns only after the goroutine has. *)
Definition sole_closer (s : Sys) : Prop :=
  exists c, threads s = [c]
  /\ (c = CloseEntry \/ c = CloseSignal ->
      closing (sw s) = false
      /\ (goroutine (sw s) = FSelect \/ goroutine (sw s) = FSignal))
  /\ (forall m e, c = Ret m e -> done (sw s) = true /\ goroutine (sw s) = FExit).

(** The writer is closed and every [Close] call has returned success. *)
Definition closed_and_returned (W : list bytes) (C0 n : nat) (s : Sys) : Prop :=
  threads s = repeat (Ret 0 None) n
  /\ done (sw s) = true /\ isClosed (sw s) = true /\ goroutine (sw s) = FExit
  /\ ch (sw s) = []
  /\ written (writer (sw s)) = W /\ closes (writer (sw s)) = S C0.

(** What the loop of the logger's [Flush] and [Close] keeps of the results of
    its writers: the last one that is not nil. *)
Definition keep_last (err : option error) (results : list (option error)) : option error :=
  fold_left (fun acc e => match e with Some _ => e | None => acc end) results err.

(** The error of a call that returned, nil for one that did not. *)
Definition result_or_nil (r : option (option error)) : option error :=
  match r with
  | Some e => e
  | None => None
  end.

(** ** Concrete inputs for the examples *)

Definition sample_sink : Sink := mkSink "./log/all.log" maxLogFileSize [] 0 None.
Definition sample_error_sink : Sink := mkSink "./log/error.log" maxLogFileSize [] 0 None.

(** A sink whose [Close] fails, and a writer over it with one queued line. *)
Definition failing_sink : Sink :=
  mkSink "./log/all.log" maxLogFileSize [] 0 (Some (errSink 1)).
Definition failing_writer : AsyncWriter :=
  set_ch [B "line"] (NewAsyncWriter failing_sink 4).

(** A new writer on which a first [Close] call has sent its close signal;
    the goroutine has not received it yet. *)
Definition signalled_writer : AsyncWriter :=
  set_closing true (NewAsyncWriter sample_sink 4).

(** A writer whose goroutine has marked it closed and is draining. *)
Definition draining_writer : AsyncWriter :=
  set_goroutine FDrain (set_closed 1 (set_ch [B "line"] (NewAsyncWriter sample_sink 4))).

(** A writer that has been shut down. *)
Definition finished_writer : AsyncWriter :=
  set_goroutine FExit (set_done true (set_closed 1 (NewAsyncWriter sample_sink 4))).

(** An open writer with two queued lines, and one whose queue is full. *)
Definition loaded_writer : AsyncWriter :=
  set_ch [B "one"; B "two"] (NewAsyncWriter sample_sink 4).
Definition full_writer : AsyncWriter :=
  set_ch [B "one"] (NewAsyncWriter sample_sink 1).

(** The system of a new writer after one [Write] of a line has returned and
    the goroutine has passed the line to the sink. *)
Definition after_one_write : Sys :=
  mkSys (set_writer (sink_Write sample_sink (B "one")) (NewAsyncWriter sample_sink 4))
        [Ret 3 None] [B "one"].

(** A writer over the failing sink whose goroutine has emptied the queue and
    is about to close the sink. *)
Definition drained_failing_writer : AsyncWriter :=
  set_goroutine FDrain (set_closed 1 (NewAsyncWriter failing_sink 4)).

(** A logger whose only writer has been shut down. *)
Definition closed_logger : logger :=
  mkLogger LogInfo LogWarn "" (asyncWriter 0) (asyncWriter 0) [0%nat] [finished_writer] ∅.

(** A logger with two distinct sinks, threshold Info, error threshold Warn,
    and a process whose streams are not terminals. *)
Definition two_sink_logger : logger :=
  mkLogger LogInfo LogWarn "" (asyncWriter 0) (asyncWriter 1) [0%nat; 1%nat]
           [NewAsyncWriter sample_sink 4; NewAsyncWriter sample_error_sink 4] ∅.
Definition quiet_std : Std := mkStd [] [] false false.

(** A configuration that names the same file for both sinks. *)
Definition one_file_config : Config :=
  mkConfig "./log/app.log" "debug" "./log/app.log" "" "" 0.

(** Stand-ins for the environment: values are strings, printed as they
    are; a format is printed as it is; every call site is line 16 of
    [logger_test.go] in [doLog]. *)
Definition plain_Sprintf (format : string) (args : list string) : bytes := B format.
Definition test_FileLine (pc : Z) : string * Z := ("logger_test.go"%string, 16).
Definition test_Name (pc : Z) : string := "github.com/altstory/go-log.doLog".
Definition test_Itoa (n : Z) : string := "16".
Definition no_close_error (name : string) : option error := None.

(** A format of 4999 bytes: with the final newline, a Print record renders
    to 5000 bytes. *)
Definition long_format : string := string_of_list_byte (repeat x61 4999).

(** ** Statements of the specification that the code does not meet *)

(** A close is under way on [w]: a close signal has been sent and the
    goroutine has not finished shutting down. *)
Definition already_closing (w : AsyncWriter) : Prop :=
  done w = false /\ (closing w = true \/ goroutine w = FMark \/ goroutine w = FDrain).

(** [Close] returns at once, with success, and leaves the writer as it was. *)
Definition Close_returns_at_once (w : AsyncWriter) : Prop :=
  call_step w CloseEntry = [(w, Ret 0 None)].

(** The failure of the sink's [Close] is the result of [AsyncWriter.Close]. *)
Definition Close_reports_sink_error (w : AsyncWriter) : Prop :=
  forall e, snd (sink_Close (writer w)) = Some e ->
            snd (AsyncWriter_Close w) = Some (Some e).


(** ** Notions for the further properties *)

(** An open writer that no call is using: the goroutine is at its outer
    [select], no close or flush signal is under way, the queue holds lines
    only and no more of them than the channel's capacity, which is at least
    one. *)
Definition idle_open (w : AsyncWriter) : Prop :=
  goroutine w = FSelect /\ closed w = 0 /\ closing w = false /\ done w = false
  /\ flushed w = false /\ forallb is_line (ch w) = true
  /\ 0 < ch_cap w /\ Z.of_nat (length (ch w)) <= ch_cap w.

(** The sink after [Write] was called on it with each element of [ls]. *)
Definition sink_Write_all (s : Sink) (ls : list bytes) : Sink :=
  fold_left sink_Write ls s.

(** What the goroutine keeps of a new writer over [sink] with capacity
    [size]: the flag is 0 or 1 and is 1 exactly from the final drain on;
    [done] is closed exactly when the goroutine has returned; the sink is
    [sink] with more data written, closed once exactly when [done] is; the
    queue holds at most [size] elements. *)
Definition writer_inv (sink : Sink) (size : Z) (w : AsyncWriter) : Prop :=
  ch_cap w = size
  /\ (done w = true <-> goroutine w = FExit)
  /\ (closed w = 1 <-> (goroutine w = FDrain \/ goroutine w = FExit))
  /\ (closed w = 0 \/ closed w = 1)
  /\ Z.of_nat (length (ch w)) <= Z.max 0 size
  /\ (exists ls, forallb is_line ls = true /\ written (writer w) = written sink ++ ls)
  /\ closes (writer w) = (closes sink + (if done w then 1 else 0))%nat
  /\ Filename (writer w) = Filename sink /\ MaxSize (writer w) = MaxSize sink
  /\ closeResult (writer w) = closeResult sink.

(** The terminal streams [std2] are those of [std] with some copies of [ln]
    added at the end of each; the two terminal flags are the same. *)
Definition std_extends (ln : bytes) (std std2 : Std) : Prop :=
  isStdoutTerminal std2 = isStdoutTerminal std
  /\ isStderrTerminal std2 = isStderrTerminal std
  /\ exists k1 k2 : nat,
       stdout std2 = stdout std ++ repeat ln k1 /\ stderr std2 = stderr std ++ repeat ln k2.

(** A string without the byte [/]. *)
Fixpoint no_slash (s : string) : bool :=
  match s with
  | EmptyString => true
  | String c r => negb (Ascii.eqb c "/") && no_slash r
  end.

(** ** Further concrete inputs *)

(** The system of a new writer after one [Close] call has returned. *)
Definition after_close : Sys :=
  mkSys (mkAsyncWriter [] 4 false false true (fst (sink_Close sample_sink)) 1 FExit)
        [Ret 0 None] [].

(** A logger that has one call site in its cache, and one with a package
    prefix. *)
Definition cached_site : stack := mkStack (B "[main.go:1@main.main]") "main.go:1@main.main".
Definition cached_logger : logger :=
  set_pcCache (<[1 := cached_site]> ∅) two_sink_logger.
Definition prefixed_logger : logger :=
  mkLogger LogDebug LogWarn "github.com/altstory/" (asyncWriter 0) (asyncWriter 0) [0%nat]
           [NewAsyncWriter sample_sink 4] ∅.



(** A process whose standard output is a terminal. *)
Definition terminal_std : Std := mkStd [] [] true false.

Section GoLog.

(** What the program takes from its environment:
    - [any]: the values of [interface{}];
    - [unicodeLower]: the Unicode branch of [strings.ToLower];
    - [Sprintf]: [fmt]'s rendering of a format string and its arguments;
      [fmt_v]: its rendering of one value under [%v];
    - [FuncForPC_FileLine], [FuncForPC_Name], [path_Base], [Itoa]: the
      [runtime], [path] and [strconv] functions used by [parsePC];
    - [stdPackagePrefix]: the package variable computed by [init];
    - [closeErrOf]: what closing the log file of a given name answers. *)
Variable any : Type.
Variable unicodeLower : string -> string.
Variable Sprintf : string -> list any -> bytes.
Variable fmt_v : any -> bytes.
Variable FuncForPC_FileLine : Z -> string * Z.
Variable FuncForPC_Name : Z -> string.
Variable path_Base : string -> string.
Variable Itoa : Z -> string.
Variable stdPackagePrefix : string.
Variable closeErrOf : string -> option error.

(** *** level.go: parseLevel *)

Definition ToLower (s : string) : string :=
  if allASCII s then lowerASCII s else unicodeLower s.

Definition parseLevel (level : string) : Level :=
  let l := ToLower level in
  if String.eqb l "debug" then LogDebug
  else if String.eqb l "info" then LogInfo
  else if String.eqb l "trace" then LogTrace
  else if (String.eqb l "warn" || String.eqb l "warning")%bool then LogWarn
  else if String.eqb l "error" then LogError
  else if String.eqb l "fatal" then LogFatal
  else LogDebug.

(** *** context.go *)

Record Info := mkInfo {
  Key : string;
  Value : any
}.

Record moreInfo := mkMoreInfo {
  infoList : list Info
}.

(** A (non-nil) [context.Context] is a chain of layers over
    [context.Background()].  The keys [keyLogTag] and [keyLogMoreInfo] have
    unexported types, so a layer under one of them was made by [WithTag] or
    [WithMoreInfo] and holds a [string] or a [moreInfo]; every other layer
    is [otherLayer]. *)
Inductive Context :=
| Background
| valueTag (parent : Context) (v : string)
| valueMoreInfo (parent : Context) (v : moreInfo)
| otherLayer (parent : Context).

(** [ctx.Value(keyLogTag)] and [ctx.Value(keyLogMoreInfo)]: the nearest
    layer under the key, [None] for [nil]. *)
Fixpoint Value_keyLogTag (ctx : Context) : option string :=
  match ctx with
  | Background => None
  | valueTag _ v => Some v
  | valueMoreInfo parent _ => Value_keyLogTag parent
  | otherLayer parent => Value_keyLogTag parent
  end.

Fixpoint Value_keyLogMoreInfo (ctx : Context) : option moreInfo :=
  match ctx with
  | Background => None
  | valueTag parent _ => Value_keyLogMoreInfo parent
  | valueMoreInfo _ v => Some v
  | otherLayer parent => Value_keyLogMoreInfo parent
  end.

Definition WithTag (ctx : Context) (tag : string) : Context := valueTag ctx tag.

Definition tag (ctx : Context) : string :=
  match Value_keyLogTag ctx with
  | None => ""
  | Some v => v
  end.

Definition WithMoreInfo (ctx : Context) (info : list Info) : Context :=
  if (length info =? 0)%nat then ctx
  else
    let infoList0 :=
      match Value_keyLogMoreInfo ctx with
      | Some old => [] ++ infoList old
      | None => []
      end in
    valueMoreInfo ctx (mkMoreInfo (infoList0 ++ info)).

Definition findMoreInfo (ctx : Context) : list Info :=
  match Value_keyLogMoreInfo ctx with
  | None => []
  | Some more => infoList more
  end.

(** *** The logger *)

Definition newLogger (config : option Config) : logger :=
  match config with
  | None => mkLogger logMax 0 "" dummyStdout dummyStderr [] [] ∅
  | Some config =>
      let logPath := if String.eqb (LogPath config) "" then DefaultLogPath else LogPath config in
      let logLevelString :=
        if String.eqb (LogLevel config) "" then DefaultLogLevel else LogLevel config in
      let errorLogPath :=
        if String.eqb (ErrorLogPath config) "" then DefaultErrorLogPath else ErrorLogPath config in
      let errorLogLevelString :=
        if String.eqb (ErrorLogLevel config) "" then DefaultErrorLogLevel
        else ErrorLogLevel config in
      let bufferedLines :=
        if BufferedLines config <=? 0 then DefaultBufferedLines else BufferedLines config in
      let pkgPrefix0 := PackagePrefix config in
      let pkgPrefix :=
        if negb (String.eqb pkgPrefix0 "") then
          let idx := lastIndexSlash pkgPrefix0 in
          if 0 <=? idx then str_take (idx + 1) pkgPrefix0 else pkgPrefix0
        else pkgPrefix0 in
      let allFile := mkSink logPath maxLogFileSize [] 0 (closeErrOf logPath) in
      let files := [] ++ [0%nat] in
      let w := NewAsyncWriter allFile bufferedLines in
      let writers := [] ++ [w] in
      let allLogger := asyncWriter 0 in
      let '(files, writers, wfLogger) :=
        if negb (String.eqb errorLogPath logPath) then
          let wfFile := mkSink errorLogPath maxLogFileSize [] 0 (closeErrOf errorLogPath) in
          let w := NewAsyncWriter wfFile bufferedLines in
          (files ++ [1%nat], writers ++ [w], asyncWriter 1)
        else (files, writers, allLogger) in
      mkLogger (parseLevel logLevelString) (parseLevel errorLogLevelString) pkgPrefix
               allLogger wfLogger files writers ∅
  end.

Definition parsePC (l : logger) (pc : Z) : stack :=
  let file := path_Base (fst (FuncForPC_FileLine pc)) in
  let lineno := snd (FuncForPC_FileLine pc) in
  let name := FuncForPC_Name pc in
  let '(name, prefix) :=
    if negb (String.eqb (pkgPrefix l) "") && String.prefix (pkgPrefix l) name then
      (str_drop (Z.of_nat (String.length (pkgPrefix l))) name, ""%string)
    else if negb (String.eqb stdPackagePrefix "") && String.prefix stdPackagePrefix name then
      (str_drop (Z.of_nat (String.length stdPackagePrefix)) name, replaceStdPackagePrefix)
    else (name, ""%string) in
  let lineBuf := B "[" ++ B file ++ B ":" ++ B (Itoa lineno) ++ B "@" in
  let lineBuf := if negb (String.eqb prefix "") then lineBuf ++ B prefix else lineBuf in
  let lineBuf := lineBuf ++ B name ++ B "]" in
  mkStack lineBuf
    ("go-log: log.Fatalf at " ++ file ++ ":" ++ Itoa lineno ++ "@" ++ prefix ++ name)%string.

(** The block of [log] under [if level != logPrint]: the bracketed prefix,
    the tag and the key/value pairs.  It answers the buffer, the logger
    (whose [pcCache] may have grown) and the panic context. *)
Definition log_prefix (l : logger) (ctx : Context) (level : Level)
    (now : string) (caller : option Z) : bytes * logger * string :=
  let buf := B "[" ++ B (levelName level) ++ B "]" in
  let buf := buf ++ B "[" ++ B now ++ B "]" in
  let '(buf, l, pctx) :=
    match caller with
    | Some pc =>
        let '(st, l') :=
          match pcCache l !! pc with
          | Some cache => (cache, l)
          | None => (parsePC l pc, set_pcCache (<[pc := parsePC l pc]> (pcCache l)) l)
          end in
        (buf ++ line st, l', panicContext st)
    | None => (buf, l, ""%string)
    end in
  let t := tag ctx in
  let t := if String.eqb t "" then "*"%string else t in
  let buf := buf ++ B " " ++ B t in
  let buf := buf ++ logSeparator in
  let buf :=
    fold_left (fun buf info => buf ++ B (Key info) ++ B "=" ++ fmt_v (Value info) ++ logSeparator)
              (findMoreInfo ctx) buf in
  (buf, l, pctx).

(** [buf.Bytes()] at the point where [log] takes it: the whole rendering,
    before truncation. *)
Definition rendered (l : logger) (ctx : Context) (level : Level) (format : string)
    (args : list any) (now : string) (caller : option Z) : bytes * logger * string :=
  let '(buf, l1, pctx) :=
    if negb (level =? logPrint) then log_prefix l ctx level now caller
    else ([], l, ""%string) in
  (buf ++ Sprintf format args ++ [x0a], l1, pctx).

(** [l.log(ctx, level, format, args...)].  [now] is the formatted time stamp
    ([fakeNow] or the clock), [caller] the program counter answered by
    [runtime.Caller], if any.  Besides the new state and the way the call
    ends, the result lists the calls [l.allLogger.Write(line)] and
    [l.wfLogger.Write(line)] that were made, in order. *)
Definition log (s : Std * logger) (ctx : Context) (level : Level) (format : string)
    (args : list any) (now : string) (caller : option Z)
  : (Std * logger) * list (IoWriter * bytes) * Outcome :=
  let l := snd s in
  if maxLevel l <? level then (s, [], Returns)
  else
    let '(buf, l1, pctx) := rendered l ctx level format args now caller in
    let line := if maxLogLine <? len buf then firstn (Z.to_nat maxLogLine) buf else buf in
    let s1 := (fst s, l1) in
    let '(s2, calls) :=
      if (errorLevel l <? level) || (level =? logPrint) then
        let s2 := io_Write (allLogger l) line s1 in
        let s2 :=
          if isStdoutTerminal (fst s2) then (os_Stdout_Write (fst s2) line, snd s2) else s2 in
        (s2, [(allLogger l, line)])
      else
        let s2 := io_Write (allLogger l) line s1 in
        let '(s2, calls) :=
          if negb (IoWriter_eqb (wfLogger l) (allLogger l)) then
            (io_Write (wfLogger l) line s2, [(allLogger l, line); (wfLogger l, line)])
          else (s2, [(allLogger l, line)]) in
        let s2 :=
          if isStderrTerminal (fst s2) then (os_Stderr_Write (fst s2) line, snd s2) else s2 in
        (s2, calls) in
    if level =? LogFatal then
      match logger_Flush (snd s2) with
      | (l3, Some _) => ((fst s2, l3), calls, Panics pctx)
      | (l3, None) => ((fst s2, l3), calls, Hangs)
      end
    else (s2, calls, Returns).

(** The sink calls in the result of [log]. *)
Definition calls_of (r : (Std * logger) * list (IoWriter * bytes) * Outcome)
  : list (IoWriter * bytes) := snd (fst r).

(** The line [log] hands to the sinks: the rendering, truncated. *)
Definition line_of (l : logger) (ctx : Context) (level : Level) (format : string)
    (args : list any) (now : string) (caller : option Z) : bytes :=
  truncated (fst (fst (rendered l ctx level format args now caller))).

(** *** Notions for the further properties of [log] *)

(** The text [log] writes for one pair of the context. *)
Definition pair_text (i : Info) : bytes :=
  B (Key i) ++ B "=" ++ fmt_v (Value i) ++ logSeparator.

(** The call-site text of a line: the cached text of the program counter, or
    the text [parsePC] makes for it; nothing when [runtime.Caller] fails. *)
Definition callsite (l : logger) (caller : option Z) : bytes :=
  match caller with
  | Some pc =>
      match pcCache l !! pc with
      | Some st => line st
      | None => line (parsePC l pc)
      end
  | None => []
  end.

(** The cache of call sites after a call of [log] that was not gated. *)
Definition cache_after (l : logger) (level : Level) (caller : option Z) : gmap Z stack :=
  if level =? logPrint then pcCache l
  else
    match caller with
    | Some pc =>
        match pcCache l !! pc with
        | Some _ => pcCache l
        | None => <[pc := parsePC l pc]> (pcCache l)
        end
    | None => pcCache l
    end.

(** Whether a record of level [level] is written to the [i]-th async writer
    of the logger: it is the primary sink, or the record is routed to the
    error sink and it is the error sink. *)
Definition targets (l : logger) (level : Level) (i : nat) : bool :=
  IoWriter_eqb (allLogger l) (asyncWriter i)
  || (negb ((errorLevel l <? level) || (level =? logPrint))
      && IoWriter_eqb (wfLogger l) (asyncWriter i)).

(** The async writers of a logger after [line] has been written to the
    targets of a record of level [level]. *)
Definition writers_after (l : logger) (level : Level) (ln : bytes) : list AsyncWriter :=
  imap (fun i w => if targets l level i then fst (AsyncWriter_Write w ln) else w) (writers l).

(** *** log.go: [Init] *)

(** [Init(config)].  The package state is the pair of the terminal streams,
    with the two flags, and the default logger; [outTerm] and [errTerm] are
    what [terminal.IsTerminal] answers for standard output and standard
    error.  The result is the new package state and what becomes of the old
    default logger, with the result of its [Close] ([None] when that call
    never returns, and [Init] with it). *)
Definition Init (outTerm errTerm : bool) (config : option Config) (g : Std * logger)
  : (Std * logger) * (logger * option (option error)) :=
  let std := mkStd (stdout (fst g)) (stderr (fst g)) outTerm errTerm in
  let l := newLogger config in
  let old := snd g in
  ((std, l), logger_Close old).

(** *** Properties of [parseLevel] *)

Lemma caseVariant_lowerByte (c d : ascii) :
  isASCII c = true -> caseVariant c d = true ->
  lowerByte c = lowerByte d /\ isASCII d = true.
Proof.
  unfold caseVariant, isASCII, lowerByte, isUpper. intros Hc H.
  change (nat_of_ascii "A") with 65%nat in *. change (nat_of_ascii "Z") with 90%nat in *.
  change (nat_of_ascii "a") with 97%nat in *.
  apply Nat.ltb_lt in Hc.
  apply orb_true_iff in H as [H | H]; [apply orb_true_iff in H as [H | H] |].
  - apply Ascii.eqb_eq in H. subst d. split; [reflexivity | now apply Nat.ltb_lt].
  - apply andb_true_iff in H as [Hu Hd]. rewrite Hu.
    apply andb_true_iff in Hu as [H1 H2].
    apply Nat.leb_le in H1, H2. apply Nat.eqb_eq in Hd.
    assert (Hnd : ((65 <=? nat_of_ascii d)%nat && (nat_of_ascii d <=? 90)%nat)%bool = false).
    { apply andb_false_iff. right. apply Nat.leb_gt. lia. }
    rewrite Hnd. split; [| apply Nat.ltb_lt; lia].
    rewrite <- (ascii_nat_embedding d), Hd. f_equal.
  - apply andb_true_iff in H as [Hu Hd]. rewrite Hu.
    apply andb_true_iff in Hu as [H1 H2].
    apply Nat.leb_le in H1, H2. apply Nat.eqb_eq in Hd.
    assert (Hnc : ((65 <=? nat_of_ascii c)%nat && (nat_of_ascii c <=? 90)%nat)%bool = false).
    { apply andb_false_iff. right. apply Nat.leb_gt. lia. }
    rewrite Hnc. split; [| apply Nat.ltb_lt; lia].
    rewrite <- (ascii_nat_embedding c), Hd. f_equal.
Qed.

Lemma sameLetters_lowerASCII (s : string) :
  forall t, allASCII s = true -> sameLetters s t = true ->
            lowerASCII s = lowerASCII t /\ allASCII t = true.
Proof.
  induction s as [| c r IH]; intros [| d r'] Hs H; simpl in *; try discriminate.
  - split; reflexivity.
  - apply andb_true_iff in Hs as [Hc Hr]. apply andb_true_iff in H as [Hcd Hrr].
    destruct (caseVariant_lowerByte c d Hc Hcd) as [E1 E2].
    destruct (IH r' Hr Hrr) as [E3 E4].
    rewrite E1, E2, E3, E4. split; reflexivity.
Qed.

Lemma parseLevel_levelByName (u : string) : parseLevel u = levelByName (ToLower u).
Proof.
  unfold parseLevel, levelByName, levelNames, lookupName.
  destruct (String.eqb (ToLower u) "debug"); [reflexivity |].
  destruct (String.eqb (ToLower u) "info"); [reflexivity |].
  destruct (String.eqb (ToLower u) "trace"); [reflexivity |].
  destruct (String.eqb (ToLower u) "warn"); [reflexivity |]. simpl orb.
  destruct (String.eqb (ToLower u) "warning"); [reflexivity |].
  destruct (String.eqb (ToLower u) "error"); [reflexivity |].
  destruct (String.eqb (ToLower u) "fatal"); reflexivity.
Qed.

(** C8. Level parsing ignores letter case: two ASCII strings that differ
    only in the case of their letters parse to the same level.  The level
    is the one the table of recognised names (debug, info, trace, warn,
    warning, error, fatal) gives for the lower-cased input, and [LogDebug]
    for every input whose lower-cased form is not in the table, the empty
    string included. *)
Theorem parseLevel_case_insensitive_default_debug (s t : string) :
  allASCII s = true -> sameLetters s t = true ->
  parseLevel t = parseLevel s
  /\ parseLevel s = levelByName (lowerASCII s)
  /\ (forall u, parseLevel u = levelByName (ToLower u))
  /\ (forall u, lookupName levelNames (ToLower u) = None -> parseLevel u = LogDebug)
  /\ parseLevel "" = LogDebug.
Proof.
  intros Hs Hst.
  destruct (sameLetters_lowerASCII s t Hs Hst) as [E Ht].
  repeat split.
  - rewrite !parseLevel_levelByName. unfold ToLower. rewrite Hs, Ht, E. reflexivity.
  - rewrite parseLevel_levelByName. unfold ToLower. rewrite Hs. reflexivity.
  - apply parseLevel_levelByName.
  - intros u Hu. rewrite parseLevel_levelByName. unfold levelByName. rewrite Hu. reflexivity.
Qed.

(** *** Properties of the context carrier *)

(** C10. [WithMoreInfo] with no pair answers the context it was given.
    With pairs it answers a new layer over that context, under which
    [findMoreInfo] gives the pairs of the original context followed by the
    new ones in argument order; the original context is the parent of the
    new layer, its own pairs and its tag are what they were, and two
    contexts derived from it do not see each other's pairs. *)
Theorem WithMoreInfo_appends_in_order (ctx : Context) (info info' : list Info) (i : Info) :
  WithMoreInfo ctx [] = ctx
  /\ findMoreInfo (WithMoreInfo ctx info) = findMoreInfo ctx ++ info
  /\ WithMoreInfo ctx (i :: info)
     = valueMoreInfo ctx (mkMoreInfo (findMoreInfo ctx ++ i :: info))
  /\ findMoreInfo (WithMoreInfo (WithMoreInfo ctx info) info')
     = findMoreInfo ctx ++ info ++ info'
  /\ tag (WithMoreInfo ctx info) = tag ctx.
Proof.
  assert (H1 : forall c l, findMoreInfo (WithMoreInfo c l) = findMoreInfo c ++ l).
  { intros c l. unfold WithMoreInfo, findMoreInfo. destruct l as [| x l].
    - simpl. rewrite app_nil_r. reflexivity.
    - simpl. destruct (Value_keyLogMoreInfo c); reflexivity. }
  split; [reflexivity |]. split; [apply H1 |]. split; [| split].
  - unfold WithMoreInfo, findMoreInfo. simpl.
    destruct (Value_keyLogMoreInfo ctx); reflexivity.
  - rewrite !H1, app_assoc. reflexivity.
  - unfold WithMoreInfo, tag. destruct info; reflexivity.
Qed.

(** *** Properties of [log] *)

Lemma log_calls (s : Std * logger) ctx level format args now caller :
  calls_of (log s ctx level format args now caller) =
  let l := snd s in
  let ln := line_of l ctx level format args now caller in
  if maxLevel l <? level then []
  else if (errorLevel l <? level) || (level =? logPrint) then [(allLogger l, ln)]
  else if IoWriter_eqb (wfLogger l) (allLogger l) then [(allLogger l, ln)]
  else [(allLogger l, ln); (wfLogger l, ln)].
Proof.
  unfold log, line_of, truncated, calls_of. cbv zeta.
  destruct (maxLevel (snd s) <? level); [reflexivity |].
  destruct (rendered (snd s) ctx level format args now caller) as [[buf l1] pctx].
  cbn [fst snd].
  destruct ((errorLevel (snd s) <? level) || (level =? logPrint)).
  - destruct (level =? LogFatal); [| reflexivity].
    destruct (logger_Flush _) as [l3 [r |]]; reflexivity.
  - destruct (IoWriter_eqb (wfLogger (snd s)) (allLogger (snd s))); cbn [negb];
      (destruct (level =? LogFatal); [| reflexivity]);
      destruct (logger_Flush _) as [l3 [r |]]; reflexivity.
Qed.

Lemma log_gated (s : Std * logger) ctx level format args now caller :
  (maxLevel (snd s) <? level) = true ->
  log s ctx level format args now caller = (s, [], Returns).
Proof. intros H. unfold log. cbv zeta. rewrite H. reflexivity. Qed.

Lemma level_of_le (a b : Severity) : level_of a <= level_of b <-> (rank a <= rank b)%nat.
Proof. destruct a, b; cbv; split; intros H; try lia; try congruence;
  try (exfalso; apply H; reflexivity); try (intros; discriminate). Qed.

Lemma level_of_pos (a : Severity) : 0 < level_of a.
Proof. destruct a; reflexivity. Qed.

Lemma parseLevel_named (u : string) : exists T, parseLevel u = level_of T.
Proof.
  unfold parseLevel.
  destruct (String.eqb (ToLower u) "debug"); [exists SDebug; reflexivity |].
  destruct (String.eqb (ToLower u) "info"); [exists SInfo; reflexivity |].
  destruct (String.eqb (ToLower u) "trace"); [exists STrace; reflexivity |].
  destruct (String.eqb (ToLower u) "warn" || String.eqb (ToLower u) "warning")%bool;
    [exists SWarn; reflexivity |].
  destruct (String.eqb (ToLower u) "error"); [exists SError; reflexivity |].
  destruct (String.eqb (ToLower u) "fatal"); [exists SFatal | exists SDebug]; reflexivity.
Qed.

Lemma newLogger_levels_named (c : Config) :
  (exists T, maxLevel (newLogger (Some c)) = level_of T)
  /\ (exists E, errorLevel (newLogger (Some c)) = level_of E).
Proof.
  unfold newLogger. cbv zeta.
  destruct (negb (String.eqb _ _)); cbn [maxLevel errorLevel];
    split; apply parseLevel_named.
Qed.

(** C1. With the threshold of the logger set to the level of severity [T], a
    record at severity [S] makes [log] call a sink exactly when [T] is at least
    as verbose as [S] in the order Fatal < Error < Warn < Trace < Info < Debug;
    a record that does not pass the gate leaves the state as it was; a Fatal
    record and a Print record pass under every threshold.  The threshold of a
    logger made from a configuration is always the level of one of the six
    severities. *)
Theorem gate_emits_iff_threshold_verbose_enough
    (s : Std * logger) ctx format args now caller (S T : Severity) (c : Config) :
  maxLevel (snd s) = level_of T ->
  (calls_of (log s ctx (level_of S) format args now caller) <> [] <-> (rank S <= rank T)%nat)
  /\ ((rank T < rank S)%nat ->
      log s ctx (level_of S) format args now caller = (s, [], Returns))
  /\ calls_of (log s ctx LogFatal format args now caller) <> []
  /\ calls_of (log s ctx logPrint format args now caller) <> []
  /\ (exists T', maxLevel (newLogger (Some c)) = level_of T').
Proof.
  intros HT.
  assert (Hgate : forall lv, lv <= level_of T ->
            calls_of (log s ctx lv format args now caller) <> []).
  { intros lv Hle. rewrite log_calls. cbv zeta. rewrite HT.
    destruct (Z.ltb_spec (level_of T) lv); [lia |].
    destruct (_ || _); [discriminate |].
    destruct (IoWriter_eqb _ _); discriminate. }
  split; [split |]; [| | split; [| split; [| split]]].
  - intros Hne. apply level_of_le. destruct (Z.le_gt_cases (level_of S) (level_of T)) as [H | H];
      [exact H | exfalso]. apply Hne. rewrite log_gated; [reflexivity |].
    rewrite HT. apply Z.ltb_lt. exact H.
  - intros Hr. apply Hgate, level_of_le, Hr.
  - intros Hr. apply log_gated. rewrite HT. apply Z.ltb_lt.
    destruct (Z.le_gt_cases (level_of S) (level_of T)) as [H | H]; [| exact H].
    apply level_of_le in H. lia.
  - apply Hgate. change LogFatal with (level_of SFatal). apply level_of_le. simpl. lia.
  - apply Hgate. pose proof (level_of_pos T). unfold logPrint. lia.
  - apply newLogger_levels_named.
Qed.

(** The routing of a logger whose error threshold is one of the six levels,
    as every logger made from a configuration has.  For a record that passes
    the gate, with the error threshold of the
    logger set to the level of severity [E]: a record at severity [S] at least
    as severe as [E] is written to the primary sink and to the error sink
    (one call when the two are the same writer); a record at a less severe
    [S], and every Print record, is written to the primary sink only.  When
    the sinks are distinct the error sink is called exactly when [S] is at
    least as severe as [E].  A configuration that names no error level gets
    the threshold Warn. *)
Theorem routes_to_both_iff_severe_enough_and_not_print
    (s : Std * logger) ctx format args now caller (S E : Severity) (c : Config) :
  errorLevel (snd s) = level_of E ->
  (maxLevel (snd s) <? level_of S) = false ->
  (maxLevel (snd s) <? logPrint) = false ->
  let l := snd s in
  let ln := line_of l ctx (level_of S) format args now caller in
  let calls := calls_of (log s ctx (level_of S) format args now caller) in
  ((rank S <= rank E)%nat ->
     calls = (allLogger l, ln) ::
             (if IoWriter_eqb (wfLogger l) (allLogger l) then [] else [(wfLogger l, ln)])
     /\ In (allLogger l, ln) calls /\ In (wfLogger l, ln) calls)
  /\ ((rank E < rank S)%nat -> calls = [(allLogger l, ln)])
  /\ (IoWriter_eqb (wfLogger l) (allLogger l) = false ->
      (In (wfLogger l, ln) calls <-> (rank S <= rank E)%nat))
  /\ calls_of (log s ctx logPrint format args now caller)
     = [(allLogger l, line_of l ctx logPrint format args now caller)]
  /\ (ErrorLogLevel c = ""%string -> errorLevel (newLogger (Some c)) = LogWarn).
Proof.
  intros HE HS HP l ln calls. subst l.
  assert (Hboth : (rank S <= rank E)%nat ->
            calls = (allLogger (snd s), ln) ::
              (if IoWriter_eqb (wfLogger (snd s)) (allLogger (snd s)) then [] else [(wfLogger (snd s), ln)])).
  { intros Hr. unfold calls. rewrite log_calls. cbv zeta. rewrite HS. rewrite HE.
    apply level_of_le in Hr.
    destruct (Z.ltb_spec (level_of E) (level_of S)); [lia |].
    pose proof (level_of_pos S) as Hpos.
    destruct (Z.eqb_spec (level_of S) logPrint) as [H0 | _];
      [unfold logPrint in H0; lia |].
    cbn [orb]. fold ln. destruct (IoWriter_eqb _ _); reflexivity. }
  assert (Hone : (rank E < rank S)%nat -> calls = [(allLogger (snd s), ln)]).
  { intros Hr. unfold calls. rewrite log_calls. cbv zeta. rewrite HS. rewrite HE.
    destruct (Z.ltb_spec (level_of E) (level_of S)) as [_ | H]; [reflexivity |].
    apply level_of_le in H. lia. }
  assert (Heq : forall a b, IoWriter_eqb a b = true -> a = b).
  { intros [| | i] [| | j] H; simpl in H; try discriminate; try reflexivity.
    apply Nat.eqb_eq in H. subst. reflexivity. }
  split; [| split; [| split; [| split]]].
  - intros Hr. rewrite (Hboth Hr). split; [reflexivity |]. split; [left; reflexivity |].
    destruct (IoWriter_eqb (wfLogger (snd s)) (allLogger (snd s))) eqn:Ew.
    + left. rewrite (Heq _ _ Ew). reflexivity.
    + right. left. reflexivity.
  - exact Hone.
  - intros Hne. split.
    + intros Hin. destruct (Nat.le_gt_cases (rank S) (rank E)) as [H | H]; [exact H |].
      rewrite (Hone H) in Hin. destruct Hin as [Hin | []].
      inversion Hin as [Hw]. rewrite <- Hw in Hne.
      assert (Hrefl : forall a, IoWriter_eqb a a = true).
      { intros [| | i]; simpl; try reflexivity. apply Nat.eqb_refl. }
      rewrite Hrefl in Hne. discriminate.
    + intros Hr. rewrite (Hboth Hr), Hne. right. left. reflexivity.
  - rewrite log_calls. cbv zeta. rewrite HP.
    rewrite (proj2 (Z.eqb_eq logPrint logPrint) eq_refl), orb_true_r. reflexivity.
  - intros Hc. unfold newLogger. rewrite Hc. simpl String.eqb. cbv iota.
    destruct (negb (String.eqb _ _)); reflexivity.
Qed.

Lemma truncated_long (buf : bytes) :
  maxLogLine < len buf ->
  truncated buf = firstn (Z.to_nat maxLogLine) buf /\ len (truncated buf) = maxLogLine.
Proof.
  intros H. unfold truncated. destruct (Z.ltb_spec maxLogLine (len buf)); [| lia].
  split; [reflexivity |]. unfold len in *. rewrite length_take.
  unfold maxLogLine in *. lia.
Qed.

Lemma truncated_short (buf : bytes) : len buf <= maxLogLine -> truncated buf = buf.
Proof.
  intros H. unfold truncated. destruct (Z.ltb_spec maxLogLine (len buf)); [lia | reflexivity].
Qed.

Lemma log_calls_line (s : Std * logger) ctx level format args now caller target ln :
  In (target, ln) (calls_of (log s ctx level format args now caller)) ->
  ln = line_of (snd s) ctx level format args now caller.
Proof.
  rewrite log_calls. cbv zeta.
  destruct (_ <? _); [intros [] |].
  destruct (_ || _); [intros [H | []]; congruence |].
  destruct (IoWriter_eqb _ _); [intros [H | []]; congruence |].
  intros [H | [H | []]]; congruence.
Qed.

(** C5. Every line [log] passes to a sink is the rendering of the record cut
    to its first 4096 bytes when the rendering is longer than that (so a
    rendering of 5000 bytes is passed as exactly its first 4096 bytes), and
    the rendering itself when it has 4096 bytes or fewer. *)
Theorem line_truncated_to_maxLogLine
    (s : Std * logger) ctx level format args now caller target ln :
  In (target, ln) (calls_of (log s ctx level format args now caller)) ->
  let buf := fst (fst (rendered (snd s) ctx level format args now caller)) in
  (4096 < len buf -> ln = firstn (Z.to_nat 4096) buf /\ len ln = 4096)
  /\ (len buf <= 4096 -> ln = buf)
  /\ (len buf = 5000 -> ln = firstn (Z.to_nat 4096) buf /\ len ln = 4096).
Proof.
  intros Hin buf. apply log_calls_line in Hin. unfold line_of in Hin. fold buf in Hin.
  subst ln. split; [| split].
  - intros H. apply truncated_long. exact H.
  - intros H. apply truncated_short. exact H.
  - intros H. apply truncated_long. unfold maxLogLine. lia.
Qed.

Lemma rendered_logger (l : logger) ctx level format args now caller :
  exists cache, snd (fst (rendered l ctx level format args now caller)) = set_pcCache cache l.
Proof.
  unfold rendered. destruct (negb (level =? logPrint)).
  - unfold log_prefix. destruct caller as [pc |].
    + destruct (pcCache l !! pc) as [st |].
      * exists (pcCache l). destruct l; reflexivity.
      * eexists. reflexivity.
    + exists (pcCache l). destruct l; reflexivity.
  - exists (pcCache l). destruct l; reflexivity.
Qed.

Lemma rendered_nonempty (l : logger) ctx level format args now caller :
  0 < len (fst (fst (rendered l ctx level format args now caller))).
Proof.
  unfold rendered.
  destruct (if negb (level =? logPrint) then log_prefix l ctx level now caller
            else ([], l, ""%string)) as [[buf l1] pctx].
  cbn [fst]. unfold len. rewrite !length_app. simpl length. lia.
Qed.

Lemma line_of_nonempty (l : logger) ctx level format args now caller :
  0 < len (line_of l ctx level format args now caller).
Proof.
  unfold line_of. pose proof (rendered_nonempty l ctx level format args now caller) as H.
  destruct (Z.lt_ge_cases maxLogLine (len (fst (fst (rendered l ctx level format args now caller))))) as [Hl | Hl].
  - rewrite (proj2 (truncated_long _ Hl)). reflexivity.
  - rewrite truncated_short; [exact H | lia].
Qed.

Lemma newLogger_same_path (c : Config) :
  primaryPath c = errorPath c ->
  exists lv ev pp,
    newLogger (Some c) =
    mkLogger lv ev pp (asyncWriter 0) (asyncWriter 0) [0%nat]
      [NewAsyncWriter (mkSink (primaryPath c) maxLogFileSize [] 0 (closeErrOf (primaryPath c)))
         (if BufferedLines c <=? 0 then DefaultBufferedLines else BufferedLines c)] ∅.
Proof.
  intros H. unfold newLogger. fold (primaryPath c). fold (errorPath c). rewrite <- H.
  rewrite String.eqb_refl. cbn [negb app]. eexists _, _, _. reflexivity.
Qed.

Lemma Write_fresh (sink : Sink) (size : Z) (data : bytes) :
  0 < size -> 0 < len data ->
  AsyncWriter_Write (NewAsyncWriter sink size) data
  = (set_ch [data] (NewAsyncWriter sink size), (len data, None)).
Proof.
  intros Hs Hd. unfold AsyncWriter_Write, isClosed, ch_has_room, NewAsyncWriter. cbn.
  destruct (Z.eqb_spec (len data) 0); [lia |].
  change (Z.of_nat 0) with 0.
  destruct (Z.ltb_spec 0 size); [reflexivity | lia].
Qed.

Lemma drive_unfold (fuel : nat) (w : AsyncWriter) (c : Call) :
  drive (S fuel) (w, c) =
  match c with
  | Ret _ _ => (w, c)
  | _ =>
      match call_step w c with
      | s' :: _ => drive fuel s'
      | [] =>
          match flush_step w with
          | w' :: _ => drive fuel (w', c)
          | [] => (w, c)
          end
      end
  end.
Proof. reflexivity. Qed.

Lemma Flush_fresh_one (sink : Sink) (size : Z) (data : bytes) :
  0 < size -> 0 < len data ->
  AsyncWriter_Flush (set_ch [data] (NewAsyncWriter sink size))
  = (set_writer (sink_Write sink data) (NewAsyncWriter sink size), Some None).
Proof.
  intros Hs Hd.
  assert (E0 : (len data =? 0) = false) by (apply Z.eqb_neq; lia).
  assert (E1 : (0 <? size) = true) by (apply Z.ltb_lt; lia).
  assert (E3 : (len [] =? 0) = true) by reflexivity.
  unfold AsyncWriter_Flush, call_fuel, NewAsyncWriter, set_ch. cbn [ch length Nat.mul Nat.add].
  destruct (1 <? size) eqn:E2;
    repeat (rewrite drive_unfold; cbn [call_step flush_step fst snd goroutine set_goroutine
                 set_ch set_writer set_flushed];
            unfold isClosed, ch_has_room;
            cbn [call_step flush_step fst snd closed ch ch_cap
                 done flushed closing goroutine writer negb app length set_ch set_goroutine
                 set_writer set_flushed];
            change (Z.of_nat 1) with 1; change (Z.of_nat 0) with 0;
            change (0 =? 0) with true;
            rewrite ?E0, ?E1, ?E2, ?E3; cbn [negb app]);
    reflexivity.
Qed.

Lemma logger_Flush_one (l : logger) (sink : Sink) (size : Z) (data : bytes) :
  writers l = [set_ch [data] (NewAsyncWriter sink size)] ->
  0 < size -> 0 < len data ->
  logger_Flush l
  = (set_writers [set_writer (sink_Write sink data) (NewAsyncWriter sink size)] l, Some None).
Proof.
  intros Hw Hs Hd. unfold logger_Flush. rewrite Hw. cbn [each_writer].
  rewrite Flush_fresh_one; [reflexivity | exact Hs | exact Hd].
Qed.

(** C9. When the path of the primary sink and the path of the error sink are
    the same, [newLogger] makes one async writer and both [allLogger] and
    [wfLogger] point to it.  A record that passes the gate and is routed to
    both sinks is handed to that writer by a single [Write] call: its queue
    holds the line once (and after the flush that follows a Fatal record the
    log file has received the line once). *)
Theorem same_path_one_writer_written_once
    (c : Config) (std : Std) ctx level format args now caller :
  primaryPath c = errorPath c ->
  let l := newLogger (Some c) in
  (maxLevel l <? level) = false ->
  ((errorLevel l <? level) || (level =? logPrint)) = false ->
  let ln := line_of l ctx level format args now caller in
  let w := NewAsyncWriter
             (mkSink (primaryPath c) maxLogFileSize [] 0 (closeErrOf (primaryPath c)))
             (if BufferedLines c <=? 0 then DefaultBufferedLines else BufferedLines c) in
  writers l = [w] /\ files l = [0%nat]
  /\ allLogger l = asyncWriter 0 /\ wfLogger l = asyncWriter 0
  /\ calls_of (log (std, l) ctx level format args now caller) = [(asyncWriter 0, ln)]
  /\ (level <> LogFatal ->
      writers (snd (fst (fst (log (std, l) ctx level format args now caller))))
      = [set_ch [ln] w])
  /\ (level = LogFatal ->
      writers (snd (fst (fst (log (std, l) ctx level format args now caller))))
      = [set_writer (sink_Write (writer w) ln) w]).
Proof.
  intros Hp l Hgate Hroute ln w.
  destruct (newLogger_same_path c Hp) as (lv & ev & pp & El).
  fold w in El. fold l in El.
  assert (Hw : writers l = [w]) by (rewrite El; reflexivity).
  assert (Ha : allLogger l = asyncWriter 0) by (rewrite El; reflexivity).
  assert (Hf : wfLogger l = asyncWriter 0) by (rewrite El; reflexivity).
  split; [exact Hw |]. split; [rewrite El; reflexivity |].
  split; [exact Ha |]. split; [exact Hf |].
  assert (Hsize : 0 < (if BufferedLines c <=? 0 then DefaultBufferedLines else BufferedLines c)).
  { destruct (BufferedLines c <=? 0) eqn:Eb; [reflexivity | apply Z.leb_gt in Eb; exact Eb]. }
  split; [| split].
  - rewrite log_calls. cbv zeta. cbn [snd]. rewrite Hgate, Hroute, Ha, Hf. reflexivity.
  - intros Hnf. unfold log. cbv zeta. cbn [snd fst]. rewrite Hgate, Hroute.
    unfold ln, line_of, truncated.
    destruct (rendered_logger l ctx level format args now caller) as [cache Hc].
    destruct (rendered l ctx level format args now caller) as [[buf l1] pctx] eqn:Er.
    cbn [fst snd] in *. subst l1.
    rewrite Ha, Hf. cbn [IoWriter_eqb Nat.eqb negb].
    destruct (Z.eqb_spec level LogFatal) as [E | _]; [contradiction |].
    set (line := if maxLogLine <? len buf then firstn (Z.to_nat maxLogLine) buf else buf).
    assert (Hl : 0 < len line).
    { pose proof (line_of_nonempty l ctx level format args now caller) as H.
      unfold line_of, truncated in H. rewrite Er in H. exact H. }
    unfold io_Write. cbn [snd fst set_pcCache writers]. rewrite Hw. cbn [lookup list_lookup].
    assert (Hwr : AsyncWriter_Write w line = (set_ch [line] w, (len line, None))).
    { unfold w. apply Write_fresh; [exact Hsize | exact Hl]. }
    rewrite Hwr. cbn [fst snd].
    destruct (isStderrTerminal std); reflexivity.
  - intros Hfat. unfold log. cbv zeta. cbn [snd fst]. rewrite Hgate, Hroute.
    unfold ln, line_of, truncated.
    destruct (rendered_logger l ctx level format args now caller) as [cache Hc].
    destruct (rendered l ctx level format args now caller) as [[buf l1] pctx] eqn:Er.
    cbn [fst snd] in *. subst l1.
    rewrite Ha, Hf. cbn [IoWriter_eqb Nat.eqb negb].
    destruct (Z.eqb_spec level LogFatal) as [_ | E]; [| contradiction].
    set (line := if maxLogLine <? len buf then firstn (Z.to_nat maxLogLine) buf else buf).
    assert (Hl : 0 < len line).
    { pose proof (line_of_nonempty l ctx level format args now caller) as H.
      unfold line_of, truncated in H. rewrite Er in H. exact H. }
    unfold io_Write. cbn [snd fst set_pcCache writers]. rewrite Hw. cbn [lookup list_lookup].
    assert (Hwr : AsyncWriter_Write w line = (set_ch [line] w, (len line, None))).
    { unfold w. apply Write_fresh; [exact Hsize | exact Hl]. }
    rewrite Hwr. cbn [fst snd].
    destruct (isStderrTerminal std); cbn [fst snd];
      (erewrite logger_Flush_one; [reflexivity | reflexivity | exact Hsize | exact Hl]).
Qed.

(** *** Properties of the async writer *)

Lemma Write_is_its_two_steps (w : AsyncWriter) (data : bytes) :
  drive 2 (w, WriteEntry data)
  = (fst (AsyncWriter_Write w data),
     Ret (fst (snd (AsyncWriter_Write w data))) (snd (snd (AsyncWriter_Write w data)))).
Proof.
  unfold AsyncWriter_Write. cbn [drive snd fst call_step].
  destruct (len data =? 0); [reflexivity |].
  destruct (isClosed w); [reflexivity |]. cbn [drive snd fst call_step].
  destruct (ch_has_room w); reflexivity.
Qed.

(** C4. [Write] with empty data returns success with zero bytes and leaves
    the writer as it was.  With data, it returns the "closed" error on a closed
    writer; on an open writer whose queue is full it returns the "full" error
    and the writer is unchanged (the data is dropped); otherwise the data is
    put at the end of the queue and its length is returned.  The call never
    blocks: at each of its two program points it has exactly one step,
    whatever the state of the writer, and the second one returns. *)
Theorem Write_cases_and_never_blocks (w : AsyncWriter) (data : bytes) :
  (len data = 0 -> AsyncWriter_Write w data = (w, (0, None)))
  /\ (len data <> 0 -> isClosed w = true ->
      AsyncWriter_Write w data = (w, (0, Some errAsyncWriterClosed)))
  /\ (len data <> 0 -> isClosed w = false -> ch_cap w <= Z.of_nat (length (ch w)) ->
      AsyncWriter_Write w data = (w, (0, Some errAsyncWriterFull)))
  /\ (len data <> 0 -> isClosed w = false -> Z.of_nat (length (ch w)) < ch_cap w ->
      AsyncWriter_Write w data = (set_ch (ch w ++ [data]) w, (len data, None)))
  /\ (forall w', exists r, call_step w' (WriteEntry data) = [r])
  /\ (forall w', exists w'' n e, call_step w' (WriteSend data) = [(w'', Ret n e)])
  /\ drive 2 (w, WriteEntry data)
     = (fst (AsyncWriter_Write w data),
        Ret (fst (snd (AsyncWriter_Write w data))) (snd (snd (AsyncWriter_Write w data)))).
Proof.
  unfold AsyncWriter_Write, ch_has_room.
  split; [| split; [| split; [| split; [| split; [| split]]]]].
  - intros H. rewrite H. reflexivity.
  - intros H Hc. apply Z.eqb_neq in H. rewrite H, Hc. reflexivity.
  - intros H Hc Hfull. apply Z.eqb_neq in H. rewrite H, Hc.
    destruct (Z.ltb_spec (Z.of_nat (length (ch w))) (ch_cap w)); [lia | reflexivity].
  - intros H Hc Hroom. apply Z.eqb_neq in H. rewrite H, Hc.
    destruct (Z.ltb_spec (Z.of_nat (length (ch w))) (ch_cap w)); [reflexivity | lia].
  - intros w'. cbn [call_step]. destruct (len data =? 0); [eexists; reflexivity |].
    destruct (isClosed w'); eexists; reflexivity.
  - intros w'. cbn [call_step]. destruct (ch_has_room w'); eexists _, _, _; reflexivity.
  - apply Write_is_its_two_steps.
Qed.

Lemma sys_succs_cases (s s' : Sys) :
  In s' (sys_succs s) ->
  (exists w', In w' (flush_step (sw s)) /\ s' = mkSys w' (threads s) (accepted s))
  \/ (exists i c w' c',
        threads s !! i = Some c /\ In (w', c') (call_step (sw s) c)
        /\ s' = mkSys w' (<[i := c']> (threads s)) (accepted s ++ accepted_by c c')).
Proof.
  unfold sys_succs. intros H. apply in_app_or in H as [H | H].
  - left. apply in_map_iff in H as (w' & E & Hin). exists w'. split; [exact Hin | congruence].
  - right. apply in_concat in H as (ys & Hys & Hin).
    apply list_elem_of_In, elem_of_lookup_imap in Hys as (i & c & -> & Hi).
    unfold thread_succs in Hin. apply in_map_iff in Hin as ([w' c'] & E & Hin).
    exists i, c, w', c'. cbn [fst snd] in E. split; [exact Hi |]. split; [exact Hin | congruence].
Qed.




Lemma sentinels_cons (d : bytes) (q : list bytes) :
  sentinels (d :: q) = ((if (len d =? 0)%Z then 1 else 0) + sentinels q)%nat.
Proof. unfold sentinels, is_line. cbn [List.filter]. destruct (len d =? 0); reflexivity. Qed.

Lemma lines_cons (d : bytes) (q : list bytes) :
  lines (d :: q) = if len d =? 0 then lines q else d :: lines q.
Proof. unfold lines, is_line. cbn [List.filter]. destruct (len d =? 0); reflexivity. Qed.

Lemma cweight_sum_insert (ts : list Call) (i : nat) (c c' : Call) :
  ts !! i = Some c -> (cweight c' < cweight c)%nat ->
  (list_sum (map cweight (<[i := c']> ts)) < list_sum (map cweight ts))%nat.
Proof.
  revert i. induction ts as [| t ts IH]; intros [| i] H Hlt; try discriminate.
  - injection H as ->. change (<[0%nat := c']> (c :: ts)) with (c' :: ts).
    cbn [map list_sum fold_right]. apply Nat.add_lt_mono_r. exact Hlt.
  - change (ts !! i = Some c) in H. specialize (IH i H Hlt).
    change (<[S i := c']> (t :: ts)) with (t :: <[i := c']> ts).
    cbn [map list_sum fold_right]. apply Nat.add_lt_mono_l. exact IH.
Qed.

Lemma forallb_insert (P : Call -> bool) (ts : list Call) (i : nat) (c' : Call) :
  forallb P ts = true -> P c' = true -> forallb P (<[i := c']> ts) = true.
Proof.
  revert i. induction ts as [| t ts IH]; intros [| i] H Hc; try reflexivity;
    cbn [forallb] in H; apply andb_true_iff in H as [Ht H].
  - change (<[0%nat := c']> (t :: ts)) with (c' :: ts). cbn [forallb].
    rewrite Hc, H. reflexivity.
  - change (<[S i := c']> (t :: ts)) with (t :: <[i := c']> ts). cbn [forallb].
    rewrite Ht, (IH i H Hc). reflexivity.
Qed.

Lemma forallb_lookup (P : Call -> bool) (ts : list Call) (i : nat) (c : Call) :
  forallb P ts = true -> ts !! i = Some c -> P c = true.
Proof.
  revert i. induction ts as [| t ts IH]; intros [| i] H Hi; try discriminate;
    cbn [forallb] in H; apply andb_true_iff in H as [Ht H].
  - injection Hi as <-. exact Ht.
  - change (ts !! i = Some c) in Hi. exact (IH i H Hi).
Qed.

Lemma forallb_weaken (P Q : Call -> bool) (ts : list Call) :
  (forall c, P c = true -> Q c = true) -> forallb P ts = true -> forallb Q ts = true.
Proof.
  intros HPQ. induction ts as [| t ts IH]; cbn; [reflexivity |].
  intros H. apply andb_true_iff in H as [Ht H]. rewrite (HPQ t Ht), (IH H). reflexivity.
Qed.

Lemma is_close_pc_closer (c : Call) : is_close_pc c = true -> closer_pc c = true.
Proof. destruct c; cbn; congruence. Qed.

Lemma close_inv_goroutine (W : list bytes) (C0 n : nat) (w w' : AsyncWriter) ts acc :
  close_inv W C0 n (mkSys w ts acc) -> In w' (flush_step w) ->
  close_inv W C0 n (mkSys w' ts acc)
  /\ (close_measure (mkSys w' ts acc) < close_measure (mkSys w ts acc))%nat.
Proof.
  destruct w as [q cap cl fl dn sk cz g].
  intros (Hn & HW & Hg) Hin. unfold close_inv, close_measure, tokens in *.
  cbn [sw threads accepted ch closing flushed done writer closed goroutine] in *.
  unfold flush_step in Hin.
  cbn [ch closing flushed done writer closed goroutine] in Hin.
  destruct g.
  - destruct Hg as (Hc & Hd & Hcl & Htok & Hts & Hnw).
    apply in_app_or in Hin as [Hin | Hin].
    + destruct q as [| d rest]; [destruct Hin |].
      rewrite sentinels_cons in Htok. rewrite lines_cons in HW.
      destruct (len d =? 0) eqn:El; destruct Hin as [<- | []];
        cbn [set_goroutine set_ch set_writer sw threads ch closing flushed done writer
             closed goroutine sink_Write written closes gweight length].
      * split; [| lia]. split; [exact Hn |]. split; [exact HW |].
        repeat split; try assumption; try (destruct fl; lia).
      * split; [| lia]. split; [exact Hn |].
        split; [rewrite <- app_assoc; exact HW |].
        repeat split; try assumption; try (destruct fl; lia).
    + destruct cl; [| destruct Hin]. destruct Hin as [<- | []].
      cbn [set_goroutine set_closing sw threads ch closing flushed done writer
           closed goroutine gweight].
      split; [| lia]. split; [exact Hn |]. repeat split; assumption.
  - destruct Hg as (Hc & Hd & Hcl & Htok & Hts & Hnw).
    destruct fl; [destruct Hin |]. destruct Hin as [<- | []].
    cbn [set_goroutine set_flushed sw threads ch closing flushed done writer
         closed goroutine gweight].
    split; [| lia]. split; [exact Hn |]. repeat split; try assumption; try lia.
  - destruct Hg as (Hc & Hd & Hcl & Hts). destruct Hin as [<- | []].
    cbn [set_goroutine set_closed sw threads ch closing flushed done writer
         closed goroutine gweight].
    split; [| lia]. split; [exact Hn |]. repeat split; try assumption.
    apply (forallb_weaken is_close_pc); [exact is_close_pc_closer | exact Hts].
  - destruct Hg as (Hc & Hd & Hcl & Hts).
    destruct q as [| d rest].
    + destruct Hin as [<- | []].
      cbn [set_goroutine set_done set_writer sw threads ch closing flushed done writer
           closed goroutine gweight sink_Close fst written closes].
      split; [| cbn; lia]. split; [exact Hn |]. split; [exact HW |].
      repeat split; try assumption; try reflexivity. rewrite Hcl. reflexivity.
    + rewrite lines_cons in HW.
      destruct (len d =? 0) eqn:El; destruct Hin as [<- | []];
        cbn [set_goroutine set_ch set_writer sw threads ch closing flushed done writer
             closed goroutine sink_Write written closes gweight length].
      * split; [| lia]. split; [exact Hn |]. repeat split; assumption.
      * split; [| lia]. split; [exact Hn |].
        split; [rewrite <- app_assoc; exact HW |]. repeat split; assumption.
  - destruct Hin.
Qed.

Lemma close_step_cases (w w' : AsyncWriter) (c c' : Call) :
  closer_pc c = true -> In (w', c') (call_step w c) ->
  (c = CloseEntry /\ c' = CloseSignal /\ closed w = 0 /\ w' = w)
  \/ (c = CloseSignal /\ c' = CloseWait /\ closing w = false /\ w' = set_closing true w)
  \/ (is_close_pc c = true /\ c' = Ret 0 None /\ (done w = true \/ closed w <> 0) /\ w' = w).
Proof.
  intros Hc Hin. destruct c; try discriminate; cbn [call_step] in Hin; unfold isClosed in Hin.
  - destruct (Z.eqb_spec (closed w) 0) as [Hz | Hz]; cbn [negb] in Hin;
      destruct Hin as [[= <- <-] | []]; auto 10.
  - apply in_app_or in Hin as [Hin | Hin].
    + destruct (closing w) eqn:Ecl; [destruct Hin |]. destruct Hin as [[= <- <-] | []]. auto 10.
    + destruct (done w) eqn:Ed; [| destruct Hin]. destruct Hin as [[= <- <-] | []]. auto 10.
  - destruct (done w) eqn:Ed; [| destruct Hin]. destruct Hin as [[= <- <-] | []]. auto 10.
  - destruct Hin.
Qed.

Lemma close_inv_caller (W : list bytes) (C0 n : nat) (w w' : AsyncWriter)
    ts acc (i : nat) (c c' : Call) :
  close_inv W C0 n (mkSys w ts acc) -> ts !! i = Some c -> In (w', c') (call_step w c) ->
  close_inv W C0 n (mkSys w' (<[i := c']> ts) (acc ++ accepted_by c c'))
  /\ (close_measure (mkSys w' (<[i := c']> ts) (acc ++ accepted_by c c'))
      < close_measure (mkSys w ts acc))%nat.
Proof.
  intros (Hn & HW & Hg) Hi Hin. unfold close_inv, close_measure, tokens in *.
  cbn [sw threads accepted] in *.
  assert (Hc : closer_pc c = true).
  { destruct (goroutine w).
    - destruct Hg as (_ & _ & _ & _ & H & _).
      apply is_close_pc_closer. exact (forallb_lookup _ _ _ _ H Hi).
    - destruct Hg as (_ & _ & _ & _ & H & _).
      apply is_close_pc_closer. exact (forallb_lookup _ _ _ _ H Hi).
    - destruct Hg as (_ & _ & _ & H).
      apply is_close_pc_closer. exact (forallb_lookup _ _ _ _ H Hi).
    - destruct Hg as (_ & _ & _ & H). exact (forallb_lookup _ _ _ _ H Hi).
    - destruct Hg as (_ & _ & _ & _ & H). exact (forallb_lookup _ _ _ _ H Hi). }
  assert (Hlen : length (<[i := c']> ts) = n) by (rewrite length_insert; exact Hn).
  destruct (close_step_cases w w' c c' Hc Hin)
    as [(-> & -> & Hz & ->) | [(-> & -> & Hcl & ->) | (Hcc & -> & Hdz & ->)]].
  - assert (Hm := cweight_sum_insert ts i CloseEntry CloseSignal Hi (Nat.lt_succ_diag_r 2)).
    split; [| lia]. split; [exact Hlen |]. split; [exact HW |].
    destruct (goroutine w).
    + destruct Hg as (H1 & H2 & H3 & H4 & H5 & H6). repeat split; try assumption.
      * apply forallb_insert; [exact H5 | reflexivity].
      * intros Hf. apply forallb_insert; [exact (H6 Hf) | reflexivity].
    + destruct Hg as (H1 & H2 & H3 & H4 & H5 & H6). repeat split; try assumption.
      * apply forallb_insert; [exact H5 | reflexivity].
      * intros Hf. apply forallb_insert; [exact (H6 Hf) | reflexivity].
    + destruct Hg as (H1 & H2 & H3 & H5). repeat split; try assumption.
      apply forallb_insert; [exact H5 | reflexivity].
    + destruct Hg as (H1 & H2 & H3 & H5). repeat split; try assumption.
      apply forallb_insert; [exact H5 | reflexivity].
    + destruct Hg as (H1 & H2 & H3 & H4 & H5). repeat split; try assumption.
      apply forallb_insert; [exact H5 | reflexivity].
  - assert (Hm := cweight_sum_insert ts i CloseSignal CloseWait Hi (Nat.lt_succ_diag_r 1)).
    destruct w as [q cap cl fl dn sk cz g].
    cbn [set_closing ch closing flushed done writer closed goroutine] in *.
    split; [| lia]. split; [exact Hlen |]. split; [exact HW |].
    destruct g.
    + destruct Hg as (H1 & H2 & H3 & H4 & H5 & H6). repeat split; try assumption.
      * apply forallb_insert; [exact H5 | reflexivity].
      * intros [=].
    + destruct Hg as (H1 & H2 & H3 & H4 & H5 & H6). repeat split; try assumption.
      * apply forallb_insert; [exact H5 | reflexivity].
      * intros [=].
    + destruct Hg as (H1 & H2 & H3 & H5). repeat split; try assumption.
      apply forallb_insert; [exact H5 | reflexivity].
    + destruct Hg as (H1 & H2 & H3 & H5). repeat split; try assumption.
      apply forallb_insert; [exact H5 | reflexivity].
    + destruct Hg as (H1 & H2 & H3 & H4 & H5). repeat split; try assumption.
      apply forallb_insert; [exact H5 | reflexivity].
  - assert (Hlt : (cweight (Ret 0 None) < cweight c)%nat).
    { destruct c; try discriminate; cbn; lia. }
    assert (Hm := cweight_sum_insert ts i c (Ret 0 None) Hi Hlt).
    split; [| lia]. split; [exact Hlen |]. split; [exact HW |].
    destruct (goroutine w).
    + destruct Hg as (H1 & H2 & H3 & H4 & H5 & H6). exfalso.
      destruct Hdz as [Hd | Hz]; congruence.
    + destruct Hg as (H1 & H2 & H3 & H4 & H5 & H6). exfalso.
      destruct Hdz as [Hd | Hz]; congruence.
    + destruct Hg as (H1 & H2 & H3 & H5). exfalso.
      destruct Hdz as [Hd | Hz]; congruence.
    + destruct Hg as (H1 & H2 & H3 & H5). repeat split; try assumption.
      apply forallb_insert; [exact H5 | reflexivity].
    + destruct Hg as (H1 & H2 & H3 & H4 & H5). repeat split; try assumption.
      apply forallb_insert; [exact H5 | reflexivity].
Qed.

Lemma sys_succs_nil (s : Sys) :
  sys_succs s = [] ->
  flush_step (sw s) = []
  /\ forall i c, threads s !! i = Some c -> call_step (sw s) c = [].
Proof.
  unfold sys_succs. intros H. apply app_eq_nil in H as [H1 H2].
  apply map_eq_nil in H1. split; [exact H1 |].
  intros i c Hi. destruct (call_step (sw s) c) as [| r rest] eqn:Es; [reflexivity | exfalso].
  assert (Hin : In (mkSys (fst r) (<[i := snd r]> (threads s))
                          (accepted s ++ accepted_by c (snd r)))
                   (concat (imap (thread_succs s) (threads s)))).
  { apply in_concat. exists (thread_succs s i c). split.
    - apply list_elem_of_In. apply elem_of_lookup_imap. exists i, c. split; [reflexivity | exact Hi].
    - unfold thread_succs. rewrite Es. left. reflexivity. }
  rewrite H2 in Hin. destruct Hin.
Qed.

Lemma all_equal_repeat (x : Call) (ts : list Call) :
  (forall i c, ts !! i = Some c -> c = x) -> ts = repeat x (length ts).
Proof.
  induction ts as [| t ts IH]; intros H; [reflexivity |].
  cbn [length repeat]. rewrite (H 0%nat t eq_refl). f_equal.
  apply IH. intros i c Hi. exact (H (S i) c Hi).
Qed.

Lemma close_inv_stuck (W : list bytes) (C0 n : nat) (s : Sys) :
  close_inv W C0 n s -> (0 < n)%nat -> sys_succs s = [] -> closed_and_returned W C0 n s.
Proof.
  destruct s as [[q cap cl fl dn sk cz g] ts acc].
  intros (Hn & HW & Hg) Hpos Hnil. unfold close_inv, tokens in *.
  apply sys_succs_nil in Hnil as [Hf Ht].
  cbn [sw threads accepted ch closing flushed done writer closed goroutine] in *.
  unfold flush_step in Hf. cbn [ch closing flushed done writer closed goroutine] in Hf.
  destruct ts as [| c0 rest]; [cbn in Hn; lia |].
  pose proof (Ht 0%nat c0 eq_refl) as Hc0.
  destruct g.
  - exfalso. destruct Hg as (Hz & Hd & Hcl & Htok & Hts & Hnw). subst cz dn.
    cbn [forallb] in Hts. apply andb_true_iff in Hts as [Hc _].
    destruct cl.
    + apply app_eq_nil in Hf as [_ Hf]. discriminate.
    + specialize (Hnw eq_refl). cbn [forallb] in Hnw. apply andb_true_iff in Hnw as [Hw _].
      destruct c0; try discriminate; cbn in Hc0; discriminate.
  - exfalso. destruct Hg as (Hz & Hd & Hcl & Htok & Hts & Hnw).
    destruct fl; [cbn in Htok; lia | discriminate].
  - discriminate.
  - exfalso. destruct q as [| d rest']; [discriminate |]. destruct (len d =? 0); discriminate.
  - destruct Hg as (Hz & Hd & Hcl & Hq & Hts). subst cz dn q.
    unfold closed_and_returned, isClosed.
    cbn [sw threads accepted ch closing flushed done writer closed goroutine].
    cbn in HW. rewrite app_nil_r in HW.
    split; [| repeat split; try reflexivity; assumption].
    rewrite <- Hn. apply all_equal_repeat. intros i c Hi.
    pose proof (forallb_lookup _ _ _ _ Hts Hi) as Hc. specialize (Ht i c Hi).
    destruct c; try discriminate; cbn in Ht; try discriminate.
    + destruct cl; discriminate.
    + destruct n0; try discriminate. destruct err; try discriminate. reflexivity.
Qed.

Lemma run_reaches_closed (W : list bytes) (C0 n : nat) (sched : nat -> nat) :
  (0 < n)%nat ->
  forall (fuel k : nat) (s : Sys),
    close_inv W C0 n s -> (close_measure s <= fuel)%nat ->
    closed_and_returned W C0 n (run sched fuel k s).
Proof.
  intros Hpos.
  assert (Hstep : forall s s', close_inv W C0 n s -> In s' (sys_succs s) ->
            close_inv W C0 n s' /\ (close_measure s' < close_measure s)%nat).
  { intros [w ts acc] s' Hinv Hin.
    apply sys_succs_cases in Hin as [(w' & Hin & ->) | (i & c & w' & c' & Hi & Hin & ->)];
      cbn [sw threads accepted] in *.
    - exact (close_inv_goroutine _ _ _ _ _ _ _ Hinv Hin).
    - exact (close_inv_caller _ _ _ _ _ _ _ _ _ _ Hinv Hi Hin). }
  induction fuel as [| fuel IH]; intros k s Hinv Hm.
  - cbn [run]. apply close_inv_stuck; [exact Hinv | exact Hpos |].
    destruct (sys_succs s) as [| s1 rest] eqn:Es; [reflexivity | exfalso].
    assert (Hin : In s1 (sys_succs s)) by (rewrite Es; left; reflexivity).
    destruct (Hstep s s1 Hinv Hin) as [_ Hlt]. lia.
  - cbn [run]. destruct (sys_succs s) as [| s1 rest] eqn:Es.
    + apply close_inv_stuck; assumption.
    + set (s' := nth (sched k mod length (s1 :: rest)) (s1 :: rest) s1).
      assert (Hin : In s' (sys_succs s)).
      { rewrite Es. apply nth_In. apply Nat.mod_upper_bound. discriminate. }
      destruct (Hstep s s' Hinv Hin) as [Hinv' Hlt].
      apply IH; [exact Hinv' | lia].
Qed.

Lemma forallb_repeat (P : Call -> bool) (c : Call) (n : nat) :
  P c = true -> forallb P (repeat c n) = true.
Proof. intros H. induction n as [| n IH]; cbn; [reflexivity | rewrite H, IH; reflexivity]. Qed.

Lemma cweight_sum_repeat (n : nat) :
  list_sum (map cweight (repeat CloseEntry n)) = (3 * n)%nat.
Proof.
  induction n as [| n IH]; [reflexivity |]. cbn [repeat map].
  change (list_sum (cweight CloseEntry :: map cweight (repeat CloseEntry n)))
    with (3 + list_sum (map cweight (repeat CloseEntry n)))%nat.
  rewrite IH. lia.
Qed.

Lemma sole_closer_goroutine (W : list bytes) (C0 : nat) (w w' : AsyncWriter) c acc :
  close_inv W C0 1 (mkSys w [c] acc) -> sole_closer (mkSys w [c] acc) ->
  In w' (flush_step w) -> sole_closer (mkSys w' [c] acc).
Proof.
  destruct w as [q cap cl fl dn sk cz g].
  intros (_ & _ & Hg) (c0 & Ht & Hes & Hret) Hin. unfold sole_closer in *.
  cbn [sw threads accepted ch closing flushed done writer closed goroutine] in *.
  injection Ht as <-. exists c. split; [reflexivity |].
  unfold flush_step in Hin. cbn [ch closing flushed done writer closed goroutine] in Hin.
  split.
  - intros Hc. destruct (Hes Hc) as [-> Hgn]. destruct Hgn as [-> | ->].
    + rewrite app_nil_r in Hin. destruct q as [| d rest]; [destruct Hin |].
      destruct (len d =? 0); destruct Hin as [<- | []]; cbn; auto.
    + destruct fl; [destruct Hin |]. destruct Hin as [<- | []]. cbn. auto.
  - intros m e Hc. destruct (Hret m e Hc) as [-> ->]. destruct Hin.
Qed.

Lemma sole_closer_caller (W : list bytes) (C0 : nat) (w w' : AsyncWriter) c c' acc acc' :
  close_inv W C0 1 (mkSys w [c] acc) -> sole_closer (mkSys w [c] acc) ->
  In (w', c') (call_step w c) -> sole_closer (mkSys w' [c'] acc').
Proof.
  intros (_ & _ & Hg) (c0 & Ht & Hes & Hret) Hin. unfold sole_closer in *.
  cbn [sw threads accepted] in *. injection Ht as <-.
  assert (Hc : closer_pc c = true).
  { destruct (goroutine w); cbn [forallb] in Hg.
    - destruct Hg as (_ & _ & _ & _ & H & _). apply andb_true_iff in H as [H _].
      apply is_close_pc_closer, H.
    - destruct Hg as (_ & _ & _ & _ & H & _). apply andb_true_iff in H as [H _].
      apply is_close_pc_closer, H.
    - destruct Hg as (_ & _ & _ & H). apply andb_true_iff in H as [H _].
      apply is_close_pc_closer, H.
    - destruct Hg as (_ & _ & _ & H). apply andb_true_iff in H as [H _]. exact H.
    - destruct Hg as (_ & _ & _ & _ & H). apply andb_true_iff in H as [H _]. exact H. }
  exists c'. split; [reflexivity |].
  destruct (close_step_cases w w' c c' Hc Hin)
    as [(-> & -> & Hz & ->) | [(-> & -> & Hcl & ->) | (Hcc & -> & Hdz & ->)]].
  - split; [intros _; apply Hes; left; reflexivity | intros m e [=]].
  - split; [intros [[=] | [=]] | intros m e [=]].
  - split; [intros [[=] | [=]] |]. intros m e _.
    destruct c; try discriminate.
    + destruct (Hes (or_introl eq_refl)) as [_ [Hgn | Hgn]]; rewrite Hgn in Hg;
        destruct Hg as (Hz & Hd & _); destruct Hdz; congruence.
    + destruct (Hes (or_intror eq_refl)) as [_ [Hgn | Hgn]]; rewrite Hgn in Hg;
        destruct Hg as (Hz & Hd & _); destruct Hdz; congruence.
    + cbn [call_step] in Hin. destruct (done w) eqn:Ed; [| destruct Hin].
      split; [reflexivity |].
      destruct (goroutine w); try reflexivity;
        [destruct Hg as (_ & Hd & _) | destruct Hg as (_ & Hd & _)
         | destruct Hg as (_ & Hd & _) | destruct Hg as (_ & Hd & _)]; congruence.
Qed.

Lemma drive_sole_closer (W : list bytes) (C0 : nat) :
  forall (fuel : nat) (w : AsyncWriter) (c : Call),
    close_inv W C0 1 (mkSys w [c] []) -> sole_closer (mkSys w [c] []) ->
    (close_measure (mkSys w [c] []) <= fuel)%nat ->
    snd (drive fuel (w, c)) = Ret 0 None
    /\ closed_and_returned W C0 1 (mkSys (fst (drive fuel (w, c))) [Ret 0 None] []).
Proof.
  assert (Hret : forall w, close_inv W C0 1 (mkSys w [Ret 0 None] []) ->
            sole_closer (mkSys w [Ret 0 None] []) ->
            closed_and_returned W C0 1 (mkSys w [Ret 0 None] [])).
  { intros w (_ & HW & Hg) (c0 & Ht & _ & Hr). cbn [sw threads] in *. injection Ht as <-.
    destruct (Hr 0 None eq_refl) as [Hd Hgn]. rewrite Hgn in Hg.
    destruct Hg as (Hz & _ & Hcl & Hq & _).
    unfold closed_and_returned, isClosed. cbn [sw threads]. rewrite Hz, Hq in *.
    cbn in HW. rewrite app_nil_r in HW. repeat split; assumption. }
  assert (Hpc : forall w c, close_inv W C0 1 (mkSys w [c] []) -> closer_pc c = true).
  { intros w c (_ & _ & Hg). cbn [sw threads forallb] in Hg. destruct (goroutine w).
    - destruct Hg as (_ & _ & _ & _ & H & _). apply andb_true_iff in H as [H _].
      apply is_close_pc_closer, H.
    - destruct Hg as (_ & _ & _ & _ & H & _). apply andb_true_iff in H as [H _].
      apply is_close_pc_closer, H.
    - destruct Hg as (_ & _ & _ & H). apply andb_true_iff in H as [H _].
      apply is_close_pc_closer, H.
    - destruct Hg as (_ & _ & _ & H). apply andb_true_iff in H as [H _]. exact H.
    - destruct Hg as (_ & _ & _ & _ & H). apply andb_true_iff in H as [H _]. exact H. }
  induction fuel as [| fuel IH]; intros w c Hinv Hsole Hm.
  - cbn [drive fst snd]. pose proof (Hpc w c Hinv) as Hc.
    assert (c = Ret 0 None) as ->.
    { unfold close_measure in Hm. cbn [sw threads map list_sum fold_right] in Hm.
      destruct c; try discriminate; cbn [cweight] in Hm; try lia.
      destruct n; try discriminate. destruct err; try discriminate. reflexivity. }
    split; [reflexivity | apply Hret; assumption].
  - rewrite drive_unfold. pose proof (Hpc w c Hinv) as Hc.
    destruct (call_step w c) as [| [w' c'] rest] eqn:Es.
    + destruct (flush_step w) as [| w' rest'] eqn:Ef.
      * assert (Hnil : sys_succs (mkSys w [c] []) = []).
        { unfold sys_succs, thread_succs. cbn [sw threads imap concat]. rewrite Es, Ef.
          reflexivity. }
        pose proof (close_inv_stuck W C0 1 _ Hinv Nat.lt_0_1 Hnil) as Hfin.
        destruct Hfin as (Ht & _). cbn [threads repeat] in Ht. injection Ht as ->.
        cbn [fst snd]. split; [reflexivity | apply Hret; assumption].
      * assert (Hin : In w' (flush_step w)) by (rewrite Ef; left; reflexivity).
        destruct (close_inv_goroutine _ _ _ _ _ _ _ Hinv Hin) as [Hinv' Hlt].
        pose proof (sole_closer_goroutine _ _ _ _ _ _ Hinv Hsole Hin) as Hsole'.
        destruct c; try discriminate; try (apply IH; [exact Hinv' | exact Hsole' | lia]).
        destruct n; try discriminate. destruct err; try discriminate.
        cbn [fst snd]. split; [reflexivity | apply Hret; assumption].
    + assert (Hin : In (w', c') (call_step w c)) by (rewrite Es; left; reflexivity).
      destruct (close_inv_caller _ _ _ _ _ _ _ 0%nat _ _ Hinv eq_refl Hin) as [Hinv' Hlt].
      pose proof (sole_closer_caller _ _ _ _ _ _ _ [] Hinv Hsole Hin) as Hsole'.
      change (<[0%nat := c']> [c]) with [c'] in Hinv', Hlt.
      assert (Hm' : (close_measure (mkSys w' [c'] []) <= fuel)%nat).
      { unfold close_measure in *. cbn [sw threads] in *. lia. }
      destruct c; try discriminate; (apply IH; [exact Hinv' | exact Hsole' | exact Hm']).
Qed.

Lemma AsyncWriter_Close_open (w : AsyncWriter) :
  goroutine w = FSelect -> closed w = 0 -> closing w = false -> done w = false ->
  (tokens w <= 1)%nat ->
  snd (AsyncWriter_Close w) = Some None
  /\ closed_and_returned (written (writer w) ++ lines (ch w)) (closes (writer w)) 1
       (mkSys (fst (AsyncWriter_Close w)) [Ret 0 None] []).
Proof.
  intros Hg Hz Hc Hd Htok. unfold AsyncWriter_Close. cbn [fst snd].
  destruct (drive_sole_closer (written (writer w) ++ lines (ch w)) (closes (writer w))
              (call_fuel w) w CloseEntry) as [E Hfin].
  - unfold close_inv. cbn [sw threads length forallb]. split; [reflexivity |].
    split; [reflexivity |]. rewrite Hg. repeat split; assumption.
  - exists CloseEntry. cbn [sw threads]. split; [reflexivity |]. split.
    + intros _. split; [exact Hc | left; exact Hg].
    + intros m e [=].
  - unfold close_measure, call_fuel. cbn [sw threads map list_sum fold_right cweight].
    rewrite Hg. cbn [gweight]. lia.
  - rewrite E. split; [reflexivity | exact Hfin].
Qed.

Lemma AsyncWriter_Close_closed (w : AsyncWriter) :
  isClosed w = true -> AsyncWriter_Close w = (w, Some None).
Proof.
  intros H. unfold AsyncWriter_Close, call_fuel.
  replace (3 * length (ch w) + 16)%nat with (S (S (3 * length (ch w) + 14))) by lia.
  rewrite drive_unfold. cbn [call_step]. rewrite H. rewrite drive_unfold. reflexivity.
Qed.

Lemma call_step_close_pc (w w' : AsyncWriter) (c c' : Call) :
  is_close_pc c = true -> In (w', c') (call_step w c) ->
  is_close_pc c' = true \/ c' = Ret 0 None.
Proof.
  intros Hc Hin. destruct c; try discriminate; cbn [call_step] in Hin.
  - destruct (isClosed w); destruct Hin as [[= <- <-] | []]; auto.
  - apply in_app_or in Hin as [Hin | Hin].
    + destruct (closing w); [destruct Hin |]. destruct Hin as [[= <- <-] | []]. auto.
    + destruct (done w); [| destruct Hin]. destruct Hin as [[= <- <-] | []]. auto.
  - destruct (done w); [| destruct Hin]. destruct Hin as [[= <- <-] | []]. auto.
Qed.

Lemma call_step_flush_pc (w w' : AsyncWriter) (c c' : Call) :
  is_flush_pc c = true -> In (w', c') (call_step w c) ->
  is_flush_pc c' = true \/ c' = Ret 0 None \/ c' = Ret 0 (Some errAsyncWriterClosed).
Proof.
  intros Hc Hin. destruct c; try discriminate; cbn [call_step] in Hin.
  - destruct (isClosed w); destruct Hin as [[= <- <-] | []]; auto.
  - apply in_app_or in Hin as [Hin | Hin].
    + destruct (ch_has_room w); [| destruct Hin]. destruct Hin as [[= <- <-] | []]. auto.
    + destruct (done w); [| destruct Hin]. destruct Hin as [[= <- <-] | []]. auto.
  - destruct (isClosed w); destruct Hin as [[= <- <-] | []]; auto.
  - apply in_app_or in Hin as [Hin | Hin].
    + destruct (flushed w); [| destruct Hin]. destruct Hin as [[= <- <-] | []]. auto.
    + destruct (done w); [| destruct Hin]. destruct Hin as [[= <- <-] | []]. auto.
Qed.

Lemma drive_close_pc (fuel : nat) :
  forall w c, is_close_pc c = true \/ c = Ret 0 None ->
    is_close_pc (snd (drive fuel (w, c))) = true \/ snd (drive fuel (w, c)) = Ret 0 None.
Proof.
  induction fuel as [| fuel IH]; intros w c Hc; [exact Hc |].
  rewrite drive_unfold. destruct Hc as [Hc | ->]; [| right; reflexivity].
  destruct (call_step w c) as [| [w' c'] rest] eqn:Es.
  - destruct (flush_step w) as [| w' rest'].
    + destruct c; try discriminate; left; exact Hc.
    + destruct c; try discriminate; apply IH; left; exact Hc.
  - assert (Hin : In (w', c') (call_step w c)) by (rewrite Es; left; reflexivity).
    pose proof (call_step_close_pc _ _ _ _ Hc Hin) as Hc'.
    destruct c; try discriminate; apply IH; exact Hc'.
Qed.

Lemma drive_flush_pc (fuel : nat) :
  forall w c,
    is_flush_pc c = true \/ c = Ret 0 None \/ c = Ret 0 (Some errAsyncWriterClosed) ->
    is_flush_pc (snd (drive fuel (w, c))) = true
    \/ snd (drive fuel (w, c)) = Ret 0 None
    \/ snd (drive fuel (w, c)) = Ret 0 (Some errAsyncWriterClosed).
Proof.
  induction fuel as [| fuel IH]; intros w c Hc; [exact Hc |].
  rewrite drive_unfold. destruct Hc as [Hc | [-> | ->]]; [| right; left; reflexivity | right; right; reflexivity].
  destruct (call_step w c) as [| [w' c'] rest] eqn:Es.
  - destruct (flush_step w) as [| w' rest'].
    + destruct c; try discriminate; left; exact Hc.
    + destruct c; try discriminate; apply IH; left; exact Hc.
  - assert (Hin : In (w', c') (call_step w c)) by (rewrite Es; left; reflexivity).
    pose proof (call_step_flush_pc _ _ _ _ Hc Hin) as Hc'.
    destruct c; try discriminate; apply IH; exact Hc'.
Qed.

Lemma AsyncWriter_Close_result (w : AsyncWriter) (e : error) :
  snd (AsyncWriter_Close w) <> Some (Some e).
Proof.
  unfold AsyncWriter_Close. cbn [snd].
  destruct (drive_close_pc (call_fuel w) w CloseEntry (or_introl eq_refl)) as [H | H].
  - destruct (snd (drive (call_fuel w) (w, CloseEntry))); try discriminate.
  - rewrite H. discriminate.
Qed.

Lemma AsyncWriter_Flush_result (w : AsyncWriter) (e : error) :
  snd (AsyncWriter_Flush w) = Some (Some e) -> e = errAsyncWriterClosed.
Proof.
  unfold AsyncWriter_Flush. cbn [snd].
  destruct (drive_flush_pc (call_fuel w) w FlushEntry (or_introl eq_refl)) as [H | [H | H]].
  - destruct (snd (drive (call_fuel w) (w, FlushEntry))); try discriminate.
  - rewrite H. discriminate.
  - rewrite H. cbn. congruence.
Qed.

Lemma each_writer_errors (P : error -> Prop) f :
  (forall w e, snd (f w) = Some (Some e) -> P e) ->
  forall ws err e,
    (forall e0, err = Some e0 -> P e0) ->
    snd (each_writer f ws err) = Some (Some e) -> P e.
Proof.
  intros Hf. induction ws as [| w rest IH]; intros err e Herr H; cbn [each_writer] in H.
  - cbn in H. apply Herr. congruence.
  - destruct (f w) as [w' [r |]] eqn:Ef; cbn [snd] in H; [| discriminate].
    eapply IH; [| exact H]. intros e0 He0. destruct r as [e1 |].
    + injection He0 as <-. apply (Hf w). rewrite Ef. reflexivity.
    + apply Herr. exact He0.
Qed.

Lemma each_writer_keeps_last f :
  forall ws err,
    (forall w, In w ws -> exists r, snd (f w) = Some r) ->
    snd (each_writer f ws err)
    = Some (keep_last err (map (fun w => result_or_nil (snd (f w))) ws)).
Proof.
  induction ws as [| w rest IH]; intros err Hret; [reflexivity |].
  cbn [each_writer map keep_last fold_left].
  destruct (Hret w (or_introl eq_refl)) as [r Hr].
  destruct (f w) as [w' r'] eqn:Ef. cbn [snd] in Hr. subst r'. cbn [snd result_or_nil].
  rewrite IH; [reflexivity |]. intros w0 Hin. apply Hret. right. exact Hin.
Qed.

(** C3 (as the code has it). [AsyncWriter.Close] never returns an error:
    what the sink's [Close] answers is dropped by the goroutine, which marks
    the writer done whatever the answer; on a closed writer, and on an open
    writer that no other call is using, it returns success (in the second
    case after the queued lines were written and the sink closed once).
    [AsyncWriter.Flush] returns no error other than "closed".  The logger's [Flush] and [Close] return the
    result of the last writer that returned an error (nil if none did), so
    the logger's [Close] never returns an error and its [Flush] none other
    than "closed". *)
Theorem Close_drops_sink_error_and_last_error_is_kept
    (w : AsyncWriter) (l : logger) (e : error)
    (f : AsyncWriter -> AsyncWriter * option (option error))
    (ws : list AsyncWriter) (err : option error) :
  snd (AsyncWriter_Close w) <> Some (Some e)
  /\ snd (logger_Close l) <> Some (Some e)
  /\ (goroutine w = FDrain -> ch w = [] ->
      flush_step w = [set_goroutine FExit (set_done true (set_writer (fst (sink_Close (writer w))) w))])
  /\ (snd (AsyncWriter_Flush w) = Some (Some e) -> e = errAsyncWriterClosed)
  /\ (snd (logger_Flush l) = Some (Some e) -> e = errAsyncWriterClosed)
  /\ ((forall w0, In w0 ws -> exists r, snd (f w0) = Some r) ->
      snd (each_writer f ws err)
      = Some (keep_last err (map (fun w0 => result_or_nil (snd (f w0))) ws)))
  /\ (isClosed w = true -> AsyncWriter_Close w = (w, Some None))
  /\ (goroutine w = FSelect -> closed w = 0 -> closing w = false -> done w = false ->
      (tokens w <= 1)%nat ->
      snd (AsyncWriter_Close w) = Some None
      /\ closes (writer (fst (AsyncWriter_Close w))) = S (closes (writer w))
      /\ written (writer (fst (AsyncWriter_Close w))) = written (writer w) ++ lines (ch w)).
Proof.
  split; [| split; [| split; [| split; [| split; [| split; [| split]]]]]].
  - apply AsyncWriter_Close_result.
  - unfold logger_Close. cbn [snd]. intros H.
    apply (each_writer_errors (fun _ => False) AsyncWriter_Close) in H; [exact H | |].
    + intros w0 e0 H0. exact (AsyncWriter_Close_result w0 e0 H0).
    + intros e0 H0. discriminate.
  - intros Hg Hq. unfold flush_step. rewrite Hg, Hq. reflexivity.
  - apply AsyncWriter_Flush_result.
  - unfold logger_Flush. cbn [snd]. intros H.
    apply (each_writer_errors (fun e0 => e0 = errAsyncWriterClosed) AsyncWriter_Flush) in H;
      [exact H | |].
    + intros w0 e0 H0. exact (AsyncWriter_Flush_result w0 e0 H0).
    + intros e0 H0. discriminate.
  - apply each_writer_keeps_last.
  - apply AsyncWriter_Close_closed.
  - intros Hg Hz Hc Hd Htok.
    destruct (AsyncWriter_Close_open w Hg Hz Hc Hd Htok) as (E & _ & _ & _ & _ & _ & Hw & Hcl).
    cbn [sw] in Hw, Hcl. split; [exact E |]. split; [exact Hcl | exact Hw].
Qed.

(** *** Further properties of the async writer *)

(** The properties of the async writer do not depend on the environment of
    the logger. *)
Ltac without_env :=
  clear Sprintf fmt_v FuncForPC_FileLine FuncForPC_Name path_Base Itoa stdPackagePrefix
        closeErrOf unicodeLower any.

Lemma forallb_is_line_snoc (ls : list bytes) (d : bytes) :
  forallb is_line ls = true -> (len d =? 0) = false -> forallb is_line (ls ++ [d]) = true.
Proof using.
  intros Hls El. rewrite forallb_app, Hls. cbn. unfold is_line. rewrite El. reflexivity.
Qed.

Lemma flush_step_writer_inv (sink : Sink) (size : Z) (w w' : AsyncWriter) :
  writer_inv sink size w -> In w' (flush_step w) -> writer_inv sink size w'.
Proof using.
  without_env.
  destruct w as [q cap cl fl dn sk cz g]. unfold writer_inv, flush_step.
  cbn [ch ch_cap closing flushed done writer closed goroutine].
  intros (Hcap & Hd & Hc & Hz & Hlen & (ls & Hls & Hw) & Hcl & Hfn & Hms & Hcr) Hin.
  assert (Hsnoc : forall d, (len d =? 0) = false ->
            exists ls', forallb is_line ls' = true
                        /\ written sk ++ [d] = written sink ++ ls').
  { intros d El. exists (ls ++ [d]). split; [apply forallb_is_line_snoc; assumption |].
    rewrite Hw, app_assoc. reflexivity. }
  destruct g.
  - apply in_app_or in Hin as [Hin | Hin].
    + destruct q as [| d rest]; [destruct Hin |]. cbn [length] in Hlen.
      destruct (len d =? 0) eqn:El; destruct Hin as [<- | []];
        cbn [set_goroutine set_ch set_writer ch ch_cap closing flushed done writer closed
             goroutine sink_Write written closes Filename MaxSize closeResult];
        (split; [assumption |]); (split; [intuition congruence |]);
        (split; [intuition congruence |]); (split; [assumption |]); (split; [lia |]);
        (split; [| tauto]).
      * exists ls. tauto.
      * apply Hsnoc. exact El.
    + destruct cl; [| destruct Hin]. destruct Hin as [<- | []].
      cbn [set_goroutine set_closing ch ch_cap closing flushed done writer closed goroutine].
      split; [assumption |]. split; [intuition congruence |].
      split; [intuition congruence |]. split; [assumption |]. split; [lia |].
      split; [| tauto]. exists ls. tauto.
  - destruct fl; [destruct Hin |]. destruct Hin as [<- | []].
    cbn [set_goroutine set_flushed ch ch_cap closing flushed done writer closed goroutine].
    split; [assumption |]. split; [intuition congruence |].
    split; [intuition congruence |]. split; [assumption |]. split; [lia |].
    split; [| tauto]. exists ls. tauto.
  - destruct Hin as [<- | []].
    cbn [set_goroutine set_closed ch ch_cap closing flushed done writer closed goroutine].
    split; [assumption |]. split; [intuition congruence |].
    split; [intuition congruence |]. split; [tauto |]. split; [lia |].
    split; [| tauto]. exists ls. tauto.
  - assert (Hdn : dn = false).
    { destruct dn; [| reflexivity]. discriminate (proj1 Hd eq_refl). }
    subst dn. assert (Hcz : cz = 1) by (apply Hc; left; reflexivity).
    destruct q as [| d rest].
    + destruct Hin as [<- | []].
      cbn [set_goroutine set_done set_writer ch ch_cap closing flushed done writer closed
           goroutine sink_Close fst written closes Filename MaxSize closeResult].
      split; [assumption |]. split; [tauto |]. split; [tauto |]. split; [tauto |].
      split; [lia |]. split; [exists ls; tauto |]. split; [lia | tauto].
    + cbn [length] in Hlen.
      destruct (len d =? 0) eqn:El; destruct Hin as [<- | []];
        cbn [set_goroutine set_ch set_writer ch ch_cap closing flushed done writer closed
             goroutine sink_Write written closes Filename MaxSize closeResult];
        (split; [assumption |]); (split; [intuition congruence |]);
        (split; [tauto |]); (split; [assumption |]); (split; [lia |]);
        (split; [| tauto]).
      * exists ls. tauto.
      * apply Hsnoc. exact El.
  - destruct Hin.
Qed.

Lemma call_step_writer_inv (sink : Sink) (size : Z) (w w' : AsyncWriter) (c c' : Call) :
  writer_inv sink size w -> In (w', c') (call_step w c) -> writer_inv sink size w'.
Proof using.
  destruct w as [q cap cl fl dn sk cz g]. unfold writer_inv.
  cbn [ch ch_cap closing flushed done writer closed goroutine].
  intros Hinv Hin.
  assert (Hw' : w' = mkAsyncWriter q cap cl fl dn sk cz g
                \/ (exists d, (Z.of_nat (length q) <? cap) = true
                              /\ w' = mkAsyncWriter (q ++ [d]) cap cl fl dn sk cz g)
                \/ (exists b, w' = mkAsyncWriter q cap b fl dn sk cz g)
                \/ (exists b, w' = mkAsyncWriter q cap cl b dn sk cz g)).
  { destruct c; cbn [call_step] in Hin; unfold isClosed, ch_has_room in Hin;
      cbn [ch ch_cap closing flushed done writer closed goroutine] in Hin.
    - destruct (len data =? 0); [| destruct (negb (cz =? 0))];
        destruct Hin as [[= <- <-] | []]; auto.
    - destruct (Z.of_nat (length q) <? cap) eqn:Er; destruct Hin as [[= <- <-] | []]; eauto.
    - destruct (negb (cz =? 0)); destruct Hin as [[= <- <-] | []]; auto.
    - apply in_app_or in Hin as [Hin | Hin].
      + destruct (Z.of_nat (length q) <? cap) eqn:Er; [| destruct Hin].
        destruct Hin as [[= <- <-] | []]. eauto.
      + destruct dn; [| destruct Hin]. destruct Hin as [[= <- <-] | []]. auto.
    - destruct (negb (cz =? 0)); destruct Hin as [[= <- <-] | []]; auto.
    - apply in_app_or in Hin as [Hin | Hin].
      + destruct fl; [| destruct Hin]. destruct Hin as [[= <- <-] | []]. cbn. eauto 6.
      + destruct dn; [| destruct Hin]. destruct Hin as [[= <- <-] | []]. auto.
    - destruct (negb (cz =? 0)); destruct Hin as [[= <- <-] | []]; auto.
    - apply in_app_or in Hin as [Hin | Hin].
      + destruct cl; [destruct Hin |]. destruct Hin as [[= <- <-] | []]. cbn. eauto 6.
      + destruct dn; [| destruct Hin]. destruct Hin as [[= <- <-] | []]. auto.
    - destruct dn; [| destruct Hin]. destruct Hin as [[= <- <-] | []]. auto.
    - destruct Hin. }
  destruct Hw' as [-> | [(d & Er & ->) | [(b & ->) | (b & ->)]]];
    cbn [ch ch_cap closing flushed done writer closed goroutine]; try exact Hinv.
  destruct Hinv as (Hcap & Hd & Hc & Hz & Hlen & Hls & Hrest).
  repeat (split; [assumption |]). split; [| split; assumption].
  rewrite length_app. cbn [length]. apply Z.ltb_lt in Er. lia.
Qed.

Lemma NewAsyncWriter_inv (sink : Sink) (size : Z) :
  writer_inv sink size (NewAsyncWriter sink size).
Proof using.
  unfold writer_inv, NewAsyncWriter. cbn.
  split; [reflexivity |]. split; [split; discriminate |].
  split; [split; [discriminate | intros [H | H]; discriminate] |].
  split; [left; reflexivity |]. split; [lia |].
  split; [exists []; split; [reflexivity | rewrite app_nil_r; reflexivity] |].
  split; [lia |]. repeat split.
Qed.

Lemma sys_step_writer_inv (sink : Sink) (size : Z) (s s' : Sys) :
  writer_inv sink size (sw s) -> sys_step s s' -> writer_inv sink size (sw s').
Proof using.
  intros Hinv Hstep. revert Hinv. destruct Hstep as [s0 c Hc | s0 s1 Hin]; intros Hinv;
    [exact Hinv |].
  apply sys_succs_cases in Hin as [(w' & Hin & ->) | (i & c & w' & c' & Hi & Hin & ->)];
    cbn [sw].
  - exact (flush_step_writer_inv _ _ _ _ Hinv Hin).
  - exact (call_step_writer_inv _ _ _ _ _ _ Hinv Hin).
Qed.

Lemma reachable_writer_inv (sink : Sink) (size : Z) (s0 s : Sys) :
  writer_inv sink size (sw s0) -> reachable s0 s -> writer_inv sink size (sw s).
Proof using.
  intros H0. induction 1 as [| s s' _ IH Hstep]; [exact H0 |].
  exact (sys_step_writer_inv _ _ _ _ IH Hstep).
Qed.

Lemma reachable_new_inv (sink : Sink) (size : Z) (s : Sys) :
  reachable (mkSys (NewAsyncWriter sink size) [] []) s -> writer_inv sink size (sw s).
Proof using.
  apply (reachable_writer_inv sink size (mkSys (NewAsyncWriter sink size) [] []) s).
  exact (NewAsyncWriter_inv sink size).
Qed.

Lemma call_step_shape (w w' : AsyncWriter) (c c' : Call) :
  In (w', c') (call_step w c) ->
  closed w' = closed w /\ goroutine w' = goroutine w /\ writer w' = writer w
  /\ done w' = done w.
Proof using.
  without_env.
  destruct w as [q cap cl fl dn sk cz g]. intros Hin.
  destruct c; cbn [call_step] in Hin; unfold isClosed, ch_has_room in Hin;
    cbn [ch ch_cap closing flushed done writer closed goroutine] in Hin;
    repeat match type of Hin with
           | In _ (_ ++ _) => apply in_app_or in Hin as [Hin | Hin]
           | In _ (if ?b then _ else _) => destruct b
           | In _ [_] => destruct Hin as [[= <- <-] | []]
           | In _ [] => destruct Hin
           end; cbn; auto.
Qed.

Lemma sys_step_keeps_closed (s s' : Sys) :
  sys_step s s' -> isClosed (sw s) = true -> isClosed (sw s') = true.
Proof using.
  without_env.
  intros Hstep. destruct Hstep as [s0 c Hc | s0 s1 Hin]; [trivial |].
  apply sys_succs_cases in Hin as [(w' & Hin & ->) | (i & c & w' & c' & Hi & Hin & ->)];
    cbn [sw].
  - destruct (sw s0) as [q cap cl fl dn sk cz g]; unfold isClosed; cbn [closed];
      intros Hcl.
    unfold flush_step in Hin. cbn [ch closing flushed done writer closed goroutine] in Hin.
    destruct g.
    + apply in_app_or in Hin as [Hin | Hin].
      * destruct q as [| d rest]; [destruct Hin |].
        destruct (len d =? 0); destruct Hin as [<- | []]; exact Hcl.
      * destruct cl; [| destruct Hin]. destruct Hin as [<- | []]. exact Hcl.
    + destruct fl; [destruct Hin |]. destruct Hin as [<- | []]. exact Hcl.
    + destruct Hin as [<- | []]. reflexivity.
    + destruct q as [| d rest]; [destruct Hin as [<- | []]; exact Hcl |].
      destruct (len d =? 0); destruct Hin as [<- | []]; exact Hcl.
    + destruct Hin.
  - destruct (call_step_shape _ _ _ _ Hin) as (E & _). unfold isClosed. rewrite E. trivial.
Qed.

Lemma sys_step_after_exit (s s' : Sys) :
  sys_step s s' -> goroutine (sw s) = FExit ->
  goroutine (sw s') = FExit /\ writer (sw s') = writer (sw s) /\ done (sw s') = done (sw s).
Proof using.
  without_env.
  intros Hstep. destruct Hstep as [s0 c Hc | s0 s1 Hin]; [auto |].
  apply sys_succs_cases in Hin as [(w' & Hin & ->) | (i & c & w' & c' & Hi & Hin & ->)];
    cbn [sw]; intros Hg.
  - unfold flush_step in Hin. rewrite Hg in Hin. destruct Hin.
  - destruct (call_step_shape _ _ _ _ Hin) as (_ & E1 & E2 & E3). rewrite E1. auto.
Qed.

(** X1. The bounded queue stays bounded: in every state the system of a new
    writer can reach, the queue holds at most [size] elements (none when
    [size] is not positive), and the capacity is the one the writer was made
    with. *)
Theorem queue_never_exceeds_capacity (sink : Sink) (size : Z) (s : Sys) :
  reachable (mkSys (NewAsyncWriter sink size) [] []) s ->
  Z.of_nat (length (ch (sw s))) <= Z.max 0 size /\ ch_cap (sw s) = size.
Proof using.
  intros Hr.
  destruct (reachable_new_inv sink size s Hr)
    as (Hcap & _ & _ & _ & Hlen & _).
  split; assumption.
Qed.

(** X2. Closing is permanent.  Once the closed flag of a writer is set it is
    set in every later state, whatever calls are made; [done] is closed only
    on a writer whose flag is set; and a writer whose flag is set answers
    every [Write] of data and every [Flush] with the "closed" error, leaving
    its state as it was. *)
Theorem closed_flag_is_permanent (sink : Sink) (size : Z) (s s' : Sys) (data : bytes) :
  reachable (mkSys (NewAsyncWriter sink size) [] []) s ->
  reachable s s' ->
  (done (sw s) = true -> isClosed (sw s) = true)
  /\ (isClosed (sw s) = true ->
      isClosed (sw s') = true
      /\ (len data <> 0 ->
          AsyncWriter_Write (sw s') data = (sw s', (0, Some errAsyncWriterClosed)))
      /\ AsyncWriter_Flush (sw s') = (sw s', Some (Some errAsyncWriterClosed))).
Proof using.
  intros Hr Hr'.
  destruct (reachable_new_inv sink size s Hr)
    as (_ & Hd & Hc & _).
  split.
  - intros Hdone. unfold isClosed. apply Hd in Hdone.
    rewrite (proj2 Hc (or_intror Hdone)). reflexivity.
  - intros Hcl.
    assert (Hcl' : isClosed (sw s') = true).
    { clear Hr Hd Hc. induction Hr' as [| s1 s2 _ IH Hstep]; [exact Hcl |].
      exact (sys_step_keeps_closed _ _ Hstep IH). }
    split; [exact Hcl' |]. split.
    + intros Hlen. unfold AsyncWriter_Write. apply Z.eqb_neq in Hlen.
      rewrite Hlen, Hcl'. reflexivity.
    + unfold AsyncWriter_Flush, call_fuel.
      replace (3 * length (ch (sw s')) + 16)%nat
        with (S (S (3 * length (ch (sw s')) + 14))) by lia.
      rewrite drive_unfold. cbn [call_step]. rewrite Hcl'. rewrite drive_unfold. reflexivity.
Qed.

(** X3. The sink is closed exactly once, by the goroutine as it returns, and
    is not touched afterwards.  In every reachable state [done] is closed
    exactly when the goroutine has returned, and the sink has been closed
    once if so and not at all otherwise; from a state where [done] is closed,
    the sink is the same in every later state: nothing more is written to
    it and it is not closed again. *)
Theorem sink_closed_once_then_untouched (sink : Sink) (size : Z) (s s' : Sys) :
  reachable (mkSys (NewAsyncWriter sink size) [] []) s ->
  reachable s s' ->
  (done (sw s) = true <-> goroutine (sw s) = FExit)
  /\ closes (writer (sw s)) = (closes sink + (if done (sw s) then 1 else 0))%nat
  /\ (done (sw s) = true ->
      writer (sw s') = writer (sw s) /\ done (sw s') = true
      /\ closes (writer (sw s')) = S (closes sink)).
Proof using.
  intros Hr Hr'.
  destruct (reachable_new_inv sink size s Hr)
    as (_ & Hd & _ & _ & _ & _ & Hcl & _).
  split; [exact Hd |]. split; [exact Hcl |].
  intros Hdone. pose proof (proj1 Hd Hdone) as Hg.
  assert (H : goroutine (sw s') = FExit /\ writer (sw s') = writer (sw s)
              /\ done (sw s') = done (sw s)).
  { clear Hr Hd Hcl Hdone. induction Hr' as [| s1 s2 _ IH Hstep]; [auto |].
    destruct IH as (IH1 & IH2 & IH3).
    destruct (sys_step_after_exit _ _ Hstep IH1) as (H1 & H2 & H3).
    split; [exact H1 |]. split; congruence. }
  destruct H as (_ & Hw & Hd'). rewrite Hw, Hd', Hcl, Hdone.
  split; [reflexivity |]. split; [reflexivity | lia].
Qed.

(** X4. A flush sentinel never reaches the sink: in every reachable state
    what the sink has been given since the writer was made is a sequence of
    non-empty slices. *)
Theorem sink_receives_only_lines (sink : Sink) (size : Z) (s : Sys) :
  reachable (mkSys (NewAsyncWriter sink size) [] []) s ->
  exists ls, written (writer (sw s)) = written sink ++ ls
             /\ forallb is_line ls = true
             /\ Forall (fun d => len d <> 0) ls.
Proof using.
  intros Hr.
  destruct (reachable_new_inv sink size s Hr)
    as (_ & _ & _ & _ & _ & (ls & Hls & Hw) & _).
  exists ls. split; [exact Hw |]. split; [exact Hls |].
  clear Hw. induction ls as [| d ls IH]; [constructor |].
  cbn [forallb] in Hls. apply andb_true_iff in Hls as [Hd Hls].
  constructor; [| exact (IH Hls)].
  unfold is_line in Hd. apply negb_true_iff, Z.eqb_neq in Hd. exact Hd.
Qed.

Lemma sink_Write_all_fields (s : Sink) (ls : list bytes) :
  written (sink_Write_all s ls) = written s ++ ls
  /\ closes (sink_Write_all s ls) = closes s
  /\ Filename (sink_Write_all s ls) = Filename s
  /\ MaxSize (sink_Write_all s ls) = MaxSize s
  /\ closeResult (sink_Write_all s ls) = closeResult s.
Proof using.
  revert s. induction ls as [| d ls IH]; intros s; cbn [sink_Write_all fold_left].
  - rewrite app_nil_r. repeat split.
  - destruct (IH (sink_Write s d)) as (H1 & H2 & H3 & H4 & H5).
    unfold sink_Write_all in *. rewrite H1, H2, H3, H4, H5. cbn.
    rewrite <- app_assoc. repeat split.
Qed.

Ltac norm_writer :=
  cbv iota;
  unfold set_goroutine, set_ch, set_writer, set_flushed, set_closing, set_closed, set_done;
  cbn [app set_goroutine set_ch set_writer set_flushed set_closing set_closed set_done
       ch ch_cap closing flushed done writer closed goroutine fst snd].

Ltac drive_step :=
  rewrite drive_unfold; cbn [call_step]; unfold flush_step, isClosed, ch_has_room;
  cbn [app set_goroutine set_ch set_writer set_flushed set_closing set_closed set_done
       ch ch_cap closing flushed done writer closed goroutine fst snd];
  change (len [] =? 0) with true; change (negb (0 =? 0)) with false; norm_writer.

Lemma drive_flush_wait (cap : Z) :
  forall (ls : list bytes) (sk : Sink) (fuel : nat),
    forallb is_line ls = true -> (length ls + 3 <= fuel)%nat ->
    drive fuel (mkAsyncWriter (ls ++ [[]]) cap false false false sk 0 FSelect, FlushWait)
    = (mkAsyncWriter [] cap false false false (sink_Write_all sk ls) 0 FSelect, Ret 0 None).
Proof using.
  induction ls as [| d ls IH]; intros sk fuel Hls Hfuel.
  - destruct fuel as [| [| [| fuel]]]; cbn [length] in Hfuel; try lia.
    drive_step. drive_step. drive_step. destruct fuel; reflexivity.
  - cbn [forallb] in Hls. apply andb_true_iff in Hls as [Hd Hls].
    unfold is_line in Hd. apply negb_true_iff in Hd.
    destruct fuel as [| fuel]; cbn [length] in Hfuel; [lia |].
    drive_step. rewrite Hd. norm_writer.
    rewrite IH; [reflexivity | exact Hls | lia].
Qed.

Lemma drive_flush_idle (q : list bytes) (cap : Z) (sk : Sink) (fuel : nat) :
  forallb is_line q = true -> 0 < cap -> Z.of_nat (length q) <= cap ->
  (length q + 8 <= fuel)%nat ->
  drive fuel (mkAsyncWriter q cap false false false sk 0 FSelect, FlushEntry)
  = (mkAsyncWriter [] cap false false false (sink_Write_all sk q) 0 FSelect, Ret 0 None).
Proof using.
  intros Hq Hcap Hlen Hfuel.
  destruct fuel as [| [| [| [| [| fuel]]]]]; try lia.
  drive_step. drive_step.
  destruct (Z.ltb_spec (Z.of_nat (length q)) cap) as [Hroom | Hfull].
  - norm_writer. drive_step. apply drive_flush_wait; [exact Hq | lia].
  - norm_writer. destruct q as [| d rest]; [cbn in Hfull; lia |].
    cbn [forallb] in Hq. apply andb_true_iff in Hq as [Hd Hrest].
    unfold is_line in Hd. apply negb_true_iff in Hd.
    rewrite Hd. norm_writer. cbn [length] in *.
    drive_step.
    destruct (Z.ltb_spec (Z.of_nat (length rest)) cap) as [Hroom | Hfull']; [| lia].
    norm_writer. drive_step.
    rewrite drive_flush_wait; [reflexivity | exact Hrest | lia].
Qed.

Lemma AsyncWriter_Flush_idle (w : AsyncWriter) :
  idle_open w ->
  AsyncWriter_Flush w
  = (set_writer (sink_Write_all (writer w) (ch w)) (set_ch [] w), Some None).
Proof using.
  destruct w as [q cap cl fl dn sk cz g].
  intros (Hg & Hz & Hcl & Hd & Hf & Hq & Hcap & Hlen).
  cbn [ch ch_cap closing flushed done writer closed goroutine] in *. subst.
  unfold AsyncWriter_Flush, call_fuel. cbn [ch].
  rewrite drive_flush_idle; [reflexivity | assumption | assumption | assumption | lia].
Qed.

Lemma idle_open_after_Flush (w : AsyncWriter) :
  idle_open w -> idle_open (set_writer (sink_Write_all (writer w) (ch w)) (set_ch [] w)).
Proof using.
  intros (Hg & Hz & Hcl & Hd & Hf & Hq & Hcap & Hlen). unfold idle_open. cbn.
  repeat split; try assumption; lia.
Qed.

Lemma Flush_writes_idle (w : AsyncWriter) :
  idle_open w ->
  snd (AsyncWriter_Flush w) = Some None
  /\ written (writer (fst (AsyncWriter_Flush w))) = written (writer w) ++ ch w
  /\ closes (writer (fst (AsyncWriter_Flush w))) = closes (writer w)
  /\ ch (fst (AsyncWriter_Flush w)) = []
  /\ idle_open (fst (AsyncWriter_Flush w)).
Proof using.
  intros Hidle. rewrite (AsyncWriter_Flush_idle w Hidle). cbn [fst snd].
  destruct (sink_Write_all_fields (writer w) (ch w)) as (H1 & H2 & _).
  split; [reflexivity |]. cbn [set_writer set_ch writer ch].
  split; [exact H1 |]. split; [exact H2 |]. split; [reflexivity |].
  exact (idle_open_after_Flush w Hidle).
Qed.

(** X5. [Flush] is a barrier.  On an open writer that no other call is
    using, [Flush] returns success, and when it returns every line that was
    in the queue has been passed to the sink, in order and after what the
    sink had received before; the queue is empty, the sink has not been
    closed and the writer is open and idle again. *)
Theorem Flush_writes_every_queued_line (w : AsyncWriter) :
  idle_open w ->
  snd (AsyncWriter_Flush w) = Some None
  /\ written (writer (fst (AsyncWriter_Flush w))) = written (writer w) ++ ch w
  /\ closes (writer (fst (AsyncWriter_Flush w))) = closes (writer w)
  /\ ch (fst (AsyncWriter_Flush w)) = []
  /\ idle_open (fst (AsyncWriter_Flush w)).
Proof using. exact (Flush_writes_idle w). Qed.

Lemma caller_step (s : Sys) (i : nat) (c c' : Call) (w' : AsyncWriter) :
  threads s !! i = Some c -> In (w', c') (call_step (sw s) c) ->
  sys_step s (mkSys w' (<[i := c']> (threads s)) (accepted s ++ accepted_by c c')).
Proof using.
  intros Hi Hin. apply step_run. unfold sys_succs. apply in_or_app. right.
  apply in_concat. exists (thread_succs s i c). split.
  - apply list_elem_of_In, elem_of_lookup_imap. exists i, c. split; [reflexivity | exact Hi].
  - unfold thread_succs. apply in_map_iff. exists (w', c'). split; [reflexivity | exact Hin].
Qed.

Lemma goroutine_step (s : Sys) (w' : AsyncWriter) :
  In w' (flush_step (sw s)) -> sys_step s (mkSys w' (threads s) (accepted s)).
Proof using.
  intros Hin. apply step_run. unfold sys_succs. apply in_or_app. left.
  apply in_map_iff. exists w'. split; [reflexivity | exact Hin].
Qed.

(** X6. A [Write] that races with [Close] can be accepted and lost.  For every
    sink, capacity of at least one and non-empty data, the system of a new
    writer reaches a state where the [Write] has returned success with the
    length of the data, a [Close] has returned success, the goroutine has
    returned, and the data sits in the queue; from that state on the sink
    never receives it, whatever calls follow. *)
Theorem Write_racing_with_Close_is_accepted_and_lost
    (sink : Sink) (size : Z) (data : bytes) :
  0 < size -> len data <> 0 ->
  reachable (mkSys (NewAsyncWriter sink size) [] [])
            (mkSys (mkAsyncWriter [data] size false false true (fst (sink_Close sink)) 1 FExit)
                   [Ret (len data) None; Ret 0 None] [data])
  /\ (forall s',
        reachable (mkSys (mkAsyncWriter [data] size false false true
                                        (fst (sink_Close sink)) 1 FExit)
                         [Ret (len data) None; Ret 0 None] [data]) s' ->
        written (writer (sw s')) = written sink /\ accepted s' = [data] ++ skipn 1 (accepted s')).
Proof using.
  intros Hsize Hdata.
  assert (El : (len data =? 0) = false) by (apply Z.eqb_neq; exact Hdata).
  assert (Er : (0 <? size) = true) by (apply Z.ltb_lt; exact Hsize).
  split.
  - pose (w0 := NewAsyncWriter sink size).
    assert (R2 : reachable (mkSys w0 [] []) (mkSys w0 [WriteEntry data; CloseEntry] [])).
    { apply (reach_step _ (mkSys w0 [WriteEntry data] [])).
      - apply (reach_step _ (mkSys w0 [] [])); [apply reach_refl |].
        apply (step_spawn (mkSys w0 [] []) (WriteEntry data)). reflexivity.
      - apply (step_spawn (mkSys w0 [WriteEntry data] []) CloseEntry). reflexivity. }
    assert (R3 : reachable (mkSys w0 [] []) (mkSys w0 [WriteSend data; CloseEntry] [])).
    { apply (reach_step _ _ _ R2).
      apply (caller_step (mkSys w0 [WriteEntry data; CloseEntry] []) 0 (WriteEntry data)
                         (WriteSend data) w0); [reflexivity |].
      cbn [sw call_step]. rewrite El. left. reflexivity. }
    assert (R4 : reachable (mkSys w0 [] []) (mkSys w0 [WriteSend data; CloseSignal] [])).
    { apply (reach_step _ _ _ R3).
      apply (caller_step (mkSys w0 [WriteSend data; CloseEntry] []) 1 CloseEntry
                         CloseSignal w0); [reflexivity |].
      left. reflexivity. }
    assert (R5 : reachable (mkSys w0 [] [])
                   (mkSys (set_closing true w0) [WriteSend data; CloseWait] [])).
    { apply (reach_step _ _ _ R4).
      apply (caller_step (mkSys w0 [WriteSend data; CloseSignal] []) 1 CloseSignal
                         CloseWait (set_closing true w0)); [reflexivity |].
      left. reflexivity. }
    assert (R6 : reachable (mkSys w0 [] [])
                   (mkSys (mkAsyncWriter [] size false false false sink 0 FMark)
                          [WriteSend data; CloseWait] [])).
    { apply (reach_step _ _ _ R5).
      apply (goroutine_step (mkSys (set_closing true w0) [WriteSend data; CloseWait] [])).
      left. reflexivity. }
    assert (R7 : reachable (mkSys w0 [] [])
                   (mkSys (mkAsyncWriter [] size false false false sink 1 FDrain)
                          [WriteSend data; CloseWait] [])).
    { apply (reach_step _ _ _ R6).
      apply (goroutine_step (mkSys (mkAsyncWriter [] size false false false sink 0 FMark)
                                   [WriteSend data; CloseWait] [])).
      left. reflexivity. }
    assert (R8 : reachable (mkSys w0 [] [])
                   (mkSys (mkAsyncWriter [] size false false true (fst (sink_Close sink)) 1 FExit)
                          [WriteSend data; CloseWait] [])).
    { apply (reach_step _ _ _ R7).
      apply (goroutine_step (mkSys (mkAsyncWriter [] size false false false sink 1 FDrain)
                                   [WriteSend data; CloseWait] [])).
      left. reflexivity. }
    assert (R9 : reachable (mkSys w0 [] [])
                   (mkSys (mkAsyncWriter [] size false false true (fst (sink_Close sink)) 1 FExit)
                          [WriteSend data; Ret 0 None] [])).
    { apply (reach_step _ _ _ R8).
      apply (caller_step
               (mkSys (mkAsyncWriter [] size false false true (fst (sink_Close sink)) 1 FExit)
                      [WriteSend data; CloseWait] []) 1 CloseWait (Ret 0 None)
               (mkAsyncWriter [] size false false true (fst (sink_Close sink)) 1 FExit));
        [reflexivity |].
      left. reflexivity. }
    apply (reach_step _ _ _ R9).
    apply (caller_step
             (mkSys (mkAsyncWriter [] size false false true (fst (sink_Close sink)) 1 FExit)
                    [WriteSend data; Ret 0 None] []) 0 (WriteSend data) (Ret (len data) None)
             (mkAsyncWriter [data] size false false true (fst (sink_Close sink)) 1 FExit));
      [reflexivity |].
    cbn [sw call_step]. unfold ch_has_room. cbn [ch ch_cap length].
    change (Z.of_nat 0) with 0. rewrite Er. left. reflexivity.
  - intros s' Hr.
    assert (H : goroutine (sw s') = FExit
                /\ writer (sw s') = fst (sink_Close sink)
                /\ exists rest, accepted s' = data :: rest).
    { induction Hr as [| s1 s2 _ IH Hstep].
      - cbn. split; [reflexivity |]. split; [reflexivity |]. exists []. reflexivity.
      - destruct IH as (IH1 & IH2 & (rest & IH3)).
        destruct (sys_step_after_exit _ _ Hstep IH1) as (H1 & H2 & _).
        split; [exact H1 |]. split; [congruence |].
        destruct Hstep as [s0 c Hc | s0 s3 Hin]; [exists rest; exact IH3 |].
        apply sys_succs_cases in Hin as [(w' & _ & ->) | (i & c & w' & c' & _ & _ & ->)];
          cbn [accepted]; rewrite IH3; eauto. }
    destruct H as (_ & Hw & (rest & Ha)). rewrite Hw, Ha. split; reflexivity.
Qed.

(** X22. [Flush] is a barrier only for a caller that is alone.  For every
    sink, every capacity of at least two and every non-empty data, the system
    of a new writer reaches a state where one [Flush] is waiting for its
    signal, the signal is ready and a [Write] of the data has returned
    success; a second [Flush] that begins in that state can take the signal
    meant for the first and return nil while the data is still in the queue,
    in front of its own flush message, and the sink has received nothing. *)
Theorem Flush_can_return_before_a_queued_line_is_written
    (sink : Sink) (size : Z) (data : bytes) :
  2 <= size -> len data <> 0 ->
  reachable (mkSys (NewAsyncWriter sink size) [] [])
            (mkSys (mkAsyncWriter [data] size false true false sink 0 FSelect)
                   [FlushWait; Ret (len data) None] [data])
  /\ reachable (mkSys (mkAsyncWriter [data] size false true false sink 0 FSelect)
                      [FlushWait; Ret (len data) None] [data])
               (mkSys (mkAsyncWriter [data; []] size false false false sink 0 FSelect)
                      [FlushWait; Ret (len data) None; Ret 0 None] [data]).
Proof using.
  intros Hsize Hdata.
  assert (El : (len data =? 0) = false) by (apply Z.eqb_neq; exact Hdata).
  assert (E0 : (0 <? size) = true) by (apply Z.ltb_lt; lia).
  assert (E1 : (1 <? size) = true) by (apply Z.ltb_lt; lia).
  pose (w0 := NewAsyncWriter sink size).
  split.
  - assert (R1 : reachable (mkSys w0 [] []) (mkSys w0 [FlushSend] [])).
    { apply (reach_step _ (mkSys w0 [FlushEntry] [])).
      - apply (reach_step _ (mkSys w0 [] [])); [apply reach_refl |].
        apply (step_spawn (mkSys w0 [] []) FlushEntry). reflexivity.
      - apply (caller_step (mkSys w0 [FlushEntry] []) 0 FlushEntry FlushSend w0);
          [reflexivity |].
        left. reflexivity. }
    assert (R2 : reachable (mkSys w0 [] [])
                   (mkSys (mkAsyncWriter [[]] size false false false sink 0 FSelect)
                          [FlushCheck] [])).
    { apply (reach_step _ _ _ R1).
      apply (caller_step (mkSys w0 [FlushSend] []) 0 FlushSend FlushCheck
                         (mkAsyncWriter [[]] size false false false sink 0 FSelect));
        [reflexivity |].
      cbn [sw call_step]. unfold ch_has_room. cbn [w0 NewAsyncWriter ch ch_cap length done].
      change (Z.of_nat 0) with 0. rewrite E0. left. reflexivity. }
    assert (R3 : reachable (mkSys w0 [] [])
                   (mkSys (mkAsyncWriter [[]] size false false false sink 0 FSelect)
                          [FlushWait] [])).
    { apply (reach_step _ _ _ R2).
      apply (caller_step (mkSys (mkAsyncWriter [[]] size false false false sink 0 FSelect)
                                [FlushCheck] []) 0 FlushCheck FlushWait
                         (mkAsyncWriter [[]] size false false false sink 0 FSelect));
        [reflexivity |].
      left. reflexivity. }
    assert (R4 : reachable (mkSys w0 [] [])
                   (mkSys (mkAsyncWriter [] size false false false sink 0 FSignal)
                          [FlushWait] [])).
    { apply (reach_step _ _ _ R3).
      apply (goroutine_step (mkSys (mkAsyncWriter [[]] size false false false sink 0 FSelect)
                                   [FlushWait] [])).
      left. reflexivity. }
    assert (R5 : reachable (mkSys w0 [] [])
                   (mkSys (mkAsyncWriter [] size false true false sink 0 FSelect)
                          [FlushWait] [])).
    { apply (reach_step _ _ _ R4).
      apply (goroutine_step (mkSys (mkAsyncWriter [] size false false false sink 0 FSignal)
                                   [FlushWait] [])).
      left. reflexivity. }
    assert (R6 : reachable (mkSys w0 [] [])
                   (mkSys (mkAsyncWriter [] size false true false sink 0 FSelect)
                          [FlushWait; WriteEntry data] [])).
    { apply (reach_step _ _ _ R5).
      apply (step_spawn (mkSys (mkAsyncWriter [] size false true false sink 0 FSelect)
                               [FlushWait] []) (WriteEntry data)).
      reflexivity. }
    assert (R7 : reachable (mkSys w0 [] [])
                   (mkSys (mkAsyncWriter [] size false true false sink 0 FSelect)
                          [FlushWait; WriteSend data] [])).
    { apply (reach_step _ _ _ R6).
      apply (caller_step (mkSys (mkAsyncWriter [] size false true false sink 0 FSelect)
                                [FlushWait; WriteEntry data] []) 1 (WriteEntry data)
                         (WriteSend data)
                         (mkAsyncWriter [] size false true false sink 0 FSelect));
        [reflexivity |].
      cbn [sw call_step]. rewrite El. left. reflexivity. }
    apply (reach_step _ _ _ R7).
    apply (caller_step (mkSys (mkAsyncWriter [] size false true false sink 0 FSelect)
                              [FlushWait; WriteSend data] []) 1 (WriteSend data)
                       (Ret (len data) None)
                       (mkAsyncWriter [data] size false true false sink 0 FSelect));
      [reflexivity |].
    cbn [sw call_step]. unfold ch_has_room. cbn [ch ch_cap length].
    change (Z.of_nat 0) with 0. rewrite E0. left. reflexivity.
  - pose (w1 := mkAsyncWriter [data] size false true false sink 0 FSelect).
    pose (w2 := mkAsyncWriter [data; []] size false true false sink 0 FSelect).
    assert (R1 : reachable (mkSys w1 [FlushWait; Ret (len data) None] [data])
                   (mkSys w1 [FlushWait; Ret (len data) None; FlushSend] [data])).
    { apply (reach_step _ (mkSys w1 [FlushWait; Ret (len data) None; FlushEntry] [data])).
      - apply (reach_step _ (mkSys w1 [FlushWait; Ret (len data) None] [data]));
          [apply reach_refl |].
        apply (step_spawn (mkSys w1 [FlushWait; Ret (len data) None] [data]) FlushEntry).
        reflexivity.
      - apply (caller_step (mkSys w1 [FlushWait; Ret (len data) None; FlushEntry] [data])
                           2 FlushEntry FlushSend w1); [reflexivity |].
        left. reflexivity. }
    assert (R2 : reachable (mkSys w1 [FlushWait; Ret (len data) None] [data])
                   (mkSys w2 [FlushWait; Ret (len data) None; FlushCheck] [data])).
    { apply (reach_step _ _ _ R1).
      apply (caller_step (mkSys w1 [FlushWait; Ret (len data) None; FlushSend] [data])
                         2 FlushSend FlushCheck w2); [reflexivity |].
      cbn [sw call_step]. unfold ch_has_room. cbn [w1 ch ch_cap length done].
      change (Z.of_nat 1) with 1. rewrite E1. left. reflexivity. }
    assert (R3 : reachable (mkSys w1 [FlushWait; Ret (len data) None] [data])
                   (mkSys w2 [FlushWait; Ret (len data) None; FlushWait] [data])).
    { apply (reach_step _ _ _ R2).
      apply (caller_step (mkSys w2 [FlushWait; Ret (len data) None; FlushCheck] [data])
                         2 FlushCheck FlushWait w2); [reflexivity |].
      left. reflexivity. }
    apply (reach_step _ _ _ R3).
    apply (caller_step (mkSys w2 [FlushWait; Ret (len data) None; FlushWait] [data])
                       2 FlushWait (Ret 0 None)
                       (mkAsyncWriter [data; []] size false false false sink 0 FSelect));
      [reflexivity |].
    left. reflexivity.
Qed.

(** *** Further properties of the context carrier and of the levels *)

Lemma findMoreInfo_WithMoreInfo (ctx : Context) (info : list Info) :
  findMoreInfo (WithMoreInfo ctx info) = findMoreInfo ctx ++ info.
Proof.
  unfold WithMoreInfo, findMoreInfo. destruct info as [| x info].
  - simpl. rewrite app_nil_r. reflexivity.
  - simpl. destruct (Value_keyLogMoreInfo ctx); reflexivity.
Qed.

Lemma tag_WithMoreInfo (ctx : Context) (info : list Info) :
  tag (WithMoreInfo ctx info) = tag ctx.
Proof. unfold WithMoreInfo, tag. destruct info; reflexivity. Qed.

(** X7. A tag stored with [WithTag] is the tag read back, whatever the
    context held before; a later [WithTag] replaces it; layers added on top
    by [WithMoreInfo], any number of them, or by other packages leave it
    readable; and storing a tag does not change the pairs of the context. *)
Theorem tag_reads_back_latest_WithTag
    (ctx : Context) (t t' : string) (batches : list (list Info)) :
  tag (WithTag ctx t) = t
  /\ tag (WithTag (WithTag ctx t) t') = t'
  /\ tag (fold_left WithMoreInfo batches (WithTag ctx t)) = t
  /\ tag (otherLayer (WithTag ctx t)) = t
  /\ findMoreInfo (WithTag ctx t) = findMoreInfo ctx.
Proof.
  split; [reflexivity |]. split; [reflexivity |]. split; [| split; reflexivity].
  generalize (WithTag ctx t), (eq_refl : tag (WithTag ctx t) = t).
  induction batches as [| b batches IH]; intros c Hc; [exact Hc |].
  cbn [fold_left]. apply IH. rewrite tag_WithMoreInfo. exact Hc.
Qed.

(** X8. Pairs accumulate over any number of [WithMoreInfo] calls: after the
    calls with the batches [batches], in that order, the context holds the
    pairs it had, followed by the pairs of every batch in call order; empty
    batches add nothing, and a tag stored in between changes nothing. *)
Theorem WithMoreInfo_accumulates_batches
    (ctx : Context) (batches batches' : list (list Info)) (t : string) :
  findMoreInfo (fold_left WithMoreInfo batches ctx) = findMoreInfo ctx ++ concat batches
  /\ findMoreInfo (fold_left WithMoreInfo batches' (WithTag (fold_left WithMoreInfo batches ctx) t))
     = findMoreInfo ctx ++ concat batches ++ concat batches'
  /\ (concat batches = [] -> fold_left WithMoreInfo batches ctx = ctx).
Proof.
  assert (H : forall bs c,
             findMoreInfo (fold_left WithMoreInfo bs c) = findMoreInfo c ++ concat bs).
  { induction bs as [| b bs IH]; intros c; cbn [fold_left concat].
    - rewrite app_nil_r. reflexivity.
    - rewrite IH, findMoreInfo_WithMoreInfo, <- app_assoc. reflexivity. }
  split; [apply H |]. split.
  - rewrite H. change (findMoreInfo (WithTag ?c t)) with (findMoreInfo c).
    rewrite H, <- app_assoc. reflexivity.
  - revert ctx. induction batches as [| b bs IH]; intros c Hnil; [reflexivity |].
    cbn [concat] in Hnil. apply app_eq_nil in Hnil as [-> Hbs].
    cbn [fold_left]. change (WithMoreInfo c []) with c. apply IH. exact Hbs.
Qed.

(** X9. The level name that [log] prints parses back to the level: for each
    of the six levels, [parseLevel] of the name written between the first
    brackets of a line is that level.  A value that is none of the six levels
    is printed as UNKNOWN. *)
Theorem levelName_parses_back (s : Severity) (level : Level) :
  parseLevel (levelName (level_of s)) = level_of s
  /\ ((forall s', level <> level_of s') -> levelName level = "UNKNOWN"%string).
Proof.
  split; [destruct s; reflexivity |].
  intros Hno. unfold levelName.
  destruct (Z.eqb_spec level LogDebug) as [E | _]; [destruct (Hno SDebug E) |].
  destruct (Z.eqb_spec level LogInfo) as [E | _]; [destruct (Hno SInfo E) |].
  destruct (Z.eqb_spec level LogTrace) as [E | _]; [destruct (Hno STrace E) |].
  destruct (Z.eqb_spec level LogWarn) as [E | _]; [destruct (Hno SWarn E) |].
  destruct (Z.eqb_spec level LogError) as [E | _]; [destruct (Hno SError E) |].
  destruct (Z.eqb_spec level LogFatal) as [E | _]; [destruct (Hno SFatal E) |].
  reflexivity.
Qed.

(** *** Further properties of [log] *)

Lemma set_writers_same (l : logger) : set_writers (writers l) l = l.
Proof using. without_env. destruct l; reflexivity. Qed.

Lemma imap_insert_at {A : Type} (f : A -> A) (i : nat) (ws : list A) (w : A) :
  ws !! i = Some w ->
  <[i := f w]> ws = imap (fun j x => if (i =? j)%nat then f x else x) ws.
Proof using.
  without_env. intros Hi. apply list_eq. intros k.
  rewrite list_lookup_imap.
  destruct (Nat.eqb_spec i k) as [<- | Hne].
  - rewrite list_lookup_insert_eq by (apply lookup_lt_is_Some; eauto).
    rewrite Hi. reflexivity.
  - rewrite list_lookup_insert_ne by exact Hne.
    destruct (ws !! k) as [x |]; reflexivity.
Qed.

Lemma imap_pointwise {A : Type} (f g : nat -> A -> A) (ws : list A) :
  (forall i w, ws !! i = Some w -> f i w = g i w) -> imap f ws = imap g ws.
Proof using.
  without_env. intros H. apply list_eq. intros k. rewrite !list_lookup_imap.
  destruct (ws !! k) as [x |] eqn:E; [| reflexivity].
  cbn [fmap option_fmap option_map]. rewrite (H k x E). reflexivity.
Qed.

Lemma imap_imap_at {A : Type} (f g : nat -> A -> A) (ws : list A) :
  imap g (imap f ws) = imap (fun i w => g i (f i w)) ws.
Proof using.
  without_env. apply list_eq. intros k. rewrite !list_lookup_imap.
  destruct (ws !! k) as [x |]; reflexivity.
Qed.

Lemma imap_same {A : Type} (ws : list A) : imap (fun _ w => w) ws = ws.
Proof using.
  without_env. apply list_eq. intros k. rewrite list_lookup_imap.
  destruct (ws !! k); reflexivity.
Qed.

Lemma IoWriter_eqb_eq (a b : IoWriter) : IoWriter_eqb a b = true <-> a = b.
Proof using.
  without_env. destruct a as [| | i], b as [| | j]; cbn [IoWriter_eqb];
    try (split; [discriminate | discriminate]); try (split; reflexivity).
  rewrite Nat.eqb_eq. split; [intros ->; reflexivity | intros [= ->]; reflexivity].
Qed.

Lemma io_Write_logger (target : IoWriter) (ln : bytes) (s : Std * logger) :
  snd (io_Write target ln s)
  = set_writers (imap (fun i w => if IoWriter_eqb target (asyncWriter i)
                                  then fst (AsyncWriter_Write w ln) else w)
                      (writers (snd s))) (snd s).
Proof using.
  without_env. destruct s as [std l]. cbn [snd].
  destruct target as [| | i]; cbn [io_Write IoWriter_eqb snd fst].
  - rewrite imap_same, set_writers_same. reflexivity.
  - rewrite imap_same, set_writers_same. reflexivity.
  - destruct (writers l !! i) as [w |] eqn:Ei; cbn [snd].
    + rewrite (imap_insert_at (fun w => fst (AsyncWriter_Write w ln)) i _ w Ei). reflexivity.
    + rewrite (imap_pointwise _ (fun _ w => w)).
      * rewrite imap_same, set_writers_same. reflexivity.
      * intros k w Hk. destruct (Nat.eqb_spec i k) as [-> | _]; [congruence | reflexivity].
Qed.

Lemma std_extends_refl (ln : bytes) (std : Std) : std_extends ln std std.
Proof using.
  without_env. split; [reflexivity |]. split; [reflexivity |].
  exists 0%nat, 0%nat. cbn [repeat]. rewrite !app_nil_r. split; reflexivity.
Qed.

Lemma repeat_snoc (ln : bytes) (k : nat) : repeat ln k ++ [ln] = repeat ln (S k).
Proof using.
  without_env. induction k as [| k IH]; [reflexivity |].
  cbn [repeat app]. rewrite IH. reflexivity.
Qed.

Lemma std_extends_stdout (ln : bytes) (std std2 : Std) :
  std_extends ln std std2 -> std_extends ln std (os_Stdout_Write std2 ln).
Proof using.
  without_env. intros (H1 & H2 & k1 & k2 & H3 & H4).
  split; [exact H1 |]. split; [exact H2 |]. exists (S k1), k2.
  cbn [os_Stdout_Write stdout stderr]. rewrite H3, <- app_assoc, repeat_snoc.
  split; [reflexivity | exact H4].
Qed.

Lemma std_extends_stderr (ln : bytes) (std std2 : Std) :
  std_extends ln std std2 -> std_extends ln std (os_Stderr_Write std2 ln).
Proof using.
  without_env. intros (H1 & H2 & k1 & k2 & H3 & H4).
  split; [exact H1 |]. split; [exact H2 |]. exists k1, (S k2).
  cbn [os_Stderr_Write stdout stderr]. rewrite H4, <- app_assoc, repeat_snoc.
  split; [exact H3 | reflexivity].
Qed.

Lemma io_Write_std (target : IoWriter) (ln : bytes) (std : Std) (s : Std * logger) :
  std_extends ln std (fst s) -> std_extends ln std (fst (io_Write target ln s)).
Proof using.
  without_env. intros H. destruct target as [| | i]; cbn [io_Write fst].
  - apply std_extends_stdout. exact H.
  - apply std_extends_stderr. exact H.
  - destruct (writers (snd s) !! i); exact H.
Qed.

Lemma rendered_parts (l : logger) ctx level format args now caller :
  snd (fst (rendered l ctx level format args now caller))
  = set_pcCache (cache_after l level caller) l.
Proof.
  unfold rendered, cache_after, log_prefix.
  destruct (level =? logPrint); cbn [negb].
  - destruct l; reflexivity.
  - destruct caller as [pc |]; [destruct (pcCache l !! pc) |]; destruct l; reflexivity.
Qed.

Lemma log_normal_form (std : Std) (l : logger) ctx level format args now caller :
  (maxLevel l <? level) = false ->
  exists std2 calls,
    std_extends (line_of l ctx level format args now caller) std std2
    /\ log (std, l) ctx level format args now caller
       = if level =? LogFatal then
           match logger_Flush
                   (set_writers
                      (writers_after l level (line_of l ctx level format args now caller))
                      (set_pcCache (cache_after l level caller) l)) with
           | (l3, Some _) =>
               ((std2, l3), calls, Panics (snd (rendered l ctx level format args now caller)))
           | (l3, None) => ((std2, l3), calls, Hangs)
           end
         else ((std2,
                set_writers
                  (writers_after l level (line_of l ctx level format args now caller))
                  (set_pcCache (cache_after l level caller) l)),
               calls, Returns).
Proof.
  intros Hgate. unfold log, line_of, truncated, writers_after, targets. cbn [snd fst].
  rewrite Hgate.
  pose proof (rendered_parts l ctx level format args now caller) as Hl1.
  destruct (rendered l ctx level format args now caller) as [[buf l1] pctx].
  cbn [fst snd] in *. subst l1.
  set (ln := if maxLogLine <? len buf then firstn (Z.to_nat maxLogLine) buf else buf).
  set (l1 := set_pcCache (cache_after l level caller) l).
  destruct ((errorLevel l <? level) || (level =? logPrint)) eqn:Eb; cbn [negb andb].
  - set (s2 := io_Write (allLogger l) ln (std, l1)).
    assert (Hs2 : snd s2 = set_writers
                   (imap (fun i w => if IoWriter_eqb (allLogger l) (asyncWriter i) || false
                                     then fst (AsyncWriter_Write w ln) else w) (writers l)) l1).
    { unfold s2. rewrite io_Write_logger. cbn [snd].
      rewrite (imap_pointwise _ (fun i w => if IoWriter_eqb (allLogger l) (asyncWriter i) || false
                                            then fst (AsyncWriter_Write w ln) else w));
        [reflexivity |].
      intros i w _. rewrite orb_false_r. reflexivity. }
    assert (Hstd : std_extends ln std (fst s2)).
    { unfold s2. apply io_Write_std. apply std_extends_refl. }
    clearbody s2. destruct s2 as [std2 l2]. cbn [fst snd] in *. subst l2.
    destruct (isStdoutTerminal std2).
    + exists (os_Stdout_Write std2 ln), [(allLogger l, ln)].
      split; [apply std_extends_stdout; exact Hstd | reflexivity].
    + exists std2, [(allLogger l, ln)].
      split; [exact Hstd | reflexivity].
  - set (s2 := io_Write (allLogger l) ln (std, l1)).
    assert (Hs2 : snd s2 = set_writers
                   (imap (fun i w => if IoWriter_eqb (allLogger l) (asyncWriter i)
                                     then fst (AsyncWriter_Write w ln) else w) (writers l)) l1).
    { unfold s2. rewrite io_Write_logger. reflexivity. }
    assert (Hstd : std_extends ln std (fst s2)).
    { unfold s2. apply io_Write_std. apply std_extends_refl. }
    destruct (IoWriter_eqb (wfLogger l) (allLogger l)) eqn:Ewf; cbn [negb].
    + apply IoWriter_eqb_eq in Ewf.
      assert (Hs2' : snd s2 = set_writers
                   (imap (fun i w => if IoWriter_eqb (allLogger l) (asyncWriter i)
                                        || IoWriter_eqb (wfLogger l) (asyncWriter i)
                                     then fst (AsyncWriter_Write w ln) else w) (writers l)) l1).
      { rewrite Hs2, Ewf. f_equal. apply imap_pointwise. intros i w _.
        rewrite orb_diag. reflexivity. }
      clear Hs2. clearbody s2. destruct s2 as [std2 l2]. cbn [fst snd] in *. subst l2.
      destruct (isStderrTerminal std2).
      * exists (os_Stderr_Write std2 ln), [(allLogger l, ln)].
        split; [apply std_extends_stderr; exact Hstd | reflexivity].
      * exists std2, [(allLogger l, ln)].
        split; [exact Hstd | reflexivity].
    + set (s3 := io_Write (wfLogger l) ln s2).
      assert (Hs3 : snd s3 = set_writers
                   (imap (fun i w => if IoWriter_eqb (allLogger l) (asyncWriter i)
                                        || IoWriter_eqb (wfLogger l) (asyncWriter i)
                                     then fst (AsyncWriter_Write w ln) else w) (writers l)) l1).
      { unfold s3. rewrite io_Write_logger, Hs2. cbn [writers set_writers].
        rewrite imap_imap_at. unfold set_writers. cbn [maxLevel errorLevel pkgPrefix allLogger
          wfLogger files writers pcCache]. f_equal. apply imap_pointwise. intros i w _.
        destruct (IoWriter_eqb (allLogger l) (asyncWriter i)) eqn:E1;
          destruct (IoWriter_eqb (wfLogger l) (asyncWriter i)) eqn:E2; cbn [orb]; try reflexivity.
        apply IoWriter_eqb_eq in E1, E2. rewrite E1, E2 in Ewf.
        cbn [IoWriter_eqb] in Ewf. rewrite Nat.eqb_refl in Ewf. discriminate. }
      assert (Hstd3 : std_extends ln std (fst s3)).
      { unfold s3. apply io_Write_std. exact Hstd. }
      clearbody s3. destruct s3 as [std3 l3]. cbn [fst snd] in *. subst l3.
      destruct (isStderrTerminal std3).
      * exists (os_Stderr_Write std3 ln), [(allLogger l, ln); (wfLogger l, ln)].
        split; [apply std_extends_stderr; exact Hstd3 | reflexivity].
      * exists std3, [(allLogger l, ln); (wfLogger l, ln)].
        split; [exact Hstd3 | reflexivity].
Qed.

Lemma fold_pairs (infos : list Info) (buf : bytes) :
  fold_left (fun buf info => buf ++ B (Key info) ++ B "=" ++ fmt_v (Value info) ++ logSeparator)
            infos buf
  = buf ++ concat (map pair_text infos).
Proof.
  revert buf. induction infos as [| i infos IH]; intros buf; cbn [fold_left map concat].
  - rewrite app_nil_r. reflexivity.
  - rewrite IH. unfold pair_text. rewrite <- !app_assoc. reflexivity.
Qed.

(** X10. The layout of a line.  A record of a level other than Print is
    rendered as the level name in brackets, the time stamp in brackets, the
    call-site text (taken from the cache when the program counter is cached,
    absent when there is no caller), a space, the tag of the context or a
    star when the tag is empty, the separator, then for each pair of the
    context, in order, key, equals sign, value and separator, then the
    formatted message and a newline.  A Print record is the formatted message
    and a newline, whatever the context, the time and the caller are, and it
    leaves the logger as it was. *)
Theorem line_layout (l : logger) ctx level format args now caller :
  (level <> logPrint ->
   fst (fst (rendered l ctx level format args now caller))
   = B "[" ++ B (levelName level) ++ B "]" ++ B "[" ++ B now ++ B "]"
     ++ callsite l caller
     ++ B " " ++ B (if String.eqb (tag ctx) "" then "*"%string else tag ctx) ++ logSeparator
     ++ concat (map pair_text (findMoreInfo ctx))
     ++ Sprintf format args ++ [x0a])
  /\ rendered l ctx logPrint format args now caller = (Sprintf format args ++ [x0a], l, ""%string).
Proof.
  split; [| reflexivity].
  intros Hlevel. apply Z.eqb_neq in Hlevel.
  unfold rendered, log_prefix, callsite. rewrite Hlevel. cbn [negb].
  destruct caller as [pc |]; [destruct (pcCache l !! pc) as [st |] |];
    cbn [fst snd]; rewrite fold_pairs; rewrite <- ?app_assoc; reflexivity.
Qed.

Lemma each_writer_length f :
  forall ws err, length (fst (each_writer f ws err)) = length ws.
Proof using.
  without_env. induction ws as [| w ws IH]; intros err; [reflexivity |].
  cbn [each_writer]. destruct (f w) as [w' [e |]]; cbn [fst length]; [| reflexivity].
  rewrite IH. reflexivity.
Qed.

Lemma cache_after_grows (l : logger) (level : Level) (caller : option Z) :
  (forall pc st, pcCache l !! pc = Some st -> cache_after l level caller !! pc = Some st)
  /\ (forall pc, pcCache l !! pc = None -> cache_after l level caller !! pc <> None ->
        caller = Some pc /\ cache_after l level caller !! pc = Some (parsePC l pc)).
Proof.
  unfold cache_after. destruct (level =? logPrint).
  { split; [intros pc st H; exact H | intros pc H1 H2; contradiction]. }
  destruct caller as [pc0 |].
  2: { split; [intros pc st H; exact H | intros pc H1 H2; contradiction]. }
  destruct (pcCache l !! pc0) as [st0 |] eqn:E0.
  { split; [intros pc st H; exact H | intros pc H1 H2; contradiction]. }
  split.
  - intros pc st H. destruct (Z.eq_dec pc0 pc) as [-> | Hne]; [congruence |].
    rewrite lookup_insert_ne by exact Hne. exact H.
  - intros pc H1 H2. destruct (Z.eq_dec pc0 pc) as [-> | Hne].
    + split; [reflexivity |]. rewrite lookup_insert_eq. reflexivity.
    + rewrite lookup_insert_ne in H2 by exact Hne. contradiction.
Qed.

(** X11. What a call of [log] leaves alone.  Whatever the record, the
    thresholds, the package prefix, the two sinks, the files and the number
    of async writers of the logger are the same after the call; the cache of
    call sites keeps every entry it had, and the only entry it can gain is
    the one [parsePC] makes for the caller of this record; the terminal
    streams keep what they held, followed by copies of the line of this
    record and nothing else. *)
Theorem log_keeps_configuration_and_cache
    (std : Std) (l : logger) ctx level format args now caller :
  maxLevel (snd (fst (fst (log (std, l) ctx level format args now caller)))) = maxLevel l
  /\ errorLevel (snd (fst (fst (log (std, l) ctx level format args now caller)))) = errorLevel l
  /\ pkgPrefix (snd (fst (fst (log (std, l) ctx level format args now caller)))) = pkgPrefix l
  /\ allLogger (snd (fst (fst (log (std, l) ctx level format args now caller)))) = allLogger l
  /\ wfLogger (snd (fst (fst (log (std, l) ctx level format args now caller)))) = wfLogger l
  /\ files (snd (fst (fst (log (std, l) ctx level format args now caller)))) = files l
  /\ length (writers (snd (fst (fst (log (std, l) ctx level format args now caller)))))
     = length (writers l)
  /\ (forall pc st, pcCache l !! pc = Some st ->
        pcCache (snd (fst (fst (log (std, l) ctx level format args now caller)))) !! pc = Some st)
  /\ (forall pc, pcCache l !! pc = None ->
        pcCache (snd (fst (fst (log (std, l) ctx level format args now caller)))) !! pc <> None ->
        caller = Some pc
        /\ pcCache (snd (fst (fst (log (std, l) ctx level format args now caller)))) !! pc
           = Some (parsePC l pc))
  /\ std_extends (line_of l ctx level format args now caller) std
       (fst (fst (fst (log (std, l) ctx level format args now caller)))).
Proof.
  destruct (maxLevel l <? level) eqn:Hgate.
  { rewrite (log_gated (std, l) ctx level format args now caller Hgate). cbn [fst snd].
    repeat (split; [reflexivity |]).
    split; [intros pc st H; exact H |]. split; [intros pc H1 H2; contradiction |].
    apply std_extends_refl. }
  destruct (log_normal_form std l ctx level format args now caller Hgate)
    as (std2 & calls & Hstd & ->).
  destruct (cache_after_grows l level caller) as [Hc1 Hc2].
  assert (Hlen : length (writers_after l level (line_of l ctx level format args now caller))
                 = length (writers l)).
  { unfold writers_after. apply length_imap. }
  destruct (level =? LogFatal).
  - unfold logger_Flush. cbn [fst snd writers set_writers set_pcCache].
    match goal with
    | |- context [each_writer ?f ?ws ?e] =>
        pose proof (each_writer_length f ws e) as Hl2;
        destruct (each_writer f ws e) as [ws' [e' |]]
    end;
      cbn [fst snd maxLevel errorLevel pkgPrefix allLogger wfLogger files writers pcCache] in *;
      (repeat (split; [reflexivity |]));
      (split; [etransitivity; [exact Hl2 | exact Hlen] |]);
      (split; [exact Hc1 |]); (split; [exact Hc2 | exact Hstd]).
  - cbn [fst snd maxLevel errorLevel pkgPrefix allLogger wfLogger files writers pcCache
         set_writers set_pcCache].
    repeat (split; [reflexivity |]).
    split; [exact Hlen |]. split; [exact Hc1 |]. split; [exact Hc2 | exact Hstd].
Qed.

(** X12. The logger used before [Init], or made for no configuration, has
    no file: a record of any level from Print to Debug is written to
    standard output, once, and a second time when standard output is a
    terminal; nothing is written to standard error, whatever the level; and a
    Fatal record panics right after, there being nothing to flush. *)
Theorem unconfigured_logger_writes_to_stdout_only
    (std : Std) (cache : gmap Z stack) ctx level format args now caller :
  0 <= level -> level <= logMax ->
  stderr (fst (fst (fst (log (std, set_pcCache cache (newLogger None))
                             ctx level format args now caller)))) = stderr std
  /\ stdout (fst (fst (fst (log (std, set_pcCache cache (newLogger None))
                                ctx level format args now caller))))
     = stdout std
       ++ (if isStdoutTerminal std
           then [line_of (set_pcCache cache (newLogger None)) ctx level format args now caller;
                 line_of (set_pcCache cache (newLogger None)) ctx level format args now caller]
           else [line_of (set_pcCache cache (newLogger None)) ctx level format args now caller])
  /\ writers (snd (fst (fst (log (std, set_pcCache cache (newLogger None))
                                 ctx level format args now caller)))) = []
  /\ snd (log (std, set_pcCache cache (newLogger None)) ctx level format args now caller)
     = (if level =? LogFatal
        then Panics (snd (rendered (set_pcCache cache (newLogger None))
                                   ctx level format args now caller))
        else Returns).
Proof.
  intros H0 Hmax.
  set (l := set_pcCache cache (newLogger None)).
  unfold log, line_of, truncated. cbn [snd fst].
  assert (Hgate : (maxLevel l <? level) = false) by (apply Z.ltb_ge; exact Hmax).
  assert (Hroute : ((errorLevel l <? level) || (level =? logPrint)) = true).
  { change (errorLevel l) with 0. unfold logPrint.
    destruct (Z.ltb_spec 0 level) as [_ | Hle]; [reflexivity |].
    assert (level = 0) as -> by lia. reflexivity. }
  rewrite Hgate, Hroute.
  pose proof (rendered_parts l ctx level format args now caller) as Hl1.
  destruct (rendered l ctx level format args now caller) as [[buf l1] pctx].
  cbn [fst snd] in *. subst l1.
  change (allLogger l) with dummyStdout. cbn [io_Write fst snd os_Stdout_Write isStdoutTerminal].
  subst l. unfold logger_Flush.
  destruct (isStdoutTerminal std); cbn [fst snd os_Stdout_Write stdout stderr];
    destruct (level =? LogFatal);
    cbn [fst snd stdout stderr writers set_pcCache set_writers newLogger each_writer
         os_Stdout_Write];
    rewrite <- ?app_assoc; repeat split; reflexivity.
Qed.

(** C2 on the logger in use before [Init], made by [newLogger] for no
    configuration.  Its error threshold is 0 and its error sink is standard
    error, distinct from its primary sink, standard output.  A record of any
    of the six severities, Warn, Error and Fatal among them, is written to
    the primary sink only: the one sink call is to standard output, the error
    sink is never called, standard error receives nothing, and standard
    output receives the line (twice when it is a terminal). *)
Theorem unconfigured_logger_never_writes_error_sink
    (std : Std) ctx (S : Severity) format args now caller :
  errorLevel (newLogger None) = 0
  /\ allLogger (newLogger None) = dummyStdout
  /\ wfLogger (newLogger None) = dummyStderr
  /\ calls_of (log (std, newLogger None) ctx (level_of S) format args now caller)
     = [(dummyStdout, line_of (newLogger None) ctx (level_of S) format args now caller)]
  /\ ~ In (wfLogger (newLogger None),
           line_of (newLogger None) ctx (level_of S) format args now caller)
          (calls_of (log (std, newLogger None) ctx (level_of S) format args now caller))
  /\ stderr (fst (fst (fst (log (std, newLogger None) ctx (level_of S)
                                format args now caller)))) = stderr std
  /\ stdout (fst (fst (fst (log (std, newLogger None) ctx (level_of S)
                                format args now caller))))
     = stdout std
       ++ (if isStdoutTerminal std
           then [line_of (newLogger None) ctx (level_of S) format args now caller;
                 line_of (newLogger None) ctx (level_of S) format args now caller]
           else [line_of (newLogger None) ctx (level_of S) format args now caller]).
Proof.
  assert (Hcalls : calls_of (log (std, newLogger None) ctx (level_of S) format args now caller)
                   = [(dummyStdout,
                       line_of (newLogger None) ctx (level_of S) format args now caller)]).
  { rewrite log_calls. destruct S; reflexivity. }
  split; [reflexivity |]. split; [reflexivity |]. split; [reflexivity |].
  split; [exact Hcalls |]. split.
  { rewrite Hcalls. intros [H | []]. discriminate H. }
  set (l := newLogger None).
  unfold log, line_of, truncated. cbn [snd fst].
  assert (Hgate : (maxLevel l <? level_of S) = false) by (destruct S; reflexivity).
  assert (Hroute : ((errorLevel l <? level_of S) || (level_of S =? logPrint)) = true)
    by (destruct S; reflexivity).
  rewrite Hgate, Hroute.
  pose proof (rendered_parts l ctx (level_of S) format args now caller) as Hl1.
  destruct (rendered l ctx (level_of S) format args now caller) as [[buf l1] pctx].
  cbn [fst snd] in *. subst l1.
  change (allLogger l) with dummyStdout. cbn [io_Write fst snd os_Stdout_Write isStdoutTerminal].
  subst l. unfold logger_Flush.
  destruct (isStdoutTerminal std); cbn [fst snd os_Stdout_Write stdout stderr];
    destruct (level_of S =? LogFatal);
    cbn [fst snd stdout stderr writers set_pcCache set_writers newLogger each_writer
         os_Stdout_Write];
    rewrite <- ?app_assoc; repeat split; reflexivity.
Qed.

(** *** Further properties of the logger and its writers *)

Lemma each_writer_map f :
  forall ws err,
    (forall w, In w ws -> exists r, snd (f w) = Some r) ->
    fst (each_writer f ws err) = map (fun w => fst (f w)) ws.
Proof using.
  without_env. induction ws as [| w ws IH]; intros err Hret; [reflexivity |].
  cbn [each_writer map]. destruct (Hret w (or_introl eq_refl)) as [r Hr].
  destruct (f w) as [w' [e |]]; cbn [snd] in Hr; [| discriminate].
  cbn [fst]. rewrite IH; [reflexivity |].
  intros w0 Hin. apply Hret. right. exact Hin.
Qed.

Lemma keep_last_nil (err : option error) (n : nat) :
  keep_last err (repeat None n) = err.
Proof using.
  without_env. unfold keep_last. induction n as [| n IH]; [reflexivity |]. exact IH.
Qed.

Lemma keep_last_same (e : error) (err : option error) (n : nat) :
  keep_last err (repeat (Some e) (S n)) = Some e.
Proof using.
  without_env. unfold keep_last. cbn [repeat fold_left]. clear err.
  induction n as [| n IH]; [reflexivity |]. exact IH.
Qed.

Lemma map_const_repeat {A B : Type} (f : A -> B) (b : B) (ws : list A) :
  (forall w, In w ws -> f w = b) -> map f ws = repeat b (length ws).
Proof using.
  without_env. induction ws as [| w ws IH]; intros H; [reflexivity |].
  cbn [map length repeat]. rewrite (H w (or_introl eq_refl)), IH; [reflexivity |].
  intros w0 Hin. apply H. right. exact Hin.
Qed.

Lemma lookup_map {A B : Type} (f : A -> B) (ws : list A) (i : nat) :
  map f ws !! i = f <$> (ws !! i).
Proof using.
  without_env. revert i. induction ws as [| w ws IH]; intros [| i]; try reflexivity.
  exact (IH i).
Qed.

Lemma is_line_queue (q : list bytes) :
  forallb is_line q = true -> lines q = q /\ sentinels q = 0%nat.
Proof using.
  without_env. induction q as [| d q IH]; intros H; [split; reflexivity |].
  cbn [forallb] in H. apply andb_true_iff in H as [Hd Hq].
  destruct (IH Hq) as [IH1 IH2]. unfold lines, sentinels in *.
  cbn [List.filter]. rewrite Hd. cbn [negb]. rewrite IH1. split; [reflexivity | exact IH2].
Qed.

Lemma AsyncWriter_Flush_closed (w : AsyncWriter) :
  isClosed w = true -> AsyncWriter_Flush w = (w, Some (Some errAsyncWriterClosed)).
Proof using.
  without_env. intros Hcl. unfold AsyncWriter_Flush, call_fuel.
  replace (3 * length (ch w) + 16)%nat with (S (S (3 * length (ch w) + 14))) by lia.
  rewrite drive_unfold. cbn [call_step]. rewrite Hcl. rewrite drive_unfold. reflexivity.
Qed.

Lemma Write_idle (w : AsyncWriter) (ln : bytes) :
  idle_open w -> is_line ln = true ->
  idle_open (fst (AsyncWriter_Write w ln))
  /\ writer (fst (AsyncWriter_Write w ln)) = writer w
  /\ ch (fst (AsyncWriter_Write w ln))
     = ch w ++ (if Z.of_nat (length (ch w)) <? ch_cap w then [ln] else []).
Proof using.
  without_env. intros (Hg & Hz & Hcl & Hd & Hf & Hq & Hcap & Hlen) Hln.
  unfold AsyncWriter_Write, isClosed, ch_has_room.
  unfold is_line in Hln. apply negb_true_iff in Hln. rewrite Hln, Hz.
  change (negb (0 =? 0)) with false. cbv iota.
  destruct (Z.ltb_spec (Z.of_nat (length (ch w))) (ch_cap w)) as [Hroom | Hfull]; cbn [fst].
  - split; [| split; reflexivity].
    unfold idle_open. cbn [set_ch ch ch_cap closing flushed done writer closed goroutine].
    rewrite forallb_app, Hq. cbn [forallb]. unfold is_line. rewrite Hln.
    rewrite length_app. cbn [length negb andb].
    repeat (split; [assumption || reflexivity |]). lia.
  - rewrite app_nil_r. split; [| split; reflexivity].
    unfold idle_open. repeat (split; [assumption |]). exact Hlen.
Qed.

Lemma line_of_is_line (l : logger) ctx level format args now caller :
  is_line (line_of l ctx level format args now caller) = true.
Proof.
  pose proof (line_of_nonempty l ctx level format args now caller) as H.
  unfold is_line. apply negb_true_iff, Z.eqb_neq. lia.
Qed.

(** X14. [Fatalf] writes before it panics.  On a logger whose writers are
    open and not in use by another call, a Fatal record that passes the
    threshold ends in a panic, never in a return, and when it panics every
    writer has been flushed: its queue is empty, its sink has received every
    line that was queued, in order, followed by the line of this record when
    the writer is a target of the record and had room for it; no sink has
    been closed and every writer is open and idle again. *)
Theorem Fatalf_flushes_every_writer_then_panics
    (std : Std) (l : logger) ctx format args now caller :
  Forall idle_open (writers l) -> (maxLevel l <? LogFatal) = false ->
  snd (log (std, l) ctx LogFatal format args now caller)
  = Panics (snd (rendered l ctx LogFatal format args now caller))
  /\ forall i w, writers l !! i = Some w ->
       exists w',
         writers (snd (fst (fst (log (std, l) ctx LogFatal format args now caller)))) !! i
         = Some w'
         /\ idle_open w' /\ ch w' = [] /\ closes (writer w') = closes (writer w)
         /\ written (writer w')
            = written (writer w) ++ ch w
              ++ (if targets l LogFatal i && (Z.of_nat (length (ch w)) <? ch_cap w)
                  then [line_of l ctx LogFatal format args now caller] else []).
Proof.
  intros Hidle Hgate.
  destruct (log_normal_form std l ctx LogFatal format args now caller Hgate)
    as (std2 & calls & _ & ->).
  change (LogFatal =? LogFatal) with true. cbv iota.
  set (ln := line_of l ctx LogFatal format args now caller).
  assert (Hln : is_line ln = true) by apply line_of_is_line.
  assert (Hidle2 : Forall idle_open (writers_after l LogFatal ln)).
  { unfold writers_after. apply Forall_lookup. intros i w Hi.
    rewrite list_lookup_imap in Hi.
    destruct (writers l !! i) as [w0 |] eqn:E0; [| discriminate].
    cbn [fmap option_fmap option_map] in Hi. injection Hi as <-.
    pose proof (proj1 (Forall_lookup _ _) Hidle i w0 E0) as Hw0.
    destruct (targets l LogFatal i); [apply (Write_idle w0 ln Hw0 Hln) | exact Hw0]. }
  assert (Hret : forall w, In w (writers_after l LogFatal ln) ->
                           exists r, snd (AsyncWriter_Flush w) = Some r).
  { intros w Hin. exists None.
    rewrite AsyncWriter_Flush_idle; [reflexivity |].
    exact (proj1 (List.Forall_forall _ _) Hidle2 w Hin). }
  unfold logger_Flush. cbn [writers set_writers set_pcCache].
  pose proof (each_writer_map AsyncWriter_Flush _ None Hret) as Hmap.
  pose proof (each_writer_keeps_last AsyncWriter_Flush _ None Hret) as Hlast.
  destruct (each_writer AsyncWriter_Flush (writers_after l LogFatal ln) None) as [ws r].
  cbn [fst snd] in *. subst ws r. cbn [fst snd writers].
  split; [reflexivity |].
  intros i w Hi.
  pose proof (proj1 (Forall_lookup _ _) Hidle i w Hi) as Hw.
  cbn [writers set_writers]. rewrite lookup_map. unfold writers_after at 1. rewrite list_lookup_imap, Hi.
  cbn [fmap option_fmap option_map].
  eexists. split; [reflexivity |].
  destruct (targets l LogFatal i); cbn [andb].
  - destruct (Write_idle w ln Hw Hln) as (Hi1 & Hi2 & Hi3).
    destruct (Flush_writes_idle (fst (AsyncWriter_Write w ln)) Hi1) as (_ & F2 & F3 & F4 & F5).
    split; [exact F5 |]. split; [exact F4 |]. split; [rewrite F3, Hi2; reflexivity |].
    rewrite F2, Hi2, Hi3, app_assoc. reflexivity.
  - destruct (Flush_writes_idle w Hw) as (_ & F2 & F3 & F4 & F5).
    split; [exact F5 |]. split; [exact F4 |]. split; [exact F3 |].
    rewrite F2, app_nil_r. reflexivity.
Qed.

Lemma Close_idle (w : AsyncWriter) :
  idle_open w ->
  snd (AsyncWriter_Close w) = Some None
  /\ isClosed (fst (AsyncWriter_Close w)) = true
  /\ done (fst (AsyncWriter_Close w)) = true
  /\ ch (fst (AsyncWriter_Close w)) = []
  /\ written (writer (fst (AsyncWriter_Close w))) = written (writer w) ++ ch w
  /\ closes (writer (fst (AsyncWriter_Close w))) = S (closes (writer w)).
Proof using.
  without_env. intros (Hg & Hz & Hcl & Hd & Hf & Hq & Hcap & Hlen).
  destruct (is_line_queue (ch w) Hq) as [Hlines Hsent].
  assert (Htok : (tokens w <= 1)%nat).
  { unfold tokens. rewrite Hsent, Hf, Hg. cbn. lia. }
  destruct (AsyncWriter_Close_open w Hg Hz Hcl Hd Htok)
    as (Hres & _ & Hdone & Hclosed & _ & Hch & Hwr & Hcloses).
  cbn [sw] in *. rewrite Hlines in Hwr.
  split; [exact Hres |]. split; [exact Hclosed |]. split; [exact Hdone |].
  split; [exact Hch |]. split; [exact Hwr | exact Hcloses].
Qed.





(** C7 (as the code has it). [Close] on a writer whose closed flag is set
    (the goroutine is draining or has returned) returns success at once and
    leaves the writer as it was.  [Close] on a writer for which a close signal
    is pending, the flag not yet set, does not return at once: it is blocked
    at its [select].  A [Close] returns at its first test only when the flag
    is set, and past that test only when [done] is closed: while [done] is
    open it has no return step; whenever it returns it returns success and
    leaves the writer as it was.  In every state a new writer can reach,
    [done] is closed only when the goroutine has returned, the flag set and
    the sink closed once.  From an open writer, under every scheduling of the
    goroutine and of any number of concurrent [Close] calls, every call
    returns success within [2 * length queue + 3 * calls + 3] steps and the
    writer is then closed: the goroutine has returned, the queue is empty,
    every queued line was written to the sink in order, and the sink was
    closed once. *)
Theorem Close_idempotent_once_marked_and_reaches_closed
    (w : AsyncWriter) (sched : nat -> nat) (fuel n : nat)
    (sink : Sink) (size : Z) (s : Sys) :
  (isClosed w = true -> call_step w CloseEntry = [(w, Ret 0 None)])
  /\ (isClosed w = false -> closing w = true -> done w = false ->
      call_step w CloseEntry = [(w, CloseSignal)] /\ call_step w CloseSignal = [])
  /\ (done w = true ->
      In (w, Ret 0 None) (call_step w CloseSignal)
      /\ call_step w CloseWait = [(w, Ret 0 None)])
  /\ (forall c w' m e, is_close_pc c = true -> In (w', Ret m e) (call_step w c) ->
      m = 0 /\ e = None /\ w' = w
      /\ (c = CloseEntry -> isClosed w = true)
      /\ (c <> CloseEntry -> done w = true))
  /\ (done w = false ->
      call_step w CloseWait = []
      /\ forall w' m e, ~ In (w', Ret m e) (call_step w CloseSignal))
  /\ (reachable (mkSys (NewAsyncWriter sink size) [] []) s -> done (sw s) = true ->
      goroutine (sw s) = FExit /\ isClosed (sw s) = true
      /\ closes (writer (sw s)) = S (closes sink))
  /\ (goroutine w = FSelect -> closed w = 0 -> closing w = false -> done w = false ->
      (tokens w <= 1)%nat -> (2 * length (ch w) + 3 * S n + 3 <= fuel)%nat ->
      closed_and_returned (written (writer w) ++ lines (ch w)) (closes (writer w)) (S n)
        (run sched fuel 0 (mkSys w (repeat CloseEntry (S n)) []))).
Proof using.
  without_env. split; [| split; [| split; [| split; [| split; [| split]]]]].
  - intros H. cbn [call_step]. rewrite H. reflexivity.
  - intros H Hc Hd. cbn [call_step]. rewrite H, Hc, Hd. split; reflexivity.
  - intros Hd. cbn [call_step]. rewrite Hd. split; [| reflexivity].
    apply in_or_app. right. left. reflexivity.
  - intros c w' m e Hc Hin. destruct c; try discriminate Hc; cbn [call_step] in Hin.
    + destruct (isClosed w) eqn:Hcl.
      * destruct Hin as [[= <- <- <-] | []].
        repeat split; try reflexivity. intros Hne. contradiction.
      * destruct Hin as [[=] | []].
    + apply in_app_or in Hin as [Hin | Hin].
      * destruct (closing w); [destruct Hin | destruct Hin as [[=] | []]].
      * destruct (done w) eqn:Hd; [| destruct Hin].
        destruct Hin as [[= <- <- <-] | []].
        repeat split; try reflexivity. intros [=].
    + destruct (done w) eqn:Hd; [| destruct Hin].
      destruct Hin as [[= <- <- <-] | []].
      repeat split; try reflexivity. intros [=].
  - intros Hd. cbn [call_step]. rewrite Hd. split; [reflexivity |].
    intros w' m e Hin. rewrite app_nil_r in Hin.
    destruct (closing w); [destruct Hin | destruct Hin as [[=] | []]].
  - intros Hr Hdone.
    destruct (reachable_new_inv sink size s Hr) as (_ & Hd & Hc & _ & _ & _ & Hcl & _).
    pose proof (proj1 Hd Hdone) as Hexit.
    split; [exact Hexit |]. split.
    + unfold isClosed. rewrite (proj2 Hc (or_intror Hexit)). reflexivity.
    + rewrite Hcl, Hdone. lia.
  - intros Hg Hz Hc Hd Htok Hfuel. apply run_reaches_closed; [lia | |].
    + unfold close_inv. cbn [sw threads]. split; [apply repeat_length |].
      split; [reflexivity |]. rewrite Hg. repeat split; try assumption.
      * apply forallb_repeat. reflexivity.
      * intros _. apply forallb_repeat. reflexivity.
    + unfold close_measure. cbn [sw threads]. rewrite Hg, cweight_sum_repeat.
      cbn [gweight]. lia.
Qed.

Lemma each_writer_fixed f (e : option error) :
  forall ws err,
    (forall w, In w ws -> f w = (w, Some e)) ->
    each_writer f ws err
    = (ws, Some (keep_last err (repeat e (length ws)))).
Proof using.
  without_env. induction ws as [| w ws IH]; intros err Hfix; [reflexivity |].
  cbn [each_writer]. rewrite (Hfix w (or_introl eq_refl)).
  rewrite IH by (intros w0 Hin; apply Hfix; right; exact Hin).
  reflexivity.
Qed.

Lemma logger_Close_closed (l : logger) :
  Forall (fun w => isClosed w = true) (writers l) -> logger_Close l = (l, Some None).
Proof using.
  without_env. intros Hcl. unfold logger_Close.
  rewrite (each_writer_fixed AsyncWriter_Close None).
  - cbn [fst snd]. rewrite keep_last_nil, set_writers_same. reflexivity.
  - intros w Hin. apply AsyncWriter_Close_closed.
    exact (proj1 (List.Forall_forall _ _) Hcl w Hin).
Qed.

Lemma logger_Flush_closed (l : logger) :
  Forall (fun w => isClosed w = true) (writers l) ->
  logger_Flush l
  = (l, Some (match writers l with [] => None | _ => Some errAsyncWriterClosed end)).
Proof using.
  without_env. intros Hcl. unfold logger_Flush.
  rewrite (each_writer_fixed AsyncWriter_Flush (Some errAsyncWriterClosed)).
  - cbn [fst snd]. rewrite set_writers_same.
    destruct (writers l) as [| w ws]; [reflexivity |].
    cbn [length]. rewrite keep_last_same. reflexivity.
  - intros w Hin. apply AsyncWriter_Flush_closed.
    exact (proj1 (List.Forall_forall _ _) Hcl w Hin).
Qed.

(** X15. The logger's [Close] shuts every writer down.  On a logger whose
    writers are open and not in use by another call, [Close] returns nil, and
    when it returns every writer is closed, its goroutine has returned, its
    queue is empty, and its sink has received every line that was queued, in
    order, and has then been closed, once.  A second [Close] returns nil and
    changes nothing. *)
Theorem logger_Close_drains_and_closes_every_writer (l : logger) :
  Forall idle_open (writers l) ->
  snd (logger_Close l) = Some None
  /\ (forall i w, writers l !! i = Some w ->
        exists w', writers (fst (logger_Close l)) !! i = Some w'
          /\ isClosed w' = true /\ done w' = true /\ ch w' = []
          /\ written (writer w') = written (writer w) ++ ch w
          /\ closes (writer w') = S (closes (writer w)))
  /\ length (writers (fst (logger_Close l))) = length (writers l)
  /\ logger_Close (fst (logger_Close l)) = (fst (logger_Close l), Some None).
Proof using.
  without_env. intros Hidle.
  assert (Hret : forall w, In w (writers l) -> exists r, snd (AsyncWriter_Close w) = Some r).
  { intros w Hin. exists None.
    exact (proj1 (Close_idle w (proj1 (List.Forall_forall _ _) Hidle w Hin))). }
  pose proof (each_writer_map AsyncWriter_Close _ None Hret) as Hmap.
  pose proof (each_writer_keeps_last AsyncWriter_Close _ None Hret) as Hlast.
  unfold logger_Close.
  destruct (each_writer AsyncWriter_Close (writers l) None) as [ws r].
  cbn [fst snd] in *. subst ws r. cbn [writers set_writers].
  assert (Hlook : forall i w, writers l !! i = Some w ->
            exists w', map (fun w0 => fst (AsyncWriter_Close w0)) (writers l) !! i = Some w'
              /\ isClosed w' = true /\ done w' = true /\ ch w' = []
              /\ written (writer w') = written (writer w) ++ ch w
              /\ closes (writer w') = S (closes (writer w))).
  { intros i w Hi. rewrite lookup_map, Hi. cbn [fmap option_fmap option_map].
    eexists. split; [reflexivity |].
    exact (proj2 (Close_idle w (proj1 (Forall_lookup _ _) Hidle i w Hi))). }
  split.
  { rewrite (map_const_repeat _ None).
    - rewrite keep_last_nil. reflexivity.
    - intros w Hin.
      rewrite (proj1 (Close_idle w (proj1 (List.Forall_forall _ _) Hidle w Hin))).
      reflexivity. }
  split; [exact Hlook |]. split; [apply length_map |].
  apply logger_Close_closed. cbn [writers set_writers].
  apply List.Forall_forall. intros w' Hin. apply in_map_iff in Hin as (w & <- & Hin).
  exact (proj1 (proj2 (Close_idle w (proj1 (List.Forall_forall _ _) Hidle w Hin)))).
Qed.

(** X16. A logger that has been closed loses records without a word.  When
    every writer of the logger is closed, a call of [log] leaves every writer
    and its sink as they were, at every level, and still returns as usual; a
    Fatal record still panics; [Flush] leaves the logger as it was and
    answers the "closed" error when the logger has a writer, and [Close]
    answers nil. *)
Theorem closed_logger_drops_records
    (std : Std) (l : logger) ctx level format args now caller :
  Forall (fun w => isClosed w = true) (writers l) ->
  writers (snd (fst (fst (log (std, l) ctx level format args now caller)))) = writers l
  /\ snd (log (std, l) ctx level format args now caller)
     = (if negb (maxLevel l <? level) && (level =? LogFatal)
        then Panics (snd (rendered l ctx level format args now caller))
        else Returns)
  /\ logger_Flush l
     = (l, Some (match writers l with [] => None | _ => Some errAsyncWriterClosed end))
  /\ logger_Close l = (l, Some None).
Proof.
  intros Hcl.
  split; [| split; [| split; [apply logger_Flush_closed | apply logger_Close_closed]; exact Hcl]].
  - destruct (maxLevel l <? level) eqn:Hgate.
    { rewrite (log_gated (std, l) ctx level format args now caller Hgate). reflexivity. }
    destruct (log_normal_form std l ctx level format args now caller Hgate)
      as (std2 & calls & _ & ->).
    assert (Hw : writers_after l level (line_of l ctx level format args now caller) = writers l).
    { unfold writers_after. rewrite <- (imap_same (writers l)) at 2.
      apply imap_pointwise. intros i w Hi.
      destruct (targets l level i); [| reflexivity].
      unfold AsyncWriter_Write.
      pose proof (line_of_is_line l ctx level format args now caller) as Hln.
      unfold is_line in Hln. apply negb_true_iff in Hln. rewrite Hln.
      rewrite (proj1 (Forall_lookup _ _) Hcl i w Hi). reflexivity. }
    rewrite Hw.
    destruct (level =? LogFatal); [| reflexivity].
    rewrite logger_Flush_closed by exact Hcl. reflexivity.
  - destruct (maxLevel l <? level) eqn:Hgate.
    { rewrite (log_gated (std, l) ctx level format args now caller Hgate). reflexivity. }
    destruct (log_normal_form std l ctx level format args now caller Hgate)
      as (std2 & calls & _ & ->).
    cbn [negb andb].
    destruct (level =? LogFatal); [| reflexivity].
    destruct (logger_Flush _) as [l3 [e |]] eqn:Ef; [reflexivity |].
    exfalso.
    assert (Hw : writers_after l level (line_of l ctx level format args now caller) = writers l).
    { unfold writers_after. rewrite <- (imap_same (writers l)) at 2.
      apply imap_pointwise. intros i w Hi.
      destruct (targets l level i); [| reflexivity].
      unfold AsyncWriter_Write.
      pose proof (line_of_is_line l ctx level format args now caller) as Hln.
      unfold is_line in Hln. apply negb_true_iff in Hln. rewrite Hln.
      rewrite (proj1 (Forall_lookup _ _) Hcl i w Hi). reflexivity. }
    rewrite Hw, logger_Flush_closed in Ef by exact Hcl. discriminate.
Qed.

(** X17. [Write] and [Flush] together.  On an open writer that no other
    call is using, data written while the queue has room is on the sink once
    the following [Flush] has returned, after everything queued before it.
    Data written while the queue is full is refused with the "full" error and
    is not on the sink after the [Flush]; but after that [Flush] the queue
    is empty and the same [Write] succeeds. *)
Theorem Write_then_Flush_delivers (w : AsyncWriter) (data : bytes) :
  idle_open w -> len data <> 0 ->
  snd (AsyncWriter_Flush (fst (AsyncWriter_Write w data))) = Some None
  /\ (Z.of_nat (length (ch w)) < ch_cap w ->
      snd (AsyncWriter_Write w data) = (len data, None)
      /\ written (writer (fst (AsyncWriter_Flush (fst (AsyncWriter_Write w data)))))
         = written (writer w) ++ ch w ++ [data])
  /\ (ch_cap w <= Z.of_nat (length (ch w)) ->
      snd (AsyncWriter_Write w data) = (0, Some errAsyncWriterFull)
      /\ written (writer (fst (AsyncWriter_Flush (fst (AsyncWriter_Write w data)))))
         = written (writer w) ++ ch w
      /\ snd (AsyncWriter_Write (fst (AsyncWriter_Flush (fst (AsyncWriter_Write w data)))) data)
         = (len data, None)).
Proof using.
  without_env. intros Hidle Hdata.
  assert (Hln : is_line data = true).
  { unfold is_line. apply negb_true_iff, Z.eqb_neq. exact Hdata. }
  destruct (Write_idle w data Hidle Hln) as (Hi1 & Hi2 & Hi3).
  destruct (Flush_writes_idle _ Hi1) as (F1 & F2 & F3 & F4 & F5).
  pose proof Hidle as (Hg & Hz & _).
  assert (Hopen : isClosed w = false) by (unfold isClosed; rewrite Hz; reflexivity).
  split; [exact F1 |]. split.
  - intros Hroom. split.
    + unfold AsyncWriter_Write, ch_has_room. apply Z.eqb_neq in Hdata. rewrite Hdata, Hopen.
      rewrite (proj2 (Z.ltb_lt _ _) Hroom). reflexivity.
    + rewrite F2, Hi2, Hi3, (proj2 (Z.ltb_lt _ _) Hroom), app_assoc. reflexivity.
  - intros Hfull. split; [| split].
    + unfold AsyncWriter_Write, ch_has_room. apply Z.eqb_neq in Hdata. rewrite Hdata, Hopen.
      rewrite (proj2 (Z.ltb_ge _ _) Hfull). reflexivity.
    + rewrite F2, Hi2, Hi3, (proj2 (Z.ltb_ge _ _) Hfull), app_nil_r. reflexivity.
    + destruct F5 as (G1 & G2 & _ & _ & _ & _ & G7 & _).
      revert G2 F4 G7. generalize (fst (AsyncWriter_Flush (fst (AsyncWriter_Write w data)))).
      intros w2 G2 F4 G7.
      unfold AsyncWriter_Write, ch_has_room, isClosed.
      apply Z.eqb_neq in Hdata. rewrite Hdata, G2, F4.
      change (negb (0 =? 0)) with false. cbn [length]. change (Z.of_nat 0) with 0.
      rewrite (proj2 (Z.ltb_lt _ _) G7). reflexivity.
Qed.

(** *** Further properties of [parsePC], [newLogger] and [Init] *)

Lemma append_cons (x : ascii) (a b : string) : (String x a ++ b)%string = String x (a ++ b).
Proof using. reflexivity. Qed.

Lemma append_nil (b : string) : (EmptyString ++ b)%string = b.
Proof using. reflexivity. Qed.

Lemma B_app (s t : string) : B (s ++ t) = B s ++ B t.
Proof using.
  without_env. unfold B, list_byte_of_string. induction s as [| c s IH]; [reflexivity |].
  rewrite append_cons. cbn [list_ascii_of_string map app]. rewrite IH. reflexivity.
Qed.

Lemma substring_prefix (a b : string) : substring 0 (String.length a) (a ++ b) = a.
Proof using.
  without_env. induction a as [| c a IH].
  - rewrite append_nil. destruct b; reflexivity.
  - rewrite append_cons. cbn [String.length substring]. rewrite IH. reflexivity.
Qed.

Lemma substring_all (r : string) : substring 0 (String.length r) r = r.
Proof using.
  without_env. induction r as [| c r IH]; [reflexivity |].
  cbn [String.length substring]. rewrite IH. reflexivity.
Qed.

Lemma string_length_app (a b : string) :
  String.length (a ++ b) = (String.length a + String.length b)%nat.
Proof using.
  without_env. induction a as [| c a IH]; [reflexivity |].
  rewrite append_cons. cbn [String.length]. rewrite IH. reflexivity.
Qed.

Lemma str_drop_app (p r : string) : str_drop (Z.of_nat (String.length p)) (p ++ r) = r.
Proof using.
  without_env. unfold str_drop. rewrite Nat2Z.id, string_length_app.
  replace (String.length p + String.length r - String.length p)%nat
    with (String.length r) by lia.
  induction p as [| c p IH]; [apply substring_all |].
  rewrite append_cons. cbn [String.length substring]. exact IH.
Qed.

Lemma prefix_app (p r : string) : String.prefix p (p ++ r) = true.
Proof using.
  without_env. induction p as [| c p IH]; [destruct r; reflexivity |].
  rewrite append_cons. cbn [String.prefix].
  destruct (ascii_dec c c); [exact IH | contradiction].
Qed.

Lemma string_app_assoc (a b c : string) : ((a ++ b) ++ c = a ++ (b ++ c))%string.
Proof using.
  without_env. induction a as [| x a IH]; [reflexivity |].
  rewrite !append_cons, IH. reflexivity.
Qed.

Lemma string_app_nil_r (s : string) : (s ++ "")%string = s.
Proof using.
  without_env. induction s as [| x s IH]; [reflexivity |].
  rewrite append_cons, IH. reflexivity.
Qed.

(** X18. How [parsePC] shortens a function name.  When the logger has a
    package prefix and the function name of the call site begins with it,
    the call-site text shows the name without the prefix; otherwise, when the
    name begins with the directory of this package, the text shows the name
    with that directory replaced by the mark for it; the package prefix
    takes precedence.  In every case the panic value of a Fatal record made
    at the call site is the fixed heading followed by the text that the line
    shows between its brackets. *)
Theorem parsePC_shortens_function_name (l : logger) (pc : Z) (rest : string) :
  (pkgPrefix l <> ""%string -> FuncForPC_Name pc = (pkgPrefix l ++ rest)%string ->
   line (parsePC l pc)
   = B "[" ++ B (path_Base (fst (FuncForPC_FileLine pc))) ++ B ":"
     ++ B (Itoa (snd (FuncForPC_FileLine pc))) ++ B "@" ++ B rest ++ B "]")
  /\ ((pkgPrefix l = ""%string \/ String.prefix (pkgPrefix l) (FuncForPC_Name pc) = false) ->
      stdPackagePrefix <> ""%string ->
      FuncForPC_Name pc = (stdPackagePrefix ++ rest)%string ->
      line (parsePC l pc)
      = B "[" ++ B (path_Base (fst (FuncForPC_FileLine pc))) ++ B ":"
        ++ B (Itoa (snd (FuncForPC_FileLine pc))) ++ B "@" ++ B "<std>" ++ B rest ++ B "]")
  /\ (exists inner,
        line (parsePC l pc) = B "[" ++ B inner ++ B "]"
        /\ panicContext (parsePC l pc) = ("go-log: log.Fatalf at " ++ inner)%string).
Proof.
  split; [| split].
  - intros Hne Hname. unfold parsePC.
    apply String.eqb_neq in Hne. rewrite Hne, Hname, prefix_app, str_drop_app.
    cbn [negb andb String.eqb line]. rewrite <- !app_assoc. reflexivity.
  - intros Hpkg Hstd Hname. unfold parsePC.
    assert (H1 : negb (String.eqb (pkgPrefix l) "")
                 && String.prefix (pkgPrefix l) (FuncForPC_Name pc) = false).
    { destruct Hpkg as [-> | ->]; [reflexivity | apply andb_false_r]. }
    rewrite H1. apply String.eqb_neq in Hstd. rewrite Hstd, Hname, prefix_app, str_drop_app.
    cbn [negb andb line]. unfold replaceStdPackagePrefix. cbn [String.eqb Ascii.eqb Bool.eqb negb].
    rewrite <- !app_assoc. reflexivity.
  - unfold parsePC.
    destruct (negb (String.eqb (pkgPrefix l) "")
              && String.prefix (pkgPrefix l) (FuncForPC_Name pc)).
    + eexists. cbn [line panicContext String.eqb negb].
      split; [| reflexivity]. rewrite !B_app, <- !app_assoc. reflexivity.
    + destruct (negb (String.eqb stdPackagePrefix "")
                && String.prefix stdPackagePrefix (FuncForPC_Name pc)).
      * eexists. cbn [line panicContext]. unfold replaceStdPackagePrefix.
        cbn [String.eqb Ascii.eqb Bool.eqb negb].
        split; [| reflexivity]. rewrite !B_app, <- !app_assoc. reflexivity.
      * eexists. cbn [line panicContext String.eqb negb].
        split; [| reflexivity]. rewrite !B_app, <- !app_assoc. reflexivity.
Qed.

Lemma lastIndexSlash_from_spec (s : string) :
  forall i found,
    (no_slash s = true /\ lastIndexSlash_from s i found = found)
    \/ (exists h t, s = (h ++ "/" ++ t)%string /\ no_slash t = true
                    /\ lastIndexSlash_from s i found = i + Z.of_nat (String.length h)).
Proof using.
  without_env. induction s as [| c s IH]; intros i found.
  - left. split; reflexivity.
  - cbn [lastIndexSlash_from no_slash].
    destruct (IH (i + 1) (if Ascii.eqb c "/" then i else found))
      as [[Hno Hr] | (h & t & Hs & Ht & Hr)].
    + destruct (Ascii.eqb c "/") eqn:Ec.
      * right. exists ""%string, s. apply Ascii.eqb_eq in Ec. subst c.
        split; [reflexivity |]. split; [exact Hno |]. rewrite Hr. cbn. lia.
      * left. split; [rewrite Hno; reflexivity | exact Hr].
    + right. exists (String c h), t. split; [rewrite Hs; reflexivity |].
      split; [exact Ht |]. rewrite Hr. cbn [String.length]. lia.
Qed.

(** X19. The package prefix of a configured logger ends at the last slash
    of the configured prefix.  The configured prefix is the logger's prefix
    followed by a rest that has no slash; when the configured prefix has no
    slash the logger's prefix is the configured one, and otherwise the
    logger's prefix ends with a slash. *)
Theorem newLogger_pkgPrefix_ends_at_last_slash (c : Config) :
  exists rest,
    PackagePrefix c = (pkgPrefix (newLogger (Some c)) ++ rest)%string
    /\ no_slash rest = true
    /\ ((no_slash (PackagePrefix c) = true /\ rest = ""%string)
        \/ (exists h, pkgPrefix (newLogger (Some c)) = (h ++ "/")%string)).
Proof.
  assert (Hp : pkgPrefix (newLogger (Some c))
               = if negb (String.eqb (PackagePrefix c) "") then
                   if 0 <=? lastIndexSlash (PackagePrefix c)
                   then str_take (lastIndexSlash (PackagePrefix c) + 1) (PackagePrefix c)
                   else PackagePrefix c
                 else PackagePrefix c).
  { unfold newLogger.
    destruct (negb (String.eqb
                (if String.eqb (ErrorLogPath c) "" then DefaultErrorLogPath else ErrorLogPath c)
                (if String.eqb (LogPath c) "" then DefaultLogPath else LogPath c)));
      reflexivity. }
  rewrite Hp. clear Hp. unfold lastIndexSlash.
  destruct (lastIndexSlash_from_spec (PackagePrefix c) 0 (-1))
    as [[Hno Hr] | (h & t & Hs & Ht & Hr)].
  - exists ""%string. rewrite Hr. change (0 <=? -1) with false.
    destruct (negb (String.eqb (PackagePrefix c) "")); rewrite string_app_nil_r;
      (split; [reflexivity |]); (split; [reflexivity |]); left; split; [exact Hno | reflexivity
                                                                      | exact Hno | reflexivity].
  - exists t. rewrite Hr, Hs.
    assert (Hne : String.eqb (h ++ "/" ++ t) "" = false).
    { destruct h; reflexivity. }
    rewrite Hne. cbn [negb].
    assert (Hpos : (0 <=? 0 + Z.of_nat (String.length h)) = true) by (apply Z.leb_le; lia).
    rewrite Hpos.
    assert (Htake : str_take (0 + Z.of_nat (String.length h) + 1) (h ++ "/" ++ t)
                    = (h ++ "/")%string).
    { unfold str_take.
      replace (Z.to_nat (0 + Z.of_nat (String.length h) + 1))
        with (String.length (h ++ "/")) by (rewrite string_length_app; cbn; lia).
      rewrite <- (string_app_assoc h "/" t). apply substring_prefix. }
    rewrite Htake. split; [symmetry; apply string_app_assoc |]. split; [exact Ht |].
    right. exists h. reflexivity.
Qed.

(** X20. Every line handed to a sink is a real line.  Whatever the record,
    the line that [log] passes to a sink is not empty, so an async writer
    never takes it for the empty message that asks for a flush; it has at
    most 4096 bytes; it is a prefix of the rendering; and when the rendering
    has at most 4096 bytes the line is the rendering and ends with a
    newline. *)
Theorem sink_lines_are_bounded_and_not_empty
    (s : Std * logger) ctx level format args now caller target ln :
  In (target, ln) (calls_of (log s ctx level format args now caller)) ->
  0 < len ln /\ len ln <= 4096 /\ is_line ln = true
  /\ (exists rest, fst (fst (rendered (snd s) ctx level format args now caller)) = ln ++ rest)
  /\ (len (fst (fst (rendered (snd s) ctx level format args now caller))) <= 4096 ->
      exists body, ln = body ++ [x0a]).
Proof.
  intros Hin. apply log_calls_line in Hin. subst ln.
  pose proof (line_of_nonempty (snd s) ctx level format args now caller) as Hpos.
  split; [exact Hpos |].
  unfold line_of in *.
  set (buf := fst (fst (rendered (snd s) ctx level format args now caller))) in *.
  destruct (Z.lt_ge_cases maxLogLine (len buf)) as [Hlong | Hshort].
  - destruct (truncated_long buf Hlong) as [Ht Hl]. rewrite Ht in *.
    split; [rewrite Hl; unfold maxLogLine; lia |].
    split; [unfold is_line; apply negb_true_iff, Z.eqb_neq; lia |].
    split; [exists (skipn (Z.to_nat maxLogLine) buf); symmetry; apply firstn_skipn |].
    unfold maxLogLine in Hlong. intros Hle. lia.
  - rewrite (truncated_short buf) in * by lia.
    split; [unfold maxLogLine in Hshort; lia |].
    split; [unfold is_line; apply negb_true_iff, Z.eqb_neq; lia |].
    split; [exists []; rewrite app_nil_r; reflexivity |].
    intros _. subst buf. unfold rendered.
    destruct (if negb (level =? logPrint) then log_prefix (snd s) ctx level now caller
              else ([], snd s, ""%string)) as [[pre l1] pctx].
    cbn [fst]. exists (pre ++ Sprintf format args). rewrite <- app_assoc. reflexivity.
Qed.

(** X21. [Init] replaces the default logger and shuts the old one down.
    Whatever the old default logger was, the new one is the logger
    [newLogger] makes for the configuration, with an empty cache of call
    sites; the contents of the terminal streams are not touched and the two
    flags are what the terminal test answered.  When the writers of the old
    logger were open and not in use, its [Close] returns, every line that was
    queued in the old logger is on its sink, and every old writer is closed,
    so records sent to the old logger afterwards are dropped. *)
Theorem Init_replaces_default_logger_and_closes_old
    (outTerm errTerm : bool) (config : option Config) (g : Std * logger) :
  snd (fst (Init outTerm errTerm config g)) = newLogger config
  /\ pcCache (snd (fst (Init outTerm errTerm config g))) = ∅
  /\ stdout (fst (fst (Init outTerm errTerm config g))) = stdout (fst g)
  /\ stderr (fst (fst (Init outTerm errTerm config g))) = stderr (fst g)
  /\ isStdoutTerminal (fst (fst (Init outTerm errTerm config g))) = outTerm
  /\ isStderrTerminal (fst (fst (Init outTerm errTerm config g))) = errTerm
  /\ (Forall idle_open (writers (snd g)) ->
      snd (snd (Init outTerm errTerm config g)) = Some None
      /\ Forall (fun w => isClosed w = true) (writers (fst (snd (Init outTerm errTerm config g))))
      /\ forall i w, writers (snd g) !! i = Some w ->
           exists w', writers (fst (snd (Init outTerm errTerm config g))) !! i = Some w'
             /\ ch w' = [] /\ written (writer w') = written (writer w) ++ ch w
             /\ closes (writer w') = S (closes (writer w))).
Proof.
  unfold Init. cbn [fst snd stdout stderr isStdoutTerminal isStderrTerminal].
  split; [reflexivity |].
  split; [destruct config as [c |]; [| reflexivity]; unfold newLogger;
          destruct (negb (String.eqb
                (if String.eqb (ErrorLogPath c) "" then DefaultErrorLogPath else ErrorLogPath c)
                (if String.eqb (LogPath c) "" then DefaultLogPath else LogPath c)));
          reflexivity |].
  repeat (split; [reflexivity |]).
  intros Hidle.
  assert (Hret : forall w, In w (writers (snd g)) ->
                           exists r, snd (AsyncWriter_Close w) = Some r).
  { intros w Hin. exists None.
    exact (proj1 (Close_idle w (proj1 (List.Forall_forall _ _) Hidle w Hin))). }
  pose proof (each_writer_map AsyncWriter_Close _ None Hret) as Hmap.
  pose proof (each_writer_keeps_last AsyncWriter_Close _ None Hret) as Hlast.
  unfold logger_Close.
  destruct (each_writer AsyncWriter_Close (writers (snd g)) None) as [ws r].
  cbn [fst snd] in *. subst ws r. cbn [writers set_writers].
  split; [| split].
  - rewrite (map_const_repeat _ None).
    + rewrite keep_last_nil. reflexivity.
    + intros w Hin.
      rewrite (proj1 (Close_idle w (proj1 (List.Forall_forall _ _) Hidle w Hin))).
      reflexivity.
  - apply List.Forall_forall. intros w' Hin. apply in_map_iff in Hin as (w & <- & Hin).
    exact (proj1 (proj2 (Close_idle w (proj1 (List.Forall_forall _ _) Hidle w Hin)))).
  - intros i w Hi. rewrite lookup_map, Hi. cbn [fmap option_fmap option_map].
    eexists. split; [reflexivity |].
    destruct (Close_idle w (proj1 (Forall_lookup _ _) Hidle i w Hi))
      as (_ & _ & _ & H4 & H5 & H6).
    split; [exact H4 |]. split; [exact H5 | exact H6].
Qed.

End GoLog.

(** ** The properties at concrete inputs *)

(** C3, as stated, fails: the sink of [failing_writer] answers its [Close]
    with an error; [AsyncWriter.Close] drains the queue, closes the sink once
    and returns nil. *)
Lemma Close_does_not_report_sink_error :
  snd (sink_Close (writer failing_writer)) = Some (errSink 1)
  /\ closes (writer (fst (AsyncWriter_Close failing_writer))) = 1%nat
  /\ written (writer (fst (AsyncWriter_Close failing_writer))) = [B "line"]
  /\ snd (AsyncWriter_Close failing_writer) = Some None
  /\ ~ Close_reports_sink_error failing_writer.
Proof.
  split; [reflexivity |]. split; [vm_compute; reflexivity |].
  split; [vm_compute; reflexivity |]. split; [vm_compute; reflexivity |].
  intros H. specialize (H (errSink 1) eq_refl). vm_compute in H. discriminate.
Qed.

(** C7, as stated, fails: a first [Close] on a new writer has sent its close
    signal; a second [Close] then does not return at once, it is blocked at
    its [select]. *)
Lemma Close_blocks_while_close_signal_pending :
  reachable (mkSys (NewAsyncWriter sample_sink 4) [] [])
            (mkSys signalled_writer [CloseWait] [])
  /\ already_closing signalled_writer
  /\ call_step signalled_writer CloseEntry = [(signalled_writer, CloseSignal)]
  /\ call_step signalled_writer CloseSignal = []
  /\ ~ Close_returns_at_once signalled_writer.
Proof.
  split; [| split; [| split; [| split]]].
  - apply (reach_step _ (mkSys (NewAsyncWriter sample_sink 4) [CloseSignal] [])).
    + apply (reach_step _ (mkSys (NewAsyncWriter sample_sink 4) [CloseEntry] [])).
      * apply (reach_step _ (mkSys (NewAsyncWriter sample_sink 4) [] []));
          [apply reach_refl |].
        apply (step_spawn (mkSys (NewAsyncWriter sample_sink 4) [] []) CloseEntry).
        reflexivity.
      * apply step_run. left. reflexivity.
    + apply step_run. left. reflexivity.
  - split; [reflexivity | left; reflexivity].
  - reflexivity.
  - reflexivity.
  - unfold Close_returns_at_once. discriminate.
Qed.

Local Abbreviation test_log :=
  (log string plain_Sprintf B test_FileLine test_Name (fun s => s) test_Itoa "").
Local Abbreviation test_line_of :=
  (line_of string plain_Sprintf B test_FileLine test_Name (fun s => s) test_Itoa "").
Local Abbreviation test_newLogger := (newLogger (fun s => s) no_close_error).

(** C1 at threshold Info: a Debug record is stopped, a Warn record passes. *)
Lemma gate_emits_witness :
  maxLevel (snd (quiet_std, two_sink_logger)) = level_of SInfo
  /\ test_log (quiet_std, two_sink_logger) (Background string) (level_of SDebug)
              "msg" [] "now" (Some 1)
     = ((quiet_std, two_sink_logger), [], Returns)
  /\ calls_of (test_log (quiet_std, two_sink_logger) (Background string) (level_of SWarn)
                        "msg" [] "now" (Some 1)) <> []
  /\ calls_of (test_log (quiet_std, two_sink_logger) (Background string) logPrint
                        "msg" [] "now" (Some 1)) <> [].
Proof.
  split; [reflexivity |]. split; [| split].
  - apply (gate_emits_iff_threshold_verbose_enough string (fun s => s) plain_Sprintf B
             test_FileLine test_Name (fun s => s) test_Itoa "" no_close_error
             (quiet_std, two_sink_logger) (Background string) "msg" [] "now" (Some 1)
             SDebug SInfo one_file_config eq_refl).
    simpl. lia.
  - apply (gate_emits_iff_threshold_verbose_enough string (fun s => s) plain_Sprintf B
             test_FileLine test_Name (fun s => s) test_Itoa "" no_close_error
             (quiet_std, two_sink_logger) (Background string) "msg" [] "now" (Some 1)
             SWarn SInfo one_file_config eq_refl).
    simpl. lia.
  - apply (gate_emits_iff_threshold_verbose_enough string (fun s => s) plain_Sprintf B
             test_FileLine test_Name (fun s => s) test_Itoa "" no_close_error
             (quiet_std, two_sink_logger) (Background string) "msg" [] "now" (Some 1)
             SWarn SInfo one_file_config eq_refl).
Defined.

(** C2 at error threshold Warn: an Error record goes to both sinks, an Info
    record and a Print record to the primary sink only. *)
Lemma routes_to_both_witness :
  errorLevel (snd (quiet_std, two_sink_logger)) = level_of SWarn
  /\ (maxLevel (snd (quiet_std, two_sink_logger)) <? level_of SError) = false
  /\ (maxLevel (snd (quiet_std, two_sink_logger)) <? logPrint) = false
  /\ calls_of (test_log (quiet_std, two_sink_logger) (Background string) (level_of SError)
                        "msg" [] "now" (Some 1))
     = [(asyncWriter 0,
         test_line_of two_sink_logger (Background string) (level_of SError)
                      "msg" [] "now" (Some 1));
        (asyncWriter 1,
         test_line_of two_sink_logger (Background string) (level_of SError)
                      "msg" [] "now" (Some 1))]
  /\ calls_of (test_log (quiet_std, two_sink_logger) (Background string) logPrint
                        "msg" [] "now" (Some 1))
     = [(asyncWriter 0,
         test_line_of two_sink_logger (Background string) logPrint "msg" [] "now" (Some 1))].
Proof.
  split; [reflexivity |]. split; [reflexivity |]. split; [reflexivity |].
  destruct (routes_to_both_iff_severe_enough_and_not_print string (fun s => s) plain_Sprintf
              B test_FileLine test_Name (fun s => s) test_Itoa "" no_close_error
              (quiet_std, two_sink_logger) (Background string) "msg" [] "now" (Some 1)
              SError SWarn one_file_config eq_refl eq_refl eq_refl)
    as (Hboth & _ & _ & Hprint & _).
  split; [| exact Hprint].
  destruct Hboth as (E & _); [simpl; lia | exact E].
Defined.

Local Abbreviation test_rendered :=
  (rendered string plain_Sprintf B test_FileLine test_Name (fun s => s) test_Itoa "").

(** C5 on a Print record whose rendering has 5000 bytes: the primary sink is
    given its first 4096 bytes. *)
Lemma line_truncated_witness :
  In (asyncWriter 0, repeat x61 4096)
     (calls_of (test_log (quiet_std, two_sink_logger) (Background string) logPrint
                         long_format [] "now" (Some 1)))
  /\ len (fst (fst (test_rendered two_sink_logger (Background string) logPrint
                                  long_format [] "now" (Some 1)))) = 5000
  /\ repeat x61 4096
     = firstn (Z.to_nat 4096)
         (fst (fst (test_rendered two_sink_logger (Background string) logPrint
                                  long_format [] "now" (Some 1))))
  /\ len (repeat x61 4096) = 4096.
Proof.
  assert (Hin : In (asyncWriter 0, repeat x61 4096)
                   (calls_of (test_log (quiet_std, two_sink_logger) (Background string)
                                       logPrint long_format [] "now" (Some 1)))).
  { vm_compute. left. reflexivity. }
  assert (Hlen : len (fst (fst (test_rendered two_sink_logger (Background string) logPrint
                                  long_format [] "now" (Some 1)))) = 5000).
  { vm_compute. reflexivity. }
  split; [exact Hin |]. split; [exact Hlen |].
  apply (line_truncated_to_maxLogLine string plain_Sprintf B test_FileLine test_Name
           (fun s => s) test_Itoa "" (quiet_std, two_sink_logger) (Background string)
           logPrint long_format [] "now" (Some 1) (asyncWriter 0) (repeat x61 4096) Hin).
  exact Hlen.
Defined.

(** C9 on a configuration that names one file twice, with an Error record. *)
Lemma same_path_witness :
  primaryPath one_file_config = errorPath one_file_config
  /\ (maxLevel (test_newLogger (Some one_file_config)) <? LogError) = false
  /\ ((errorLevel (test_newLogger (Some one_file_config)) <? LogError)
      || (LogError =? logPrint)) = false
  /\ length (writers (test_newLogger (Some one_file_config))) = 1%nat
  /\ wfLogger (test_newLogger (Some one_file_config))
     = allLogger (test_newLogger (Some one_file_config))
  /\ calls_of (test_log (quiet_std, test_newLogger (Some one_file_config))
                        (Background string) LogError "msg" [] "now" (Some 1))
     = [(asyncWriter 0,
         test_line_of (test_newLogger (Some one_file_config)) (Background string)
                      LogError "msg" [] "now" (Some 1))].
Proof.
  split; [reflexivity |]. split; [reflexivity |]. split; [reflexivity |].
  destruct (same_path_one_writer_written_once string (fun s => s) plain_Sprintf B
              test_FileLine test_Name (fun s => s) test_Itoa "" no_close_error
              one_file_config quiet_std (Background string) LogError "msg" [] "now" (Some 1)
              eq_refl eq_refl eq_refl)
    as (Hw & _ & Ha & Hf & Hc & _).
  split; [rewrite Hw; reflexivity |]. split; [rewrite Ha, Hf; reflexivity | exact Hc].
Defined.

(** C8 on two spellings of "warning". *)
Lemma parseLevel_witness :
  allASCII "WaRnInG" = true
  /\ sameLetters "WaRnInG" "warning" = true
  /\ parseLevel (fun s => s) "warning" = parseLevel (fun s => s) "WaRnInG"
  /\ parseLevel (fun s => s) "WaRnInG" = LogWarn.
Proof.
  split; [reflexivity |]. split; [reflexivity |].
  destruct (parseLevel_case_insensitive_default_debug (fun s => s) "WaRnInG" "warning"
              eq_refl eq_refl) as (H1 & H2 & _).
  split; [exact H1 | rewrite H2; reflexivity].
Defined.

(** C4 in each of its four cases. *)
Lemma Write_cases_witness :
  AsyncWriter_Write loaded_writer [] = (loaded_writer, (0, None))
  /\ AsyncWriter_Write finished_writer (B "x")
     = (finished_writer, (0, Some errAsyncWriterClosed))
  /\ AsyncWriter_Write full_writer (B "x") = (full_writer, (0, Some errAsyncWriterFull))
  /\ AsyncWriter_Write loaded_writer (B "x")
     = (set_ch (ch loaded_writer ++ [B "x"]) loaded_writer, (len (B "x"), None)).
Proof.
  assert (Hx : len (B "x") <> 0) by (intros H; vm_compute in H; discriminate).
  split; [| split; [| split]].
  - apply (Write_cases_and_never_blocks loaded_writer []). reflexivity.
  - apply (Write_cases_and_never_blocks finished_writer (B "x")); [exact Hx | reflexivity].
  - apply (Write_cases_and_never_blocks full_writer (B "x"));
      [exact Hx | reflexivity | vm_compute; discriminate].
  - apply (Write_cases_and_never_blocks loaded_writer (B "x"));
      [exact Hx | reflexivity | vm_compute; reflexivity].
Defined.

(** C3 as the code has it: the goroutine closes the failing sink and marks
    the writer done; [Flush] on a closed writer answers "closed", alone or
    through the logger; the loop keeps the last error of its writers. *)
Lemma Close_drops_sink_error_witness :
  flush_step drained_failing_writer
  = [set_goroutine FExit
       (set_done true
          (set_writer (fst (sink_Close (writer drained_failing_writer)))
                      drained_failing_writer))]
  /\ snd (AsyncWriter_Flush finished_writer) = Some (Some errAsyncWriterClosed)
  /\ snd (logger_Flush closed_logger) = Some (Some errAsyncWriterClosed)
  /\ snd (each_writer AsyncWriter_Flush [finished_writer; loaded_writer] None)
     = Some (keep_last None
               (map (fun w0 => result_or_nil (snd (AsyncWriter_Flush w0)))
                    [finished_writer; loaded_writer]))
  /\ snd (logger_Close closed_logger) <> Some (Some errAsyncWriterClosed)
  /\ snd (AsyncWriter_Close failing_writer) = Some None.
Proof.
  pose proof (Close_drops_sink_error_and_last_error_is_kept drained_failing_writer
                closed_logger errAsyncWriterClosed AsyncWriter_Flush
                [finished_writer; loaded_writer] None)
    as (_ & Hlc & Hstep & _ & _ & Hlast & _).
  split; [apply Hstep; reflexivity |].
  split; [vm_compute; reflexivity |]. split; [vm_compute; reflexivity |].
  split; [| split; [exact Hlc |]].
  - apply Hlast. intros w0 [<- | [<- | []]]; eexists; vm_compute; reflexivity.
  - apply (Close_drops_sink_error_and_last_error_is_kept failing_writer
             closed_logger errAsyncWriterClosed AsyncWriter_Flush [] None);
      try reflexivity. vm_compute. lia.
Defined.

(** ** The lines of the repository's test

    [TestLogger] initialises the logger with the package path as prefix and
    level "debug", then with the empty configuration; the model renders the
    lines the test expects. *)

Local Abbreviation repo_rendered :=
  (rendered string plain_Sprintf B test_FileLine test_Name (fun s => s) test_Itoa
            "github.com/altstory").

Example test_info_line_with_pairs :
  fst (fst (repo_rendered
              (test_newLogger
                 (Some (mkConfig "" "debug" "" "" "github.com/altstory/go-log" 0)))
              (WithMoreInfo string (Background string)
                 [mkInfo string "key1" "123"%string; mkInfo string "key2" "value2"%string])
              LogInfo "info 1+1=2 2+2=4" [] "2019-07-03T12:34:56.789+08:00" (Some 1)))
  = B "[INFO][2019-07-03T12:34:56.789+08:00][logger_test.go:16@go-log.doLog] *||key1=123||key2=value2||info 1+1=2 2+2=4"
    ++ [x0a].
Proof. vm_compute. reflexivity. Qed.

Example test_trace_line_with_tag_std_prefix :
  fst (fst (repo_rendered
              (test_newLogger (Some (mkConfig "" "" "" "" "" 0)))
              (WithTag string (Background string) "trace")
              LogTrace "trace 1+1=2 2+2=4" [] "2019-07-03T12:34:56.789+08:00" (Some 1)))
  = B "[TRACE][2019-07-03T12:34:56.789+08:00][logger_test.go:16@<std>/go-log.doLog] trace||trace 1+1=2 2+2=4"
    ++ [x0a].
Proof. vm_compute. reflexivity. Qed.

Example test_print_line_is_bare :
  fst (fst (repo_rendered
              (test_newLogger (Some (mkConfig "" "" "" "" "" 0)))
              (Background string)
              logPrint "print 1+1=2 2+2=4" [] "2019-07-03T12:34:56.789+08:00" (Some 1)))
  = B "print 1+1=2 2+2=4" ++ [x0a].
Proof. vm_compute. reflexivity. Qed.

(** The empty configuration: threshold Info, error threshold Warn, and two
    writers, since the two default paths differ. *)
Example empty_config_defaults :
  maxLevel (test_newLogger (Some (mkConfig "" "" "" "" "" 0))) = LogInfo
  /\ errorLevel (test_newLogger (Some (mkConfig "" "" "" "" "" 0))) = LogWarn
  /\ length (writers (test_newLogger (Some (mkConfig "" "" "" "" "" 0)))) = 2%nat
  /\ map ch_cap (writers (test_newLogger (Some (mkConfig "" "" "" "" "" 0))))
     = [262144; 262144].
Proof. vm_compute. repeat split. Qed.

(** ** The further properties at concrete inputs *)

Lemma after_one_write_reachable :
  reachable (mkSys (NewAsyncWriter sample_sink 4) [] []) after_one_write.
Proof.
  apply (reach_step _ (mkSys (set_ch [B "one"] (NewAsyncWriter sample_sink 4))
                             [Ret 3 None] [B "one"])).
  - apply (reach_step _ (mkSys (NewAsyncWriter sample_sink 4) [WriteSend (B "one")] [])).
    + apply (reach_step _ (mkSys (NewAsyncWriter sample_sink 4) [WriteEntry (B "one")] [])).
      * apply (reach_step _ (mkSys (NewAsyncWriter sample_sink 4) [] []));
          [apply reach_refl |].
        apply (step_spawn (mkSys (NewAsyncWriter sample_sink 4) [] [])
                          (WriteEntry (B "one"))).
        reflexivity.
      * apply step_run. vm_compute. left. reflexivity.
    + apply step_run. vm_compute. left. reflexivity.
  - apply step_run. vm_compute. left. reflexivity.
Defined.

Lemma after_close_reachable :
  reachable (mkSys (NewAsyncWriter sample_sink 4) [] []) after_close.
Proof.
  apply (reach_step _ (mkSys (mkAsyncWriter [] 4 false false true
                                (fst (sink_Close sample_sink)) 1 FExit) [CloseWait] [])).
  - apply (reach_step _ (mkSys (mkAsyncWriter [] 4 false false false sample_sink 1 FDrain)
                               [CloseWait] [])).
    + apply (reach_step _ (mkSys (mkAsyncWriter [] 4 false false false sample_sink 0 FMark)
                                 [CloseWait] [])).
      * apply (reach_step _ (mkSys signalled_writer [CloseWait] [])).
        -- apply (reach_step _ (mkSys (NewAsyncWriter sample_sink 4) [CloseSignal] [])).
           ++ apply (reach_step _ (mkSys (NewAsyncWriter sample_sink 4) [CloseEntry] [])).
              ** apply (reach_step _ (mkSys (NewAsyncWriter sample_sink 4) [] []));
                   [apply reach_refl |].
                 apply (step_spawn (mkSys (NewAsyncWriter sample_sink 4) [] []) CloseEntry).
                 reflexivity.
              ** apply step_run. left. reflexivity.
           ++ apply step_run. left. reflexivity.
        -- apply step_run. left. reflexivity.
      * apply step_run. left. reflexivity.
    + apply step_run. left. reflexivity.
  - apply step_run. left. reflexivity.
Defined.

Lemma loaded_writer_idle : idle_open loaded_writer.
Proof.
  unfold idle_open. repeat (split; [reflexivity |]). vm_compute. discriminate.
Defined.

Lemma full_writer_idle : idle_open full_writer.
Proof.
  unfold idle_open. repeat (split; [reflexivity |]). vm_compute. discriminate.
Defined.

Lemma two_sink_logger_idle : Forall idle_open (writers two_sink_logger).
Proof.
  repeat constructor; vm_compute; discriminate.
Defined.

(** X1 on the run in which one line is written and handed to the sink. *)
Lemma queue_never_exceeds_capacity_witness :
  reachable (mkSys (NewAsyncWriter sample_sink 4) [] []) after_one_write
  /\ Z.of_nat (length (ch (sw after_one_write))) <= Z.max 0 4
  /\ ch_cap (sw after_one_write) = 4.
Proof.
  split; [exact after_one_write_reachable |].
  exact (queue_never_exceeds_capacity sample_sink 4 after_one_write after_one_write_reachable).
Defined.

(** X2 on the writer that has been closed. *)
Lemma closed_flag_is_permanent_witness :
  reachable (mkSys (NewAsyncWriter sample_sink 4) [] []) after_close
  /\ reachable after_close after_close
  /\ isClosed (sw after_close) = true
  /\ len (B "x") <> 0
  /\ AsyncWriter_Write (sw after_close) (B "x")
     = (sw after_close, (0, Some errAsyncWriterClosed))
  /\ AsyncWriter_Flush (sw after_close) = (sw after_close, Some (Some errAsyncWriterClosed)).
Proof.
  assert (Hx : len (B "x") <> 0) by (vm_compute; discriminate).
  split; [exact after_close_reachable |]. split; [apply reach_refl |].
  split; [reflexivity |]. split; [exact Hx |].
  destruct (closed_flag_is_permanent sample_sink 4 after_close after_close (B "x")
              after_close_reachable (reach_refl after_close)) as [_ H].
  destruct (H eq_refl) as (_ & Hw & Hf).
  split; [exact (Hw Hx) | exact Hf].
Defined.

(** X3 on the writer that has been closed. *)
Lemma sink_closed_once_witness :
  reachable (mkSys (NewAsyncWriter sample_sink 4) [] []) after_close
  /\ reachable after_close after_close
  /\ done (sw after_close) = true
  /\ closes (writer (sw after_close)) = 1%nat.
Proof.
  split; [exact after_close_reachable |]. split; [apply reach_refl |].
  split; [reflexivity |].
  destruct (sink_closed_once_then_untouched sample_sink 4 after_close after_close
              after_close_reachable (reach_refl after_close)) as (_ & _ & H).
  destruct (H eq_refl) as (_ & _ & Hc). exact Hc.
Defined.

(** X4 on the run in which one line is written and handed to the sink. *)
Lemma sink_receives_only_lines_witness :
  reachable (mkSys (NewAsyncWriter sample_sink 4) [] []) after_one_write
  /\ exists ls,
       written (writer (sw after_one_write)) = written sample_sink ++ ls
       /\ forallb is_line ls = true /\ Forall (fun d => len d <> 0) ls.
Proof.
  split; [exact after_one_write_reachable |].
  exact (sink_receives_only_lines sample_sink 4 after_one_write after_one_write_reachable).
Defined.

(** X5 on the open writer with two queued lines. *)
Lemma Flush_writes_every_queued_line_witness :
  idle_open loaded_writer
  /\ snd (AsyncWriter_Flush loaded_writer) = Some None
  /\ written (writer (fst (AsyncWriter_Flush loaded_writer))) = [B "one"; B "two"].
Proof.
  split; [exact loaded_writer_idle |].
  destruct (Flush_writes_every_queued_line loaded_writer loaded_writer_idle)
    as (H1 & H2 & _).
  split; [exact H1 | exact H2].
Defined.

(** X6 with a queue of four and the line "one". *)
Lemma Write_racing_with_Close_witness :
  0 < 4 /\ len (B "one") <> 0
  /\ reachable (mkSys (NewAsyncWriter sample_sink 4) [] [])
       (mkSys (mkAsyncWriter [B "one"] 4 false false true (fst (sink_Close sample_sink)) 1 FExit)
              [Ret (len (B "one")) None; Ret 0 None] [B "one"]).
Proof.
  assert (H4 : 0 < 4) by lia.
  assert (Hx : len (B "one") <> 0) by (vm_compute; discriminate).
  split; [exact H4 |]. split; [exact Hx |].
  exact (proj1 (Write_racing_with_Close_is_accepted_and_lost sample_sink 4 (B "one") H4 Hx)).
Defined.

(** X22 with a queue of four and the line "one". *)
Lemma Flush_can_return_early_witness :
  2 <= 4 /\ len (B "one") <> 0
  /\ reachable (mkSys (mkAsyncWriter [B "one"] 4 false true false sample_sink 0 FSelect)
                      [FlushWait; Ret (len (B "one")) None] [B "one"])
               (mkSys (mkAsyncWriter [B "one"; []] 4 false false false sample_sink 0 FSelect)
                      [FlushWait; Ret (len (B "one")) None; Ret 0 None] [B "one"]).
Proof.
  assert (H4 : 2 <= 4) by lia.
  assert (Hx : len (B "one") <> 0) by (vm_compute; discriminate).
  split; [exact H4 |]. split; [exact Hx |].
  exact (proj2 (Flush_can_return_before_a_queued_line_is_written sample_sink 4 (B "one") H4 Hx)).
Defined.

(** X8 with two empty batches. *)
Lemma WithMoreInfo_accumulates_witness :
  concat [[]; []] = ([] : list (Info string))
  /\ fold_left (WithMoreInfo string) [[]; []] (Background string) = Background string.
Proof.
  split; [reflexivity |].
  apply (WithMoreInfo_accumulates_batches string (Background string) [[]; []] [] "").
  reflexivity.
Defined.

(** X9 at Warn, and at 7, which is no level. *)
Lemma levelName_parses_back_witness :
  (forall s', 7 <> level_of s')
  /\ parseLevel (fun s => s) (levelName (level_of SWarn)) = level_of SWarn
  /\ levelName 7 = "UNKNOWN"%string.
Proof.
  assert (H : forall s', 7 <> level_of s') by (intros s'; destruct s'; vm_compute; discriminate).
  split; [exact H |].
  destruct (levelName_parses_back (fun s => s) SWarn 7) as [H1 H2].
  split; [exact H1 | exact (H2 H)].
Defined.

(** X10 on an Info record with a tag and one pair. *)
Lemma line_layout_witness :
  LogInfo <> logPrint
  /\ fst (fst (test_rendered two_sink_logger
                 (WithMoreInfo string (WithTag string (Background string) "tag")
                    [mkInfo string "k" "v"%string])
                 LogInfo "msg" [] "now" (Some 1)))
     = B "[INFO][now][logger_test.go:16@github.com/altstory/go-log.doLog] tag||k=v||msg"
       ++ [x0a].
Proof.
  assert (H : LogInfo <> logPrint) by (vm_compute; discriminate).
  split; [exact H |].
  exact (proj1 (line_layout string plain_Sprintf B test_FileLine test_Name (fun s => s)
                  test_Itoa "" two_sink_logger
                  (WithMoreInfo string (WithTag string (Background string) "tag")
                     [mkInfo string "k" "v"%string])
                  LogInfo "msg" [] "now" (Some 1)) H).
Defined.

(** X11 on a logger with one cached call site and a record from another. *)
Lemma log_keeps_cache_witness :
  pcCache cached_logger !! 1 = Some cached_site
  /\ pcCache (snd (fst (fst (test_log (quiet_std, cached_logger) (Background string) LogInfo
                                      "msg" [] "now" (Some 2))))) !! 1 = Some cached_site
  /\ pcCache cached_logger !! 2 = None
  /\ pcCache (snd (fst (fst (test_log (quiet_std, cached_logger) (Background string) LogInfo
                                      "msg" [] "now" (Some 2))))) !! 2
     = Some (parsePC test_FileLine test_Name (fun s => s) test_Itoa "" cached_logger 2).
Proof.
  destruct (log_keeps_configuration_and_cache string plain_Sprintf B test_FileLine test_Name
              (fun s => s) test_Itoa "" quiet_std cached_logger (Background string) LogInfo
              "msg" [] "now" (Some 2))
    as (_ & _ & _ & _ & _ & _ & _ & Hc1 & Hc2 & _).
  assert (H1 : pcCache cached_logger !! 1 = Some cached_site) by (vm_compute; reflexivity).
  assert (H2 : pcCache cached_logger !! 2 = None) by (vm_compute; reflexivity).
  split; [exact H1 |]. split; [exact (Hc1 1 cached_site H1) |]. split; [exact H2 |].
  apply (Hc2 2 H2). vm_compute. discriminate.
Defined.

(** X12 on an Info record while standard output is a terminal. *)
Lemma unconfigured_logger_witness :
  0 <= LogInfo /\ LogInfo <= logMax
  /\ stderr (fst (fst (fst (test_log (terminal_std, set_pcCache ∅ (test_newLogger None))
                                     (Background string) LogInfo "msg" [] "now" (Some 1)))))
     = []
  /\ length (stdout (fst (fst (fst (test_log (terminal_std, set_pcCache ∅ (test_newLogger None))
                                     (Background string) LogInfo "msg" [] "now" (Some 1))))))
     = 2%nat.
Proof.
  assert (H0 : 0 <= LogInfo) by (vm_compute; discriminate).
  assert (H1 : LogInfo <= logMax) by (vm_compute; discriminate).
  split; [exact H0 |]. split; [exact H1 |].
  destruct (unconfigured_logger_writes_to_stdout_only string (fun s => s) plain_Sprintf B
              test_FileLine test_Name (fun s => s) test_Itoa "" no_close_error
              terminal_std ∅ (Background string) LogInfo "msg" [] "now" (Some 1) H0 H1)
    as (He & Ho & _).
  split; [exact He |]. rewrite Ho. reflexivity.
Defined.

(** X14 on the logger with two sinks. *)
Lemma Fatalf_flushes_witness :
  Forall idle_open (writers two_sink_logger)
  /\ (maxLevel two_sink_logger <? LogFatal) = false
  /\ snd (test_log (quiet_std, two_sink_logger) (Background string) LogFatal
                   "msg" [] "now" (Some 1))
     = Panics (snd (test_rendered two_sink_logger (Background string) LogFatal
                                  "msg" [] "now" (Some 1))).
Proof.
  split; [exact two_sink_logger_idle |]. split; [reflexivity |].
  exact (proj1 (Fatalf_flushes_every_writer_then_panics string plain_Sprintf B test_FileLine
                  test_Name (fun s => s) test_Itoa "" quiet_std two_sink_logger
                  (Background string) "msg" [] "now" (Some 1) two_sink_logger_idle eq_refl)).
Defined.

(** X15 on the logger with two sinks. *)
Lemma logger_Close_drains_witness :
  Forall idle_open (writers two_sink_logger)
  /\ snd (logger_Close two_sink_logger) = Some None
  /\ length (writers (fst (logger_Close two_sink_logger))) = 2%nat.
Proof.
  split; [exact two_sink_logger_idle |].
  destruct (logger_Close_drains_and_closes_every_writer two_sink_logger two_sink_logger_idle)
    as (H1 & _ & H3 & _).
  split; [exact H1 | exact H3].
Defined.

(** X16 on the logger whose writer has been shut down, with an Error record. *)
Lemma closed_logger_drops_witness :
  Forall (fun w => isClosed w = true) (writers closed_logger)
  /\ writers (snd (fst (fst (test_log (quiet_std, closed_logger) (Background string) LogError
                                      "msg" [] "now" (Some 1)))))
     = writers closed_logger
  /\ snd (test_log (quiet_std, closed_logger) (Background string) LogError
                   "msg" [] "now" (Some 1)) = Returns.
Proof.
  assert (H : Forall (fun w => isClosed w = true) (writers closed_logger)).
  { repeat constructor. }
  split; [exact H |].
  destruct (closed_logger_drops_records string plain_Sprintf B test_FileLine test_Name
              (fun s => s) test_Itoa "" quiet_std closed_logger (Background string) LogError
              "msg" [] "now" (Some 1) H) as (H1 & H2 & _).
  split; [exact H1 | exact H2].
Defined.

(** X17 on a writer with room and on a full one. *)
Lemma Write_then_Flush_witness :
  idle_open loaded_writer /\ idle_open full_writer /\ len (B "x") <> 0
  /\ Z.of_nat (length (ch loaded_writer)) < ch_cap loaded_writer
  /\ ch_cap full_writer <= Z.of_nat (length (ch full_writer))
  /\ written (writer (fst (AsyncWriter_Flush (fst (AsyncWriter_Write loaded_writer (B "x"))))))
     = [B "one"; B "two"; B "x"]
  /\ written (writer (fst (AsyncWriter_Flush (fst (AsyncWriter_Write full_writer (B "x"))))))
     = [B "one"].
Proof.
  assert (Hx : len (B "x") <> 0) by (vm_compute; discriminate).
  assert (Hroom : Z.of_nat (length (ch loaded_writer)) < ch_cap loaded_writer) by reflexivity.
  assert (Hfull : ch_cap full_writer <= Z.of_nat (length (ch full_writer)))
    by (vm_compute; discriminate).
  split; [exact loaded_writer_idle |]. split; [exact full_writer_idle |].
  split; [exact Hx |]. split; [exact Hroom |]. split; [exact Hfull |].
  split.
  - destruct (Write_then_Flush_delivers loaded_writer (B "x") loaded_writer_idle Hx)
      as (_ & H & _).
    exact (proj2 (H Hroom)).
  - destruct (Write_then_Flush_delivers full_writer (B "x") full_writer_idle Hx)
      as (_ & _ & H).
    exact (proj1 (proj2 (H Hfull))).
Defined.

(** X18 on the call site of the repository's test. *)
Lemma parsePC_shortens_witness :
  pkgPrefix prefixed_logger <> ""%string
  /\ test_Name 1 = (pkgPrefix prefixed_logger ++ "go-log.doLog")%string
  /\ line (parsePC test_FileLine test_Name (fun s => s) test_Itoa "github.com/altstory"
                   prefixed_logger 1)
     = B "[logger_test.go:16@go-log.doLog]"
  /\ line (parsePC test_FileLine test_Name (fun s => s) test_Itoa "github.com/altstory"
                   two_sink_logger 1)
     = B "[logger_test.go:16@<std>/go-log.doLog]".
Proof.
  assert (H1 : pkgPrefix prefixed_logger <> ""%string) by discriminate.
  assert (H2 : test_Name 1 = (pkgPrefix prefixed_logger ++ "go-log.doLog")%string)
    by reflexivity.
  split; [exact H1 |]. split; [exact H2 |]. split.
  - exact (proj1 (parsePC_shortens_function_name test_FileLine test_Name (fun s => s)
                    test_Itoa "github.com/altstory" prefixed_logger 1 "go-log.doLog") H1 H2).
  - apply (parsePC_shortens_function_name test_FileLine test_Name (fun s => s)
             test_Itoa "github.com/altstory" two_sink_logger 1 "/go-log.doLog").
    + left. reflexivity.
    + discriminate.
    + reflexivity.
Defined.

(** X20 on a Print record. *)
Lemma sink_lines_witness :
  In (asyncWriter 0, B "msg" ++ [x0a])
     (calls_of (test_log (quiet_std, two_sink_logger) (Background string) logPrint
                         "msg" [] "now" (Some 1)))
  /\ 0 < len (B "msg" ++ [x0a]) /\ len (B "msg" ++ [x0a]) <= 4096.
Proof.
  assert (Hin : In (asyncWriter 0, B "msg" ++ [x0a])
                   (calls_of (test_log (quiet_std, two_sink_logger) (Background string)
                                       logPrint "msg" [] "now" (Some 1)))).
  { vm_compute. left. reflexivity. }
  split; [exact Hin |].
  destruct (sink_lines_are_bounded_and_not_empty string plain_Sprintf B test_FileLine test_Name
              (fun s => s) test_Itoa "" (quiet_std, two_sink_logger) (Background string)
              logPrint "msg" [] "now" (Some 1) (asyncWriter 0) (B "msg" ++ [x0a]) Hin)
    as (H1 & H2 & _).
  split; [exact H1 | exact H2].
Defined.

(** X21 with the logger with two sinks as the old default logger. *)
Lemma Init_replaces_witness :
  Forall idle_open (writers (snd (quiet_std, two_sink_logger)))
  /\ snd (snd (Init (fun s => s) no_close_error true false None (quiet_std, two_sink_logger)))
     = Some None
  /\ isStdoutTerminal (fst (fst (Init (fun s => s) no_close_error true false None
                                      (quiet_std, two_sink_logger)))) = true.
Proof.
  split; [exact two_sink_logger_idle |].
  destruct (Init_replaces_default_logger_and_closes_old (fun s => s) no_close_error true false
              None (quiet_std, two_sink_logger)) as (_ & _ & _ & _ & H5 & _ & H7).
  split; [exact (proj1 (H7 two_sink_logger_idle)) | exact H5].
Defined.

(** ** The order of lines and [Close] at concrete inputs *)



(** C7 as the code has it: at once on a draining writer, blocked on a
    writer with a pending close signal, no return past the test of the flag
    while [done] is open, [done] closed only after the goroutine has
    returned, and from an open writer with two queued lines two concurrent
    [Close] calls (here the scheduler alternates its choices) both return
    success, with the writer closed and both lines in the sink. *)
Lemma Close_idempotent_witness :
  isClosed draining_writer = true
  /\ call_step draining_writer CloseEntry = [(draining_writer, Ret 0 None)]
  /\ call_step signalled_writer CloseSignal = []
  /\ call_step finished_writer CloseWait = [(finished_writer, Ret 0 None)]
  /\ done draining_writer = false
  /\ call_step draining_writer CloseWait = []
  /\ reachable (mkSys (NewAsyncWriter sample_sink 4) [] []) after_close
  /\ goroutine (sw after_close) = FExit
  /\ closed_and_returned [B "one"; B "two"] 0 2
       (run (fun k => k) 13 0 (mkSys loaded_writer [CloseEntry; CloseEntry] [])).
Proof.
  destruct (Close_idempotent_once_marked_and_reaches_closed draining_writer (fun k => k) 0 0
              sample_sink 4 after_close) as (A1 & _ & _ & _ & A5 & A6 & _).
  destruct (Close_idempotent_once_marked_and_reaches_closed signalled_writer (fun k => k) 0 0
              sample_sink 4 after_close) as (_ & B2 & _).
  destruct (Close_idempotent_once_marked_and_reaches_closed finished_writer (fun k => k) 0 0
              sample_sink 4 after_close) as (_ & _ & C3 & _).
  destruct (Close_idempotent_once_marked_and_reaches_closed loaded_writer (fun k => k) 13 1
              sample_sink 4 after_close) as (_ & _ & _ & _ & _ & _ & D7).
  split; [reflexivity |]. split; [exact (A1 eq_refl) |].
  split; [exact (proj2 (B2 eq_refl eq_refl eq_refl)) |].
  split; [exact (proj2 (C3 eq_refl)) |].
  split; [reflexivity |]. split; [exact (proj1 (A5 eq_refl)) |].
  split; [exact after_close_reachable |].
  split; [exact (proj1 (A6 after_close_reachable eq_refl)) |].
  apply D7; try reflexivity; vm_compute; lia.
Defined.
